(** * json-tcp-lb: a shallow embedding of [main.go]

    The proxy reads newline-delimited records from inbound TCP connections
    ([receive]), hands them over a bounded channel to a pool of workers
    ([transmit]) and each worker keeps one outbound connection alive with
    retries, random failover and a periodic reconnect ([Worker]).

    Pure helpers are Rocq functions.  Code that talks to the network, the
    clock or the random source runs in a small state-and-outcome monad over
    a [World] that holds the scripted answers of the environment and the
    trace of observable effects.  Unbounded [for] loops take fuel. *)

From Stdlib Require Import Strings.String Strings.Byte.
From Stdlib Require Import ZArith List Bool Lia.
Import ListNotations.
Open Scope Z_scope.

(* ================================================================== *)
(** * Byte slices and [bytes.Buffer] *)
(* ================================================================== *)

(** [const bufferSize int = 16384] *)
Definition bufferSize : Z := 16384.

(** [byte('\n')] *)
Definition newline : byte := x0a.

(** Go's [s[lo:hi]] on a byte slice (indices in range at every use). *)
Definition slice (s : list byte) (lo hi : Z) : list byte :=
  firstn (Z.to_nat (hi - lo)) (skipn (Z.to_nat lo) s).

(** [len(s)] *)
Definition len {A : Type} (s : list A) : Z := Z.of_nat (List.length s).

(** [bytes.LastIndexByte(s, c)]: index of the last [c] in [s], or -1.
    The scan keeps the position [i] of the element under inspection and the
    best index seen so far. *)
Fixpoint lastIndexFrom (s : list byte) (c : byte) (i acc : Z) : Z :=
  match s with
  | [] => acc
  | x :: s' => lastIndexFrom s' c (i + 1) (if Byte.eqb x c then i else acc)
  end.

Definition LastIndexByte (s : list byte) (c : byte) : Z :=
  lastIndexFrom s c 0 (-1).

(** [bytes.Buffer]: the unread contents and the capacity of the backing
    array.  The growth policy belongs to Go's library, not to this
    repository; [Write] uses the library's classic rule (keep the array when
    the bytes fit, otherwise [2*cap + n]).  No statement below depends on
    the rule beyond [Reset] keeping the capacity. *)
Module Buffer.

Record t : Type := mk { data : list byte; cap : Z }.

Definition Len (b : t) : Z := len (data b).
Definition Cap (b : t) : Z := cap b.
Definition Bytes (b : t) : list byte := data b.

Definition Grow (b : t) (n : Z) : t :=
  if len (data b) + n <=? cap b then b
  else mk (data b) (2 * cap b + n).

Definition Write (b : t) (p : list byte) : t :=
  mk (data b ++ p) (cap (Grow b (len p))).

Definition Reset (b : t) : t := mk [] (cap b).

(** [new(bytes.Buffer)] *)
Definition new : t := mk [] 0.

End Buffer.

Definition Buf : Type := Buffer.t.

(* ================================================================== *)
(** * The buffer pool *)
(* ================================================================== *)

(** [sync.Pool] holding [*bytes.Buffer].  The list is the sequence of
    buffers that successive [Get] calls hand out before the pool falls back
    to [New]; quantifying over every such list covers every order in which
    the runtime may return pooled buffers. *)
Definition Pool : Type := list Buf.

(** The [New] function of [bufPool]. *)
Definition bufPool_New : Buf := Buffer.Grow Buffer.new (bufferSize * 2).

Definition bufPool_Get (pool : Pool) : Buf * Pool :=
  match pool with
  | [] => (bufPool_New, [])
  | b :: pool' => (b, pool')
  end.

Definition bufPool_Put (pool : Pool) (b : Buf) : Pool := b :: pool.

(** Every pooled buffer has length zero. *)
Definition pool_ok (pool : Pool) : Prop :=
  Forall (fun b => Buffer.data b = []) pool.

(* ================================================================== *)
(** * The line framer: [receive] *)
(* ================================================================== *)

(** One result of [conn.Read(buf)]: [n] bytes and no error, or an error
    (with the bytes, if any, that came along with it; a clean close
    returns none). *)
Inductive ReadResult : Type :=
| ReadOk (window : list byte)
| ReadErr (window : list byte).

(** The inbound connection as the framer sees it: the results of its
    successive [Read] calls. *)
Definition InConn : Type := list ReadResult.

(** State of the [for] loop of [receive]: the accumulation buffer, the
    pool, and the buffers sent on [out] so far (oldest first). *)
Record Framer : Type := mkFramer {
  stringbuf : Buf;
  pool : Pool;
  out : list Buf
}.

(** The body of the loop after a successful read of [window = buf[:n]]. *)
Definition frame (f : Framer) (window : list byte) : Framer :=
  let n := len window in
  let lastNewlineIndex := LastIndexByte window newline in
  if negb (lastNewlineIndex =? -1) then
    let sb := Buffer.Write (stringbuf f) (slice window 0 (lastNewlineIndex + 1)) in
    let out' := out f ++ [sb] in
    let (fresh, pool') := bufPool_Get (pool f) in
    mkFramer (Buffer.Write fresh (slice window (lastNewlineIndex + 1) n)) pool' out'
  else
    mkFramer (Buffer.Write (stringbuf f) window) (pool f) (out f).

(** The [for] loop: runs until a read fails.  [None] when the script ends
    with the framer still blocked in [Read]. *)
Fixpoint receive_loop (conn : InConn) (f : Framer) : option Framer :=
  match conn with
  | [] => None
  | ReadErr _ :: _ => Some f
  | ReadOk window :: conn' => receive_loop conn' (frame f window)
  end.

(** The flush after the loop. *)
Definition flush (f : Framer) : Framer :=
  if Buffer.Len (stringbuf f) >? 0
  then mkFramer (stringbuf f) (pool f) (out f ++ [stringbuf f])
  else f.

(** [receive(conn, out)], started with pool [pool0] and an empty channel
    history. *)
Definition receive_start (pool0 : Pool) : Framer :=
  let (sb, pool') := bufPool_Get pool0 in mkFramer sb pool' [].

Definition receive (conn : InConn) (pool0 : Pool) : option Framer :=
  option_map flush (receive_loop conn (receive_start pool0)).

(** The records a framer has enqueued, as byte strings. *)
Definition records (f : Framer) : list (list byte) :=
  map Buffer.Bytes (out f).

(** The bytes delivered by the successful reads of a script, up to the
    first failing read. *)
Fixpoint bytes_read (conn : InConn) : list byte :=
  match conn with
  | ReadOk window :: conn' => window ++ bytes_read conn'
  | _ => []
  end.

(** A stream that ends in a clean close: some successful reads, then a
    read that fails and delivers nothing. *)
Definition clean_close (windows : list (list byte)) : InConn :=
  map ReadOk windows ++ [ReadErr []].

(** The bytes held in the accumulation buffer. *)
Definition residual (f : Framer) : list byte := Buffer.Bytes (stringbuf f).

(** A record whose last byte is a newline. *)
Definition ends_with_newline (r : list byte) : Prop :=
  exists pre, r = pre ++ [newline].

(* ================================================================== *)
(** * The environment of a worker *)
(* ================================================================== *)

(** [time.Duration] counts nanoseconds in an [int64]. *)
Definition Second : Z := 1000000000.
Definition Minute : Z := 60 * Second.

(** Two's-complement wrap-around of [int64] (and of [int] on 64-bit
    platforms). *)
Definition wrap64 (x : Z) : Z := (x + 2 ^ 63) mod 2 ^ 64 - 2 ^ 63.

Definition maxInt : Z := 2 ^ 63 - 1.

(** An established outbound connection, by identity. *)
Definition Conn : Type := nat.

(** Go's [error] is [option GoError]; [None] is [nil]. *)
Inductive GoError : Type :=
| DialError (addr : string)
| WriteError
| ListenError
| AcceptError.

Definition error : Type := option GoError.

(** Scripted answers of the network: how long the call took and whether it
    succeeded. *)
Inductive DialResult : Type :=
| DialOk (c : Conn) (elapsed : Z)
| DialFail (elapsed : Z).

Inductive WriteResult : Type :=
| WriteOk (elapsed : Z)
| WriteFail (n : Z) (elapsed : Z).

(** Observable effects, in the order they happen. *)
Inductive Event : Type :=
| EvDial (addr : string)
| EvClose (c : Conn)
| EvSleep (d : Z)
| EvWrite (c : Conn) (b : list byte) (ok : bool).

(** The world a worker runs in.  Each script is an infinite stream given by
    a finite prefix: past its end every dial and every write fails at once
    and the random source returns 0. *)
Record World : Type := mkWorld {
  clock : Z;
  cancelAt : option Z;
  dials : list DialResult;
  writes : list WriteResult;
  rands : list Z;
  trace : list Event
}.

(** [context.Context]: the pool-wide context that [listenAndProxy] cancels,
    or [context.TODO()], which is never cancelled. *)
Inductive Context : Type := CtxPool | CtxTODO.

Inductive PanicKind : Type :=
| NilConn
| IndexOutOfRange
| IntnArgument
| MakeChanSize.

Inductive Outcome (A : Type) : Type :=
| Ret (a : A)
| Panic (k : PanicKind)
| OutOfFuel
| Blocked.

Arguments Ret {A} a.
Arguments Panic {A} k.
Arguments OutOfFuel {A}.
Arguments Blocked {A}.

(** State over [World], stopping at the first outcome that is not [Ret]. *)
Definition M (A : Type) : Type := World -> Outcome A * World.

Definition ret {A : Type} (a : A) : M A := fun s => (Ret a, s).

Definition bind {A B : Type} (m : M A) (k : A -> M B) : M B :=
  fun s =>
    match m s with
    | (Ret a, s') => k a s'
    | (Panic p, s') => (Panic p, s')
    | (OutOfFuel, s') => (OutOfFuel, s')
    | (Blocked, s') => (Blocked, s')
    end.

Definition fail {A : Type} (o : Outcome A) : M A := fun s => (o, s).

Notation "x <- c ;; k" := (bind c (fun x => k))
  (at level 61, c at next level, right associativity).
Notation "' pat <- c ;; k" := (bind c (fun x => match x with pat => k end))
  (at level 61, pat pattern, c at next level, right associativity).
Notation "c ;;; k" := (bind c (fun _ => k))
  (at level 61, right associativity).

Definition emit (e : Event) : M unit :=
  fun s => (Ret tt, mkWorld (clock s) (cancelAt s) (dials s) (writes s)
                            (rands s) (trace s ++ [e])).

Definition elapse (dt : Z) : M unit :=
  fun s => (Ret tt, mkWorld (clock s + Z.max 0 dt) (cancelAt s) (dials s)
                            (writes s) (rands s) (trace s)).

(** [time.Now()] *)
Definition time_Now : M Z := fun s => (Ret (clock s), s).

(** [time.Since(t)] *)
Definition time_Since (t : Z) : M Z := fun s => (Ret (clock s - t), s).

(** [time.Sleep(d)] *)
Definition time_Sleep (d : Z) : M unit := emit (EvSleep d) ;;; elapse d.

(** [ctx.Err() != nil] at time [now]: [context.TODO()] is never done, the
    pool context is done from the moment it is cancelled. *)
Definition done_at (ctx : Context) (cancelAt : option Z) (now : Z) : bool :=
  match ctx, cancelAt with
  | CtxPool, Some t => t <=? now
  | _, _ => false
  end.

Definition ctx_Err (ctx : Context) : M bool :=
  fun s => (Ret (done_at ctx (cancelAt s) (clock s)), s).

(** The context is not cancelled at any time of a run from [s]. *)
Definition never_cancelled (ctx : Context) (s : World) : Prop :=
  ctx = CtxTODO \/ cancelAt s = None.

Definition next_dial : M DialResult :=
  fun s => (Ret (hd (DialFail 0) (dials s)),
            mkWorld (clock s) (cancelAt s) (tl (dials s)) (writes s)
                    (rands s) (trace s)).

Definition next_write : M WriteResult :=
  fun s => (Ret (hd (WriteFail 0 0) (writes s)),
            mkWorld (clock s) (cancelAt s) (dials s) (tl (writes s))
                    (rands s) (trace s)).

Definition next_rand : M Z :=
  fun s => (Ret (hd 0 (rands s)),
            mkWorld (clock s) (cancelAt s) (dials s) (writes s)
                    (tl (rands s)) (trace s)).

(** [net.DialTimeout("tcp", addr, 5*time.Second)] *)
Definition net_DialTimeout (addr : string) : M (option Conn * error) :=
  emit (EvDial addr) ;;;
  r <- next_dial ;;
  match r with
  | DialOk c dt => elapse dt ;;; ret (Some c, None)
  | DialFail dt => elapse dt ;;; ret (None, Some (DialError addr))
  end.

(** [conn.Write(b)] on an established connection (after
    [conn.SetDeadline], which leaves no trace of its own). *)
Definition conn_Write (c : Conn) (b : list byte) : M (Z * error) :=
  r <- next_write ;;
  match r with
  | WriteOk dt => emit (EvWrite c b true) ;;; elapse dt ;;; ret (len b, None)
  | WriteFail n dt =>
      emit (EvWrite c b false) ;;; elapse dt ;;; ret (n, Some WriteError)
  end.

(** [rand.Intn(n)]: a value in [[0, n)]; panics when [n <= 0]. *)
Definition rand_Intn (n : Z) : M Z :=
  if n <=? 0 then fail (Panic IntnArgument)
  else r <- next_rand ;; ret (r mod n).

(** [s[i]] with Go's bounds check. *)
Definition index (s : list string) (i : Z) : M string :=
  if (0 <=? i) && (i <? len s)
  then ret (nth (Z.to_nat i) s EmptyString)
  else fail (Panic IndexOutOfRange).

(* ================================================================== *)
(** * The connection manager: [Worker] and its methods *)
(* ================================================================== *)

Module Worker.

Record t : Type := mk {
  id : Z;
  targets : list string;
  target : string;
  targetIdx : Z;
  conn : option Conn;
  lastReconnect : Z
}.

Definition set_target (w : t) (tgt : string) : t :=
  mk (id w) (targets w) tgt (targetIdx w) (conn w) (lastReconnect w).

Definition set_conn (w : t) (c : option Conn) : t :=
  mk (id w) (targets w) (target w) (targetIdx w) c (lastReconnect w).

Definition set_lastReconnect (w : t) (now : Z) : t :=
  mk (id w) (targets w) (target w) (targetIdx w) (conn w) now.

(** [func (w *Worker) Close()] *)
Definition Close (w : t) : M t :=
  match conn w with
  | Some c => emit (EvClose c) ;;; ret (set_conn w None)
  | None => ret w
  end.

(** The next backoff: [delay *= 2; if delay > 30s { delay = 30s }]. *)
Definition nextDelay (delay : Z) : Z :=
  let delay := wrap64 (delay * 2) in
  if delay >? 30 * Second then 30 * Second else delay.

(** The [for] loop of [ConnectWithRetries], entered with the current
    [delay] and [targetIdx]. *)
Fixpoint connectLoop (fuel : nat) (ctx : Context) (delay targetIdx : Z)
         (w : t) : M (t * error) :=
  match fuel with
  | O => fail OutOfFuel
  | S fuel' =>
      tgt <- index (targets w) targetIdx ;;
      let w := set_target w tgt in
      '(c, err) <- net_DialTimeout (target w) ;;
      match err with
      | None =>
          w <- Close w ;;
          now <- time_Now ;;
          ret (set_lastReconnect (set_conn w c) now, None)
      | Some e =>
          done <- ctx_Err ctx ;;
          if done : bool then ret (w, Some e)
          else
            time_Sleep delay ;;;
            let delay := nextDelay delay in
            targetIdx <- rand_Intn (len (targets w)) ;;
            connectLoop fuel' ctx delay targetIdx w
      end
  end.

(** [func (w *Worker) ConnectWithRetries(ctx) error].  ([rand.Seed] only
    reseeds the generator whose outputs the world scripts.) *)
Definition ConnectWithRetries (fuel : nat) (ctx : Context) (w : t)
  : M (t * error) :=
  let delay := 2 * Second in
  let targetIdx := targetIdx w in
  connectLoop fuel ctx delay targetIdx w.

(** [func (w *Worker) Reconnect(ctx) error] *)
Definition Reconnect (fuel : nat) (ctx : Context) (w : t) : M (t * error) :=
  w <- Close w ;;
  ConnectWithRetries fuel ctx w.

(** [func (w *Worker) ConnectIfNeeded(ctx) error] *)
Definition ConnectIfNeeded (fuel : nat) (ctx : Context) (w : t)
  : M (t * error) :=
  match conn w with
  | None => ConnectWithRetries fuel ctx w
  | Some _ =>
      since <- time_Since (lastReconnect w) ;;
      if since >? 5 * Minute then Reconnect fuel ctx w
      else ret (w, None)
  end.

(** [func (w *Worker) Write(b []byte) (int, error)]: the method calls on
    [w.conn] panic when the handle is nil. *)
Definition Write (w : t) (b : list byte) : M (Z * error) :=
  match conn w with
  | None => fail (Panic NilConn)
  | Some c => conn_Write c b
  end.

(** [func (w *Worker) WriteWithRetries(ctx, b) (int, error)] *)
Fixpoint WriteWithRetries (fuel : nat) (ctx : Context) (b : list byte)
         (w : t) : M (t * (Z * error)) :=
  match fuel with
  | O => fail OutOfFuel
  | S fuel' =>
      '(w, _) <- ConnectIfNeeded fuel ctx w ;;
      '(n, err) <- Write w b ;;
      match err with
      | None => ret (w, (n, err))
      | Some _ =>
          w <- Close w ;;
          WriteWithRetries fuel' ctx b w
      end
  end.

End Worker.

(* ================================================================== *)
(** * The worker loop: [transmit] *)
(* ================================================================== *)

(** The variables of [transmit] together with the two shared objects it
    touches: the channel (its capacity and queued buffers, oldest first)
    and the buffer pool. *)
Record Transmit : Type := mkTransmit {
  w : Worker.t;
  exit : bool;
  doneChan : bool;          (* [false] once [doneChan = nil] *)
  idleCount : Z;
  chanCap : Z;
  outputChan : list Buf;
  bufPool : Pool
}.

(** The three cases of the [select]. *)
Inductive SelectCase : Type := CaseTick | CaseDone | CaseRecv.

(** What happens between and at the iterations of the loop: time passes, a
    framer sends a record on the channel, or the [select] takes a case.
    These are the steps of one worker and of the framers; a receive of
    another worker of the pool is a [SharedStep]. *)
Inductive Step : Type :=
| Wait (dt : Z)
| Enqueue (b : Buf)
| Select (c : SelectCase).

(** How an iteration ends: back to the [select], or [return]. *)
Inductive Loop : Type :=
| Continue (st : Transmit)
| Return (st : Transmit).

(** [if b.Cap() <= 1024*1024 { b.Reset(); bufPool.Put(b) }] *)
Definition release (pool : Pool) (b : Buf) : Pool :=
  if Buffer.Cap b <=? 1024 * 1024
  then bufPool_Put pool (Buffer.Reset b)
  else pool.

(** One [select]: the chosen case must be ready ([Blocked] otherwise). *)
Definition select (fuel : nat) (c : SelectCase) (st : Transmit) : M Loop :=
  match c with
  | CaseTick =>
      let idleCount := wrap64 (idleCount st + 1) in
      let st := mkTransmit (w st) (exit st) (doneChan st) idleCount
                           (chanCap st) (outputChan st) (bufPool st) in
      if exit st && (idleCount >=? 5) then
        w' <- Worker.Close (w st) ;;
        ret (Return (mkTransmit w' (exit st) (doneChan st) idleCount
                                (chanCap st) (outputChan st) (bufPool st)))
      else ret (Continue st)
  | CaseDone =>
      done <- ctx_Err CtxPool ;;
      if doneChan st && done then
        ret (Continue (mkTransmit (w st) true false (idleCount st)
                                  (chanCap st) (outputChan st) (bufPool st)))
      else fail Blocked
  | CaseRecv =>
      match outputChan st with
      | [] => fail Blocked
      | b :: queued =>
          let idleCount := 0 in
          '(w', _) <- Worker.WriteWithRetries fuel CtxTODO (Buffer.Bytes b) (w st) ;;
          ret (Continue (mkTransmit w' (exit st) (doneChan st) idleCount
                                    (chanCap st) queued
                                    (release (bufPool st) b)))
      end
  end.

(** The [for] loop of [transmit] along a schedule.  [Continue] at the end
    of the schedule: the worker is still in its loop. *)
Fixpoint transmit_loop (fuel : nat) (sched : list Step) (st : Transmit)
  : M Loop :=
  match sched with
  | [] => ret (Continue st)
  | Wait dt :: sched' => elapse dt ;;; transmit_loop fuel sched' st
  | Enqueue b :: sched' =>
      if len (outputChan st) <? chanCap st then
        transmit_loop fuel sched'
          (mkTransmit (w st) (exit st) (doneChan st) (idleCount st)
                      (chanCap st) (outputChan st ++ [b]) (bufPool st))
      else fail Blocked
  | Select c :: sched' =>
      r <- select fuel c st ;;
      match r with
      | Continue st' => transmit_loop fuel sched' st'
      | Return st' => ret (Return st')
      end
  end.

(** [&Worker{id: worker, targets: targets, targetIdx: target}] *)
Definition newWorker (worker : Z) (targets : list string) (target : Z)
  : Worker.t :=
  Worker.mk worker targets EmptyString target None 0.

(** [func transmit(ctx, worker, outputChan, targets, target)] *)
Definition transmit (fuel : nat) (ctx : Context) (worker : Z)
           (cap : Z) (queued : list Buf) (pool0 : Pool)
           (targets : list string) (target : Z) (sched : list Step)
  : M Loop :=
  let w := newWorker worker targets target in
  '(w, err) <- Worker.ConnectWithRetries fuel ctx w ;;
  match err with
  | Some _ => ret (Return (mkTransmit w false true 0 cap queued pool0))
  | None =>
      let exit := false in
      let doneChan := true in
      let idleCount := 0 in
      transmit_loop fuel sched
        (mkTransmit w exit doneChan idleCount cap queued pool0)
  end.

(* ================================================================== *)
(** * The coordinator: [proxy] and [listenAndProxy] *)
(* ================================================================== *)

(** One result of [l.Accept()]. *)
Inductive AcceptResult : Type :=
| AcceptOk (c : nat)
| AcceptFail (e : GoError).

(** What a run of [proxy] sets up and how it ends. *)
Record ProxyRun : Type := mkProxyRun {
  queueCap : Z;                  (* capacity asked for [outputChan] *)
  workers : list Worker.t;       (* the [Worker] each [transmit] starts with *)
  framers : list nat;            (* connections handed to [receive] *)
  result : Outcome error         (* the returned [error]; [Blocked]: no return *)
}.

(** [make(chan *bytes.Buffer, n)].  The runtime panics ("makechan: size
    out of range") on a negative size and on a size whose buffer of [n]
    pointers is more than the allocator grants.  That bound is the
    runtime's and the platform's (the allocation limit less the channel
    header, over the pointer size: about 2^45 where [int] has 64 bits),
    not the repository's: it is the parameter [maxChan], the largest size
    granted. *)
Definition make_chan (maxChan : N) (n : Z) : option Z :=
  if (n <? 0) || (Z.of_N maxChan <? n) then None else Some n.

(** The goroutine started for index [idx]. *)
Definition spawn (targets : list string) (idx : Z) : Worker.t :=
  let targetIdx := Z.rem idx (len targets) in
  newWorker (idx + 1) targets targetIdx.

(** [for i := 0; i < n; i++ { go func(idx int) {...}(i) }] *)
Definition spawn_all (targets : list string) (n : Z) : list Worker.t :=
  map (fun i => spawn targets (Z.of_nat i)) (seq 0 (Z.to_nat n)).

(** The accept loop: every accepted connection gets a framer; the first
    failure breaks out.  The [err] bound by [conn, err := l.Accept()] is a
    new variable of the loop body.  The flag tells whether the loop was
    left ([false]: still blocked in [Accept] when the script ends). *)
Fixpoint accept_loop (accepts : list AcceptResult) (started : list nat)
  : list nat * bool :=
  match accepts with
  | [] => (started, false)
  | AcceptFail _ :: _ => (started, true)
  | AcceptOk c :: accepts' => accept_loop accepts' (started ++ [c])
  end.

(** [func proxy(ctx, l, targets, connections) error].  [workers_exit]
    tells whether every worker returns, that is whether [wg.Wait()] does.
    When [make] panics nothing has been started.  Memory is not modelled:
    once [make] grants the size, the channel buffer and the goroutines
    are taken to be allocated. *)
Definition proxy (maxChan : N) (accepts : list AcceptResult)
           (workers_exit : bool) (targets : list string) (connections : Z)
  : ProxyRun :=
  let size := wrap64 (wrap64 (connections * len targets) * 2) in
  match make_chan maxChan size with
  | None => mkProxyRun size [] [] (Panic MakeChanSize)
  | Some cap =>
      let ws := spawn_all targets (wrap64 (connections * len targets)) in
      let err : error := None in
      let (started, left) := accept_loop accepts [] in
      mkProxyRun cap ws started
                 (if left && workers_exit then Ret err else Blocked)
  end.

(** The result of [net.Listen("tcp", bind)]. *)
Inductive ListenResult : Type :=
| ListenOk
| ListenFail (e : GoError).

(** [func listenAndProxy(addr, port, targets, connections) error] *)
Definition listenAndProxy (maxChan : N) (listen : ListenResult)
           (accepts : list AcceptResult) (workers_exit : bool)
           (targets : list string) (connections : Z) : Outcome error :=
  match listen with
  | ListenFail e => Ret (Some e)
  | ListenOk =>
      result (proxy maxChan accepts workers_exit targets connections)
  end.

(* ================================================================== *)
(** * Traces, schedules and the readings compared with the code *)
(* ================================================================== *)

(** The durations slept, in order. *)
Fixpoint sleeps (tr : list Event) : list Z :=
  match tr with
  | [] => []
  | EvSleep d :: tr' => d :: sleeps tr'
  | _ :: tr' => sleeps tr'
  end.

(** The addresses dialled, in order. *)
Fixpoint dialled (tr : list Event) : list string :=
  match tr with
  | [] => []
  | EvDial addr :: tr' => addr :: dialled tr'
  | _ :: tr' => dialled tr'
  end.

(** The backoff schedule in the words of the specification: 2s at first,
    doubled at each attempt, capped at 30s. *)
Fixpoint spec_backoff (k : nat) : Z :=
  match k with
  | O => 2 * Second
  | S k' => Z.min (2 * spec_backoff k') (30 * Second)
  end.

(** The target a raw random value selects among [ts]. *)
Definition pick (ts : list string) (r : Z) : string :=
  nth (Z.to_nat (r mod len ts)) ts EmptyString.

(** All dials of the script succeed. *)
Definition dials_succeed (s : World) : Prop :=
  Forall (fun r => exists c dt, r = DialOk c dt) (dials s).

(** Whether the [select] has taken the done case, along a schedule entered
    with [exit = exit0]. *)
Fixpoint done_seen (sched : list Step) (exit0 : bool) : bool :=
  match sched with
  | [] => exit0
  | Select CaseDone :: sched' => done_seen sched' true
  | _ :: sched' => done_seen sched' exit0
  end.

(** The ticks taken since the last record was taken (or since the start,
    where the count was [n0]). *)
Fixpoint idle_ticks (sched : list Step) (n0 : Z) : Z :=
  match sched with
  | [] => n0
  | Select CaseTick :: sched' => idle_ticks sched' (n0 + 1)
  | Select CaseRecv :: sched' => idle_ticks sched' 0
  | _ :: sched' => idle_ticks sched' n0
  end.

(** The events of closing the connection a worker holds, if any. *)
Definition closing (o : option Conn) : list Event :=
  match o with
  | Some c => [EvClose c]
  | None => []
  end.

(** The drain rule read as "a worker that has seen the cancellation and
    finds nothing queued leaves at once": no such worker is still in its
    loop. *)
Definition exits_at_once_when_idle : Prop :=
  forall fuel sched st s st' s',
    transmit_loop fuel sched st s = (Ret (Continue st'), s') ->
    exit st' = true -> outputChan st' = [] -> False.

(** The release rule read with a strict bound: pooled exactly when the
    capacity is below 1 MiB. *)
Definition pooled_iff_below_threshold : Prop :=
  forall pool b,
    release pool b = bufPool_Put pool (Buffer.Reset b)
    <-> Buffer.Cap b < 1024 * 1024.

(** A worker connected to its primary target, in its loop, with one
    record queued; and a world whose pool context was cancelled at time 5. *)
Definition drain_worker : Transmit :=
  mkTransmit (Worker.mk 1 ["a:1"%string] "a:1"%string 0 (Some 3%nat) 0)
             false true 0 2 [Buffer.mk [x61; x0a] 32768] [].

Definition drain_world : World :=
  mkWorld 10 (Some 5) [] [WriteOk 0] [] [].

(* ================================================================== *)
(** * Further definitions: the rest of [Worker], and what later
      statements observe *)
(* ================================================================== *)

(** [func (w Worker) isConnectedToPrimary() bool]: compares the current
    target with [w.targets[w.targetIdx]], with Go's bounds check. *)
Definition isConnectedToPrimary (w : Worker.t) : Outcome bool :=
  if (0 <=? Worker.targetIdx w) && (Worker.targetIdx w <? len (Worker.targets w))
  then Ret (String.eqb (Worker.target w)
                       (nth (Z.to_nat (Worker.targetIdx w)) (Worker.targets w)
                            EmptyString))
  else Panic IndexOutOfRange.

(** Two framers that hold the same bytes, whatever buffers carry them. *)
Definition same_contents (f g : Framer) : Prop :=
  residual f = residual g /\ records f = records g.

(** The write attempts of a trace, in order: the bytes handed to
    [conn.Write] and whether the write succeeded. *)
Fixpoint attempts (tr : list Event) : list (list byte * bool) :=
  match tr with
  | [] => []
  | EvWrite _ b ok :: tr' => (b, ok) :: attempts tr'
  | _ :: tr' => attempts tr'
  end.

(** The payloads of the successful writes of a trace, in order. *)
Fixpoint delivered (tr : list Event) : list (list byte) :=
  match tr with
  | [] => []
  | EvWrite _ b true :: tr' => b :: delivered tr'
  | _ :: tr' => delivered tr'
  end.

(** The connections closed along a trace, in order. *)
Fixpoint closed (tr : list Event) : list Conn :=
  match tr with
  | [] => []
  | EvClose c :: tr' => c :: closed tr'
  | _ :: tr' => closed tr'
  end.

(** An outcome that is a panic, of whatever kind. *)
Definition is_panic {A : Type} (o : Outcome A) : bool :=
  match o with
  | Panic _ => true
  | _ => false
  end.

(** The primary target index of a worker is within its target list. *)
Definition valid_primary (w : Worker.t) : Prop :=
  0 <= Worker.targetIdx w < len (Worker.targets w).

(** The state a loop result carries. *)
Definition loop_state (r : Loop) : Transmit :=
  match r with
  | Continue st => st
  | Return st => st
  end.

(** The buffers a schedule sends on the channel, in order. *)
Fixpoint enqueued (sched : list Step) : list Buf :=
  match sched with
  | [] => []
  | Enqueue b :: sched' => b :: enqueued sched'
  | _ :: sched' => enqueued sched'
  end.

(** The number of receive cases a schedule takes. *)
Fixpoint receives (sched : list Step) : nat :=
  match sched with
  | [] => O
  | Select CaseRecv :: sched' => S (receives sched')
  | _ :: sched' => receives sched'
  end.

(** The number of done cases a schedule takes. *)
Fixpoint dones (sched : list Step) : nat :=
  match sched with
  | [] => O
  | Select CaseDone :: sched' => S (dones sched')
  | _ :: sched' => dones sched'
  end.

(** Every pooled buffer is small enough to have been released. *)
Definition pool_small (pool : Pool) : Prop :=
  Forall (fun b => Buffer.Cap b <= 1024 * 1024) pool.

(** The workers whose primary target index is [j]. *)
Definition primaries (j : Z) (ws : list Worker.t) : list Worker.t :=
  filter (fun w => Worker.targetIdx w =? j) ws.

(** What a worker is, as opposed to what it is connected to. *)
Definition same_identity (w w' : Worker.t) : Prop :=
  Worker.id w' = Worker.id w /\
  Worker.targets w' = Worker.targets w /\
  Worker.targetIdx w' = Worker.targetIdx w.

(** The connection a worker holds, as a list. *)
Definition held (o : option Conn) : list Conn :=
  match o with
  | Some c => [c]
  | None => []
  end.

(** The connections a run of dial results establishes, in order. *)
Fixpoint conns_of (ds : list DialResult) : list Conn :=
  match ds with
  | [] => []
  | DialOk c _ :: ds' => c :: conns_of ds'
  | DialFail _ :: ds' => conns_of ds'
  end.

(** The loop variables after a step that sends [b] on the channel. *)
Definition after_enqueue (st : Transmit) (b : Buf) : Transmit :=
  mkTransmit (w st) (exit st) (doneChan st) (idleCount st) (chanCap st)
             (outputChan st ++ [b]) (bufPool st).

(** The world after [dt] has passed. *)
Definition after_wait (s : World) (dt : Z) : World :=
  mkWorld (clock s + Z.max 0 dt) (cancelAt s) (dials s) (writes s) (rands s)
          (trace s).

(** The size [proxy] asks of [make]: [connections*len(targets)*2], in
    [int]. *)
Definition chan_size (targets : list string) (connections : Z) : Z :=
  wrap64 (wrap64 (connections * len targets) * 2).

(** An outcome that ends the process: a non-nil error handed to [main],
    which logs it as fatal, or a panic. *)
Definition aborts (o : Outcome error) : bool :=
  match o with
  | Ret (Some _) => true
  | Panic _ => true
  | _ => false
  end.


(** Failure to bind read as the only thing that ends the process from
    [listenAndProxy]. *)
Definition bind_failure_is_the_only_abort : Prop :=
  forall maxChan listen accepts workers_exit targets connections,
    aborts (listenAndProxy maxChan listen accepts workers_exit targets
                           connections) = true ->
    exists e, listen = ListenFail e.

(** The loop of one worker among the others of the pool, which receive
    from the same channel: a step of its own, or another worker taking the
    oldest queued record. *)
Inductive SharedStep : Type :=
| Own (x : Step)
| OtherRecv.

Fixpoint transmit_shared (fuel : nat) (sched : list SharedStep)
         (st : Transmit) : M Loop :=
  match sched with
  | [] => ret (Continue st)
  | OtherRecv :: sched' =>
      match outputChan st with
      | [] => fail Blocked
      | _ :: queued =>
          transmit_shared fuel sched'
            (mkTransmit (w st) (exit st) (doneChan st) (idleCount st)
                        (chanCap st) queued (bufPool st))
      end
  | Own x :: sched' =>
      r <- transmit_loop fuel [x] st ;;
      match r with
      | Continue st' => transmit_shared fuel sched' st'
      | Return st' => ret (Return st')
      end
  end.

(** The worker's own steps of a shared schedule, and the number of
    records the other workers take. *)
Fixpoint own_steps (sched : list SharedStep) : list Step :=
  match sched with
  | [] => []
  | Own x :: sched' => x :: own_steps sched'
  | OtherRecv :: sched' => own_steps sched'
  end.

Fixpoint others (sched : list SharedStep) : nat :=
  match sched with
  | [] => O
  | OtherRecv :: sched' => S (others sched')
  | Own _ :: sched' => others sched'
  end.

(** [Subseq l1 l2]: [l1] is [l2] with some elements left out, in the same
    order. *)
Inductive Subseq {A : Type} : list A -> list A -> Prop :=
| Subseq_nil : Subseq [] []
| Subseq_take (x : A) (l1 l2 : list A) :
    Subseq l1 l2 -> Subseq (x :: l1) (x :: l2)
| Subseq_skip (x : A) (l1 l2 : list A) :
    Subseq l1 l2 -> Subseq l1 (x :: l2).

(* ================================================================== *)
(** * Properties of the framer *)
(* ================================================================== *)

Section LastIndex.

Variable c : byte.

Lemma lastIndexFrom_absent (s : list byte) :
  forall i acc, ~ In c s -> lastIndexFrom s c i acc = acc.
Proof.
  induction s as [|x s IH]; intros i acc Hn; simpl; [reflexivity|].
  destruct (Byte.eqb x c) eqn:E.
  - apply Byte.byte_dec_bl in E. exfalso. apply Hn. left. exact E.
  - apply IH. intro H. apply Hn. right. exact H.
Qed.

Lemma lastIndexFrom_split (pre post : list byte) :
  forall i acc, ~ In c post ->
    lastIndexFrom (pre ++ c :: post) c i acc = i + len pre.
Proof.
  unfold len.
  induction pre as [|x pre IH]; intros i acc Hn; simpl app.
  - simpl. rewrite (Byte.byte_dec_lb (eq_refl c)).
    rewrite lastIndexFrom_absent by assumption. lia.
  - cbn [lastIndexFrom]. rewrite IH by assumption.
    cbn [List.length]. lia.
Qed.

(** A list that contains [c] splits at the last [c]. *)
Lemma last_occurrence (s : list byte) :
  In c s -> exists pre post, s = pre ++ c :: post /\ ~ In c post.
Proof.
  induction s as [|x s IH]; intros Hin; [destruct Hin|].
  destruct (in_dec Byte.byte_eq_dec c s) as [Hs|Hs].
  - destruct (IH Hs) as (pre & post & -> & Hp).
    exists (x :: pre), post. split; [reflexivity|assumption].
  - destruct Hin as [->|Hin]; [|contradiction].
    exists [], s. split; [reflexivity|assumption].
Qed.

Lemma LastIndexByte_absent (s : list byte) :
  ~ In c s -> LastIndexByte s c = -1.
Proof. apply lastIndexFrom_absent. Qed.

Lemma LastIndexByte_split (pre post : list byte) :
  ~ In c post -> LastIndexByte (pre ++ c :: post) c = len pre.
Proof.
  intros H. unfold LastIndexByte.
  rewrite lastIndexFrom_split by assumption. lia.
Qed.

End LastIndex.

Lemma slice_prefix (pre post : list byte) (x : byte) :
  slice (pre ++ x :: post) 0 (len pre + 1) = pre ++ [x].
Proof.
  unfold slice, len. simpl skipn.
  replace (Z.to_nat (Z.of_nat (List.length pre) + 1 - 0))
    with (List.length pre + 1)%nat by lia.
  replace (pre ++ x :: post) with ((pre ++ [x]) ++ post)
    by (rewrite <- app_assoc; reflexivity).
  rewrite firstn_app.
  replace (List.length pre + 1 - List.length (pre ++ [x]))%nat with 0%nat
    by (rewrite length_app; simpl; lia).
  rewrite firstn_all2 by (rewrite length_app; simpl; lia).
  simpl. apply app_nil_r.
Qed.

Lemma slice_suffix (pre post : list byte) (x : byte) :
  slice (pre ++ x :: post) (len pre + 1) (len (pre ++ x :: post)) = post.
Proof.
  unfold slice, len.
  replace (Z.to_nat (Z.of_nat (List.length pre) + 1))
    with (List.length (pre ++ [x])) by (rewrite length_app; simpl; lia).
  replace (pre ++ x :: post) with ((pre ++ [x]) ++ post) at 2
    by (rewrite <- app_assoc; reflexivity).
  rewrite skipn_app, skipn_all, Nat.sub_diag. simpl.
  apply firstn_all2. rewrite length_app. simpl. lia.
Qed.

(** A window without newline is appended whole. *)
Lemma frame_no_newline (f : Framer) (window : list byte) :
  ~ In newline window ->
  frame f window =
    mkFramer (Buffer.Write (stringbuf f) window) (pool f) (out f).
Proof.
  intros H. unfold frame. rewrite LastIndexByte_absent by assumption.
  reflexivity.
Qed.

(** A window whose last newline sits between [pre] and [post]. *)
Lemma frame_newline (f : Framer) (pre post : list byte) :
  ~ In newline post ->
  frame f (pre ++ newline :: post) =
    mkFramer (Buffer.Write (fst (bufPool_Get (pool f))) post)
             (snd (bufPool_Get (pool f)))
             (out f ++ [Buffer.Write (stringbuf f) (pre ++ [newline])]).
Proof.
  intros H. unfold frame. rewrite LastIndexByte_split by assumption.
  assert (E : (len pre =? -1) = false) by (apply Z.eqb_neq; unfold len; lia).
  rewrite E. simpl negb. cbv iota.
  rewrite slice_prefix, slice_suffix.
  destruct (bufPool_Get (pool f)); reflexivity.
Qed.

Lemma bufPool_Get_ok (p : Pool) :
  pool_ok p ->
  Buffer.data (fst (bufPool_Get p)) = [] /\ pool_ok (snd (bufPool_Get p)).
Proof.
  intros H. destruct p as [|b p]; simpl.
  - split; [reflexivity|constructor].
  - inversion H; subst. split; assumption.
Qed.

Lemma records_snoc (o : list Buf) (b : Buf) :
  map Buffer.Bytes (o ++ [b]) = map Buffer.Bytes o ++ [Buffer.data b].
Proof. rewrite map_app. reflexivity. Qed.

(** The loop invariant behind the byte-for-byte property: the records
    sent so far followed by the residual are the bytes consumed so far. *)
Lemma frame_preserves (f : Framer) (window : list byte) :
  pool_ok (pool f) ->
  pool_ok (pool (frame f window)) /\
  concat (records (frame f window)) ++ Buffer.data (stringbuf (frame f window))
  = (concat (records f) ++ Buffer.data (stringbuf f)) ++ window.
Proof.
  intros Hp.
  destruct (in_dec Byte.byte_eq_dec newline window) as [Hin|Hout].
  - destruct (last_occurrence newline window Hin) as (pre & post & -> & Hn).
    rewrite frame_newline by assumption.
    destruct (bufPool_Get_ok (pool f) Hp) as [Hfresh Hrest].
    unfold records. simpl. rewrite Hfresh, records_snoc, concat_app. simpl.
    split; [assumption|].
    rewrite !app_nil_r, <- !app_assoc. reflexivity.
  - rewrite frame_no_newline by assumption. unfold records. simpl.
    split; [assumption|]. rewrite <- app_assoc. reflexivity.
Qed.

Lemma receive_loop_clean (windows : list (list byte)) :
  forall f, pool_ok (pool f) ->
    exists g, receive_loop (clean_close windows) f = Some g /\
      pool_ok (pool g) /\
      concat (records g) ++ Buffer.data (stringbuf g)
      = (concat (records f) ++ Buffer.data (stringbuf f)) ++ concat windows.
Proof.
  induction windows as [|wd windows IH]; intros f Hp.
  - exists f. simpl. rewrite app_nil_r. auto.
  - destruct (frame_preserves f wd Hp) as [Hp' Hc].
    destruct (IH (frame f wd) Hp') as (g & Hg & Hpg & Hcg).
    exists g. simpl. split; [exact Hg|]. split; [exact Hpg|].
    rewrite Hcg, Hc, <- !app_assoc. reflexivity.
Qed.

Lemma bytes_read_clean (windows : list (list byte)) :
  bytes_read (clean_close windows) = concat windows.
Proof.
  unfold clean_close.
  induction windows as [|wd windows IH]; simpl; [reflexivity|].
  rewrite IH. reflexivity.
Qed.

Lemma flush_records (g : Framer) :
  concat (records (flush g)) = concat (records g) ++ Buffer.data (stringbuf g).
Proof.
  unfold flush, Buffer.Len, len, records.
  destruct (Buffer.data (stringbuf g)) as [|x l] eqn:E; simpl.
  - rewrite app_nil_r. reflexivity.
  - rewrite records_snoc, concat_app, E. simpl. rewrite app_nil_r. reflexivity.
Qed.

(** C1.  For an inbound stream that ends in a clean close, [receive]
    returns, and the concatenation of the records it enqueued is the
    concatenation of the windows it read: the same bytes in the same
    order. *)
Theorem receive_preserves_stream (windows : list (list byte)) (pool0 : Pool) :
  pool_ok pool0 ->
  exists f,
    receive (clean_close windows) pool0 = Some f /\
    concat (records f) = bytes_read (clean_close windows) /\
    bytes_read (clean_close windows) = concat windows.
Proof.
  intros Hp.
  destruct (bufPool_Get_ok pool0 Hp) as [Hsb Hrest].
  assert (Hstart : pool_ok (pool (receive_start pool0)) /\
                   Buffer.data (stringbuf (receive_start pool0)) = [] /\
                   records (receive_start pool0) = []).
  { unfold receive_start. destruct (bufPool_Get pool0); simpl in *. auto. }
  destruct Hstart as (Hp0 & Hd0 & Hr0).
  destruct (receive_loop_clean windows _ Hp0) as (g & Hg & _ & Hc).
  exists (flush g). unfold receive. rewrite Hg. simpl.
  split; [reflexivity|]. rewrite bytes_read_clean. split; [|reflexivity].
  rewrite flush_records, Hc, Hr0, Hd0. reflexivity.
Qed.

Lemma receive_preserves_stream_witness :
  exists f,
    receive (clean_close [[x61; x0a; x62]; [x63; x0a]; [x64]]) [] = Some f /\
    concat (records f) = bytes_read (clean_close [[x61; x0a; x62]; [x63; x0a]; [x64]]) /\
    bytes_read (clean_close [[x61; x0a; x62]; [x63; x0a]; [x64]])
    = concat [[x61; x0a; x62]; [x63; x0a]; [x64]].
Proof.
  apply (receive_preserves_stream [[x61; x0a; x62]; [x63; x0a]; [x64]] []).
  constructor.
Defined.

(** C2.  A window that contains a newline is cut at its last newline: the
    bytes up to and including it are appended to the accumulation buffer,
    that buffer is enqueued as one record, and the new accumulation buffer
    holds exactly the bytes after the newline.  A window without newline
    is appended whole and nothing is enqueued.  On the windows
    a,LF,b,LF,c and then d,LF, starting from an empty residual, the
    records are a,LF,b,LF and c,d,LF. *)
Theorem frame_cuts_at_last_newline :
  (forall (f : Framer) (window : list byte),
      pool_ok (pool f) ->
      (In newline window ->
       exists pre post,
         window = pre ++ newline :: post /\ ~ In newline post /\
         out (frame f window)
         = out f ++ [Buffer.Write (stringbuf f) (pre ++ [newline])] /\
         records (frame f window)
         = records f ++ [residual f ++ pre ++ [newline]] /\
         residual (frame f window) = post) /\
      (~ In newline window ->
       out (frame f window) = out f /\
       residual (frame f window) = residual f ++ window)) /\
  (let f0 := receive_start [] in
   let f1 := frame f0 [x61; x0a; x62; x0a; x63] in
   let f2 := frame f1 [x64; x0a] in
   residual f0 = [] /\
   records f1 = [[x61; x0a; x62; x0a]] /\ residual f1 = [x63] /\
   records f2 = [[x61; x0a; x62; x0a]; [x63; x64; x0a]] /\ residual f2 = []).
Proof.
  split.
  - intros f window Hp. split.
    + intros Hin.
      destruct (last_occurrence newline window Hin) as (pre & post & -> & Hn).
      exists pre, post. rewrite frame_newline by assumption.
      destruct (bufPool_Get_ok (pool f) Hp) as [Hfresh _].
      unfold records, residual, Buffer.Bytes. simpl.
      rewrite records_snoc, Hfresh. simpl. auto.
    + intros Hn. rewrite frame_no_newline by assumption.
      unfold residual. simpl. auto.
  - vm_compute. repeat split; reflexivity.
Qed.

Lemma frame_cuts_at_last_newline_witness :
  pool_ok [Buffer.mk [] 64] /\
  (~ In newline [x64; x65] ->
   out (frame (mkFramer (Buffer.mk [x63] 64) [Buffer.mk [] 64] []) [x64; x65])
   = [] /\
   residual (frame (mkFramer (Buffer.mk [x63] 64) [Buffer.mk [] 64] [])
                   [x64; x65])
   = [x63] ++ [x64; x65]).
Proof.
  split; [repeat constructor|].
  apply (proj1 frame_cuts_at_last_newline
               (mkFramer (Buffer.mk [x63] 64) [Buffer.mk [] 64] [])
               [x64; x65]).
  repeat constructor.
Defined.

Lemma frame_records (f : Framer) (window : list byte) :
  records (frame f window) = records f \/
  exists r, ends_with_newline r /\ records (frame f window) = records f ++ [r].
Proof.
  destruct (in_dec Byte.byte_eq_dec newline window) as [Hin|Hout].
  - right.
    destruct (last_occurrence newline window Hin) as (pre & post & -> & Hn).
    rewrite frame_newline by assumption.
    exists (residual f ++ pre ++ [newline]). split.
    + exists (residual f ++ pre). rewrite <- app_assoc. reflexivity.
    + unfold records. simpl. rewrite records_snoc. reflexivity.
  - left. rewrite frame_no_newline by assumption. reflexivity.
Qed.

Lemma receive_loop_records (conn : InConn) :
  forall f g, receive_loop conn f = Some g ->
    Forall ends_with_newline (records f) ->
    Forall ends_with_newline (records g).
Proof.
  induction conn as [|r conn IH]; intros f g Hrun Hf; [discriminate|].
  destruct r as [window|window]; simpl in Hrun.
  - apply (IH _ _ Hrun).
    destruct (frame_records f window) as [->|(r & Hr & ->)]; [assumption|].
    apply Forall_app. split; [assumption|]. constructor; [assumption|constructor].
  - inversion Hrun; subst. assumption.
Qed.

Lemma ends_with_newline_nonempty (r : list byte) :
  ends_with_newline r -> r <> [].
Proof. intros [pre ->] H. destruct pre; discriminate. Qed.

(** C6.  [receive] enqueues no empty record; every record enqueued by the
    read loop ends with a newline; and after the loop the residual buffer
    is enqueued as one more record exactly when it is not empty, whether
    or not it ends with a newline. *)
Theorem receive_records_shape (conn : InConn) (pool0 : Pool) (f : Framer) :
  receive conn pool0 = Some f ->
  exists g,
    receive_loop conn (receive_start pool0) = Some g /\
    Forall ends_with_newline (records g) /\
    (residual g <> [] -> out f = out g ++ [stringbuf g]) /\
    (residual g = [] -> out f = out g) /\
    Forall (fun r => r <> []) (records f).
Proof.
  unfold receive. intros H.
  destruct (receive_loop conn (receive_start pool0)) as [g|] eqn:Hg;
    [|discriminate].
  simpl in H. inversion H; subst f. clear H.
  assert (Hnl : Forall ends_with_newline (records g)).
  { apply (receive_loop_records conn _ _ Hg).
    unfold receive_start. destruct (bufPool_Get pool0). constructor. }
  assert (Hne : Forall (fun r => r <> []) (records g)).
  { eapply Forall_impl; [|exact Hnl]. apply ends_with_newline_nonempty. }
  exists g. split; [reflexivity|]. split; [exact Hnl|].
  unfold flush, residual, Buffer.Bytes, Buffer.Len, len.
  destruct (Buffer.data (stringbuf g)) as [|x l] eqn:E; simpl.
  - repeat split; auto. intros Hc. congruence.
  - repeat split; auto; try congruence.
    unfold records. simpl. rewrite records_snoc.
    apply Forall_app. split; [exact Hne|].
    constructor; [rewrite E; discriminate|constructor].
Qed.

Lemma receive_records_shape_witness :
  exists g,
    receive_loop [ReadOk [x61; x0a; x62]; ReadErr []] (receive_start [])
    = Some g /\
    Forall ends_with_newline (records g) /\
    (residual g <> [] ->
     out (mkFramer (Buffer.mk [x62] 32768) [] 
                   [Buffer.mk [x61; x0a] 32768; Buffer.mk [x62] 32768])
     = out g ++ [stringbuf g]) /\
    (residual g = [] ->
     out (mkFramer (Buffer.mk [x62] 32768) []
                   [Buffer.mk [x61; x0a] 32768; Buffer.mk [x62] 32768])
     = out g) /\
    Forall (fun r => r <> [])
           (records (mkFramer (Buffer.mk [x62] 32768) []
                   [Buffer.mk [x61; x0a] 32768; Buffer.mk [x62] 32768])).
Proof.
  apply (receive_records_shape [ReadOk [x61; x0a; x62]; ReadErr []] []).
  vm_compute. reflexivity.
Defined.

(* ================================================================== *)
(** * Properties of connect-with-retry *)
(* ================================================================== *)

Lemma wrap64_small (x : Z) : - 2 ^ 63 <= x < 2 ^ 63 -> wrap64 x = x.
Proof.
  intros H. unfold wrap64. rewrite Z.mod_small; lia.
Qed.

Lemma spec_backoff_range (k : nat) :
  2 * Second <= spec_backoff k <= 30 * Second.
Proof.
  induction k as [|k IH]; cbn [spec_backoff]; unfold Second in *; lia.
Qed.

(** The code's update of [delay] follows the schedule of the
    specification, and the doubling never wraps around. *)
Lemma nextDelay_spec (k : nat) :
  Worker.nextDelay (spec_backoff k) = spec_backoff (S k).
Proof.
  pose proof (spec_backoff_range k) as H. unfold Second in H.
  unfold Worker.nextDelay. rewrite wrap64_small by (unfold Second; lia).
  cbn [spec_backoff]. unfold Second in *.
  destruct (spec_backoff k * 2 >? 30 * 1000000000) eqn:E; lia.
Qed.

Lemma spec_backoff_capped (k : nat) :
  (4 <= k)%nat -> spec_backoff k = 30 * Second.
Proof.
  intros H. do 4 (destruct k as [|k]; [lia|]). clear H.
  induction k as [|k IH]; [reflexivity|].
  change (spec_backoff (S (S (S (S (S k))))))
    with (Z.min (2 * spec_backoff (S (S (S (S k))))) (30 * Second)).
  rewrite IH. unfold Second. lia.
Qed.

Lemma sleeps_app (a b : list Event) : sleeps (a ++ b) = sleeps a ++ sleeps b.
Proof.
  induction a as [|e a IH]; simpl; [reflexivity|].
  destruct e; simpl; rewrite IH; reflexivity.
Qed.

Lemma dialled_app (a b : list Event) :
  dialled (a ++ b) = dialled a ++ dialled b.
Proof.
  induction a as [|e a IH]; simpl; [reflexivity|].
  destruct e; simpl; rewrite IH; reflexivity.
Qed.

Lemma in_range (ts : list string) (i : Z) :
  0 <= i < len ts -> (0 <=? i) && (i <? len ts) = true.
Proof. intros H. apply andb_true_intro. split; lia. Qed.

Lemma never_cancelled_done (ctx : Context) (s : World) (now : Z) :
  never_cancelled ctx s -> done_at ctx (cancelAt s) now = false.
Proof.
  intros [->|H]; [reflexivity|]. rewrite H. destruct ctx; reflexivity.
Qed.

(** Unfolds the primitives of the monad in the goal. *)
Ltac run :=
  unfold bind, ret, fail, net_DialTimeout, conn_Write, time_Sleep, time_Now,
    time_Since, emit, elapse, next_dial, next_write, next_rand;
  cbn -[hd tl Worker.nextDelay len Z.mul Z.add Z.max Z.sub Z.gtb wrap64
        ctx_Err rand_Intn Worker.connectLoop Worker.WriteWithRetries].

(** One iteration whose dial succeeds. *)
Lemma connectLoop_success (fuel : nat) (ctx : Context) (delay idx : Z)
      (w : Worker.t) (s : World) (c : Conn) (dt : Z) :
  0 <= idx < len (Worker.targets w) ->
  hd (DialFail 0) (dials s) = DialOk c dt ->
  Worker.connectLoop (S fuel) ctx delay idx w s =
  let tgt := nth (Z.to_nat idx) (Worker.targets w) EmptyString in
  let closing := match Worker.conn w with
                 | Some c0 => [EvClose c0]
                 | None => []
                 end in
  (Ret (Worker.mk (Worker.id w) (Worker.targets w) tgt (Worker.targetIdx w)
                  (Some c) (clock s + Z.max 0 dt), None),
   mkWorld (clock s + Z.max 0 dt) (cancelAt s) (tl (dials s)) (writes s)
           (rands s) ((trace s ++ [EvDial tgt]) ++ closing)).
Proof.
  intros Hi Hd. cbn [Worker.connectLoop]. unfold index.
  rewrite (in_range _ _ Hi). run. rewrite Hd. unfold Worker.Close. run.
  destruct (Worker.conn w); run; rewrite ?app_nil_r; reflexivity.
Qed.

(** An index out of range panics before anything else happens. *)
Lemma connectLoop_oob (fuel : nat) (ctx : Context) (delay idx : Z)
      (w : Worker.t) (s : World) :
  (0 <=? idx) && (idx <? len (Worker.targets w)) = false ->
  Worker.connectLoop (S fuel) ctx delay idx w s = (Panic IndexOutOfRange, s).
Proof.
  intros Hi. cbn [Worker.connectLoop]. unfold index. rewrite Hi. reflexivity.
Qed.

(** One iteration whose dial fails after the context was cancelled. *)
Lemma connectLoop_cancelled (fuel : nat) (ctx : Context) (delay idx : Z)
      (w : Worker.t) (s : World) (dt : Z) :
  0 <= idx < len (Worker.targets w) ->
  hd (DialFail 0) (dials s) = DialFail dt ->
  done_at ctx (cancelAt s) (clock s + Z.max 0 dt) = true ->
  Worker.connectLoop (S fuel) ctx delay idx w s =
  let tgt := nth (Z.to_nat idx) (Worker.targets w) EmptyString in
  (Ret (Worker.set_target w tgt, Some (DialError tgt)),
   mkWorld (clock s + Z.max 0 dt) (cancelAt s) (tl (dials s)) (writes s)
           (rands s) (trace s ++ [EvDial tgt])).
Proof.
  intros Hi Hd Hc. cbn [Worker.connectLoop]. unfold index.
  rewrite (in_range _ _ Hi). run. rewrite Hd. run.
  unfold ctx_Err. run. rewrite Hc. reflexivity.
Qed.

(** One iteration whose dial fails while the context is live: sleep,
    double the delay, draw the next target, go round again. *)
Lemma connectLoop_retry (fuel : nat) (ctx : Context) (delay idx : Z)
      (w : Worker.t) (s : World) (dt : Z) :
  0 <= idx < len (Worker.targets w) ->
  hd (DialFail 0) (dials s) = DialFail dt ->
  done_at ctx (cancelAt s) (clock s + Z.max 0 dt) = false ->
  Worker.connectLoop (S fuel) ctx delay idx w s =
  let tgt := nth (Z.to_nat idx) (Worker.targets w) EmptyString in
  Worker.connectLoop fuel ctx (Worker.nextDelay delay)
    (hd 0 (rands s) mod len (Worker.targets w))
    (Worker.set_target w tgt)
    (mkWorld (clock s + Z.max 0 dt + Z.max 0 delay) (cancelAt s)
             (tl (dials s)) (writes s) (tl (rands s))
             ((trace s ++ [EvDial tgt]) ++ [EvSleep delay])).
Proof.
  intros Hi Hd Hc. cbn [Worker.connectLoop]. unfold index.
  rewrite (in_range _ _ Hi). run. rewrite Hd. run.
  unfold ctx_Err. run. rewrite Hc. unfold rand_Intn.
  assert (E : (len (Worker.targets w) <=? 0) = false) by lia.
  rewrite E. run. reflexivity.
Qed.

(** The four ways an iteration can go. *)
Ltac connect_cases ctx idx w s :=
  let Hi := fresh "Hi" in
  let Hd := fresh "Hd" in
  let Hc := fresh "Hc" in
  destruct ((0 <=? idx) && (idx <? len (Worker.targets w))) eqn:Hi;
  [ apply andb_prop in Hi;
    assert (0 <= idx < len (Worker.targets w)) by lia; clear Hi;
    destruct (hd (DialFail 0) (dials s)) as [?c ?dt|?dt] eqn:Hd;
    [ erewrite connectLoop_success by eassumption
    | destruct (done_at ctx (cancelAt s) (clock s + Z.max 0 dt)) eqn:Hc;
      [ erewrite connectLoop_cancelled by eassumption
      | erewrite connectLoop_retry by eassumption ] ]
  | rewrite connectLoop_oob by assumption ].

(** Whatever happens, the sleeps of a run started at step [k] of the
    schedule are the next steps of the schedule, in order. *)
Lemma connectLoop_sleeps (fuel : nat) :
  forall ctx k idx w s,
    exists n,
      sleeps (trace (snd (Worker.connectLoop fuel ctx (spec_backoff k) idx w s)))
      = sleeps (trace s) ++ map spec_backoff (seq k n).
Proof.
  induction fuel as [|fuel IH]; intros ctx k idx w s.
  - exists 0%nat. simpl. rewrite app_nil_r. reflexivity.
  - connect_cases ctx idx w s.
    + exists 0%nat. cbn. rewrite !sleeps_app. cbn.
      destruct (Worker.conn w); cbn; rewrite !app_nil_r; reflexivity.
    + exists 0%nat. cbn. rewrite !sleeps_app. cbn. reflexivity.
    + cbv zeta. rewrite nextDelay_spec.
      match goal with |- context [Worker.connectLoop fuel ctx _ ?i ?w' ?s'] =>
        destruct (IH ctx (S k) i w' s') as [n Hn] end.
      exists (S n). rewrite Hn. cbn [trace]. rewrite !sleeps_app. cbn.
      rewrite app_nil_r, <- app_assoc. reflexivity.
    + exists 0%nat. cbn. rewrite app_nil_r. reflexivity.
Qed.

Lemma sleeps_closing (o : option Conn) :
  sleeps match o with Some c0 => [EvClose c0] | None => [] end = [].
Proof. destruct o; reflexivity. Qed.

Lemma dialled_closing (o : option Conn) :
  dialled match o with Some c0 => [EvClose c0] | None => [] end = [].
Proof. destruct o; reflexivity. Qed.

(** A run in which the dials fail [length dts] times and then succeed,
    with a live context: it returns the new connection, has slept the
    first steps of the schedule and has dialled the target it started
    with and then the targets the random source picked. *)
Lemma connectLoop_failover (dts : list Z) :
  forall rs fuel ctx k idx w s c dt drest rrest,
    length rs = length dts ->
    (length dts < fuel)%nat ->
    0 <= idx < len (Worker.targets w) ->
    never_cancelled ctx s ->
    dials s = map DialFail dts ++ DialOk c dt :: drest ->
    rands s = rs ++ rrest ->
    exists w' s',
      Worker.connectLoop fuel ctx (spec_backoff k) idx w s
      = (Ret (w', None), s') /\
      Worker.conn w' = Some c /\
      Worker.lastReconnect w' = clock s' /\
      Worker.targets w' = Worker.targets w /\
      Worker.targetIdx w' = Worker.targetIdx w /\
      sleeps (trace s')
      = sleeps (trace s) ++ map spec_backoff (seq k (length dts)) /\
      dialled (trace s')
      = dialled (trace s)
        ++ nth (Z.to_nat idx) (Worker.targets w) EmptyString
           :: map (pick (Worker.targets w)) rs.
Proof.
  induction dts as [|d dts IH];
    intros rs fuel ctx k idx w s c dt drest rrest Hlen Hfuel Hi Hc Hd Hr;
    (destruct fuel as [|fuel]; [simpl in Hfuel; lia|]).
  - destruct rs; [|discriminate].
    rewrite (connectLoop_success fuel ctx _ idx w s c dt Hi)
      by (rewrite Hd; reflexivity).
    eexists. eexists. split; [reflexivity|]. cbn.
    rewrite !sleeps_app, !dialled_app, sleeps_closing, dialled_closing.
    cbn. rewrite !app_nil_r. repeat split; reflexivity.
  - destruct rs as [|r rs]; [discriminate|].
    rewrite (connectLoop_retry fuel ctx _ idx w s d Hi)
      by (try apply never_cancelled_done; try assumption;
          rewrite Hd; reflexivity).
    cbv zeta. rewrite nextDelay_spec.
    assert (Hpos : 0 < len (Worker.targets w)) by lia.
    match goal with
    | |- context [Worker.connectLoop fuel ctx _ ?i ?w1 ?s1] =>
        destruct (IH rs fuel ctx (S k) i w1 s1 c dt drest rrest)
          as (w' & s' & Hrun & Hconn & Hlast & Hts & Hti & Hsl & Hdl)
    end;
      [ simpl in Hlen; lia
      | simpl in Hfuel; lia
      | cbn; apply Z.mod_pos_bound; exact Hpos
      | destruct Hc as [Hc|Hc]; [left|right]; assumption
      | cbn [dials]; rewrite Hd; reflexivity
      | cbn [rands]; rewrite Hr; reflexivity
      | ].
    exists w', s'. split; [exact Hrun|].
    cbn [Worker.targets Worker.set_target Worker.targetIdx] in Hts, Hti, Hdl.
    cbn [trace] in Hsl, Hdl.
    rewrite !sleeps_app in Hsl. rewrite !dialled_app in Hdl.
    cbn in Hsl, Hdl. rewrite app_nil_r in Hsl, Hdl.
    repeat split; try assumption.
    + rewrite Hsl, <- app_assoc. reflexivity.
    + rewrite Hdl, <- app_assoc, Hr. reflexivity.
Qed.

Lemma pick_in_range (ts : list string) (j : Z) :
  0 <= j < len ts -> pick ts j = nth (Z.to_nat j) ts EmptyString.
Proof. intros H. unfold pick. rewrite Z.mod_small by exact H. reflexivity. Qed.

(** C3.  The backoff schedule is 2s, 4s, 8s, 16s, 30s, 30s, ...; the sleeps
    of every run of [ConnectWithRetries] are an initial segment of it, so
    every invocation starts again at 2s; a run whose dials fail k times
    under a live context and then succeed returns after exactly the first
    k sleeps of the schedule, having dialled its primary target first and
    after each failure the target [rand.Intn(len(targets))] picked; and
    that pick reaches every index of the target list, whichever target
    was tried before. *)
Theorem connect_backoff_and_failover :
  map spec_backoff (seq 0 7)
  = [2 * Second; 4 * Second; 8 * Second; 16 * Second;
     30 * Second; 30 * Second; 30 * Second] /\
  (forall k, (4 <= k)%nat -> spec_backoff k = 30 * Second) /\
  (forall fuel ctx w s,
      exists n,
        sleeps (trace (snd (Worker.ConnectWithRetries fuel ctx w s)))
        = sleeps (trace s) ++ map spec_backoff (seq 0 n)) /\
  (forall dts rs fuel ctx w s c dt drest rrest,
      length rs = length dts ->
      (length dts < fuel)%nat ->
      0 <= Worker.targetIdx w < len (Worker.targets w) ->
      never_cancelled ctx s ->
      dials s = map DialFail dts ++ DialOk c dt :: drest ->
      rands s = rs ++ rrest ->
      exists w' s',
        Worker.ConnectWithRetries fuel ctx w s = (Ret (w', None), s') /\
        Worker.conn w' = Some c /\
        sleeps (trace s')
        = sleeps (trace s) ++ map spec_backoff (seq 0 (length dts)) /\
        dialled (trace s')
        = dialled (trace s)
          ++ nth (Z.to_nat (Worker.targetIdx w)) (Worker.targets w) EmptyString
             :: map (pick (Worker.targets w)) rs) /\
  (forall ts j, 0 <= j < len ts -> pick ts j = nth (Z.to_nat j) ts EmptyString).
Proof.
  split; [reflexivity|].
  split; [exact spec_backoff_capped|].
  split; [intros fuel ctx w s; apply (connectLoop_sleeps fuel ctx 0%nat)|].
  split; [|exact pick_in_range].
  intros dts rs fuel ctx w s c dt drest rrest Hlen Hfuel Hi Hc Hd Hr.
  destruct (connectLoop_failover dts rs fuel ctx 0%nat (Worker.targetIdx w)
              w s c dt drest rrest Hlen Hfuel Hi Hc Hd Hr)
    as (w' & s' & Hrun & Hconn & _ & _ & _ & Hsl & Hdl).
  exists w', s'. repeat split; assumption.
Qed.

Lemma connect_backoff_and_failover_witness :
  exists w' s',
    Worker.ConnectWithRetries 3 CtxPool
      (Worker.mk 1 ["a:1"%string; "b:2"%string; "c:3"%string]
                 EmptyString 1 None 0)
      (mkWorld 0 None [DialFail 5; DialFail 5; DialOk 7%nat 1] [] [4; 0] [])
    = (Ret (w', None), s') /\
    Worker.conn w' = Some 7%nat /\
    sleeps (trace s') = [] ++ map spec_backoff (seq 0 2) /\
    dialled (trace s')
    = [] ++ "b:2"%string
         :: map (pick ["a:1"%string; "b:2"%string; "c:3"%string]) [4; 0].
Proof.
  apply (proj1 (proj2 (proj2 (proj2 connect_backoff_and_failover)))
           [5; 5] [4; 0] 3%nat CtxPool
           (Worker.mk 1 ["a:1"%string; "b:2"%string; "c:3"%string]
                      EmptyString 1 None 0)
           (mkWorld 0 None [DialFail 5; DialFail 5; DialOk 7%nat 1] [] [4; 0] [])
           7%nat 1 [] []).
  - reflexivity.
  - simpl. lia.
  - unfold len. simpl. lia.
  - right. reflexivity.
  - reflexivity.
  - reflexivity.
Defined.

(* ================================================================== *)
(** * Properties of the reconnect policy and of write-with-retry *)
(* ================================================================== *)

(** A run only adds to the trace. *)
Lemma connectLoop_extends (fuel : nat) :
  forall ctx delay idx w s,
    exists rest,
      trace (snd (Worker.connectLoop fuel ctx delay idx w s))
      = trace s ++ rest.
Proof.
  induction fuel as [|fuel IH]; intros ctx delay idx w s.
  - exists []. simpl. rewrite app_nil_r. reflexivity.
  - connect_cases ctx idx w s; cbv zeta.
    + eexists. cbn [snd trace]. rewrite <- app_assoc. reflexivity.
    + eexists. reflexivity.
    + match goal with |- context [Worker.connectLoop fuel ctx ?d ?i ?w' ?s'] =>
        destruct (IH ctx d i w' s') as [rest Hrest] end.
      rewrite Hrest. cbn [trace]. eexists. rewrite <- !app_assoc. reflexivity.
    + exists []. simpl. rewrite app_nil_r. reflexivity.
Qed.

(** The first thing a run does is dial the target it was entered with. *)
Lemma connectLoop_first_dial (fuel : nat) (ctx : Context) (delay idx : Z)
      (w : Worker.t) (s : World) :
  0 <= idx < len (Worker.targets w) ->
  exists rest,
    trace (snd (Worker.connectLoop (S fuel) ctx delay idx w s))
    = trace s
      ++ EvDial (nth (Z.to_nat idx) (Worker.targets w) EmptyString) :: rest.
Proof.
  intros Hi0. connect_cases ctx idx w s; cbv zeta.
  - eexists. cbn [snd trace]. rewrite <- app_assoc. reflexivity.
  - exists []. reflexivity.
  - match goal with |- context [Worker.connectLoop fuel ctx ?d ?i ?w' ?s'] =>
      destruct (connectLoop_extends fuel ctx d i w' s') as [rest Hrest] end.
    rewrite Hrest. cbn [trace]. eexists. rewrite <- !app_assoc. reflexivity.
  - lia.
Qed.

(** C5.  With an established connection, [ConnectIfNeeded] does nothing
    while no more than 5 minutes have passed since the last successful
    connect (in particular while less than 5 minutes have passed).  Once
    more than 5 minutes have passed it closes the connection and runs
    [ConnectWithRetries], whose first dial goes to the worker's primary
    target [targets[targetIdx]], whatever target it is connected to. *)
Theorem reconnect_after_five_minutes
        (fuel : nat) (ctx : Context) (w : Worker.t) (s : World) (c : Conn) :
  Worker.conn w = Some c ->
  (clock s - Worker.lastReconnect w <= 5 * Minute ->
   Worker.ConnectIfNeeded fuel ctx w s = (Ret (w, None), s)) /\
  (5 * Minute < clock s - Worker.lastReconnect w ->
   Worker.ConnectIfNeeded fuel ctx w s
   = Worker.ConnectWithRetries fuel ctx (Worker.set_conn w None)
       (mkWorld (clock s) (cancelAt s) (dials s) (writes s) (rands s)
                (trace s ++ [EvClose c])) /\
   ((0 < fuel)%nat ->
    0 <= Worker.targetIdx w < len (Worker.targets w) ->
    exists rest,
      trace (snd (Worker.ConnectIfNeeded fuel ctx w s))
      = trace s
        ++ EvClose c
        :: EvDial (nth (Z.to_nat (Worker.targetIdx w)) (Worker.targets w)
                       EmptyString)
        :: rest)).
Proof.
  intros Hconn. unfold Worker.ConnectIfNeeded. rewrite Hconn. run.
  split; intros Ht.
  - assert (E : (clock s - Worker.lastReconnect w >? 5 * Minute) = false)
      by lia.
    rewrite E. reflexivity.
  - assert (E : (clock s - Worker.lastReconnect w >? 5 * Minute) = true)
      by lia.
    rewrite E. unfold Worker.Reconnect, Worker.Close. rewrite Hconn. run.
    split; [reflexivity|].
    intros Hfuel Hi. destruct fuel as [|fuel]; [lia|].
    unfold Worker.ConnectWithRetries.
    match goal with |- context [Worker.connectLoop _ ctx ?d ?i ?w' ?s'] =>
      destruct (connectLoop_first_dial fuel ctx d i w' s' Hi) as [rest Hrest]
    end.
    exists rest. rewrite Hrest. cbn [trace Worker.targets Worker.set_conn].
    rewrite <- app_assoc. reflexivity.
Qed.

Lemma reconnect_after_five_minutes_witness :
  Worker.ConnectIfNeeded 1 CtxPool
    (Worker.mk 1 ["a:1"%string; "b:2"%string] "b:2"%string 0 (Some 4%nat) 0)
    (mkWorld (4 * Minute) None [] [] [] [])
  = (Ret (Worker.mk 1 ["a:1"%string; "b:2"%string] "b:2"%string 0
                    (Some 4%nat) 0, None),
     mkWorld (4 * Minute) None [] [] [] []) /\
  exists rest,
    trace (snd (Worker.ConnectIfNeeded 1 CtxPool
      (Worker.mk 1 ["a:1"%string; "b:2"%string] "b:2"%string 0 (Some 4%nat) 0)
      (mkWorld (6 * Minute) None [DialOk 5%nat 0] [] [] [])))
    = [] ++ EvClose 4%nat :: EvDial "a:1"%string :: rest.
Proof.
  split.
  - apply (proj1 (reconnect_after_five_minutes 1 CtxPool
      (Worker.mk 1 ["a:1"%string; "b:2"%string] "b:2"%string 0 (Some 4%nat) 0)
      (mkWorld (4 * Minute) None [] [] [] []) 4%nat eq_refl)).
    vm_compute. discriminate.
  - apply (proj2 (reconnect_after_five_minutes 1 CtxPool
      (Worker.mk 1 ["a:1"%string; "b:2"%string] "b:2"%string 0 (Some 4%nat) 0)
      (mkWorld (6 * Minute) None [DialOk 5%nat 0] [] [] []) 4%nat eq_refl)).
    + vm_compute. reflexivity.
    + lia.
    + unfold len. simpl. lia.
Defined.

(** A run does not touch the cancellation time of the world. *)
Lemma connectLoop_cancelAt (fuel : nat) :
  forall ctx delay idx w s,
    cancelAt (snd (Worker.connectLoop fuel ctx delay idx w s)) = cancelAt s.
Proof.
  induction fuel as [|fuel IH]; intros ctx delay idx w s; [reflexivity|].
  connect_cases ctx idx w s; cbv zeta; try reflexivity.
  rewrite IH. reflexivity.
Qed.

Lemma ConnectIfNeeded_cancelAt (fuel : nat) (ctx : Context) (w : Worker.t)
      (s : World) :
  cancelAt (snd (Worker.ConnectIfNeeded fuel ctx w s)) = cancelAt s.
Proof.
  unfold Worker.ConnectIfNeeded.
  destruct (Worker.conn w) as [c|] eqn:Hconn.
  - run. destruct (clock s - Worker.lastReconnect w >? 5 * Minute).
    + unfold Worker.Reconnect, Worker.Close. rewrite Hconn. run.
      unfold Worker.ConnectWithRetries. rewrite connectLoop_cancelAt.
      reflexivity.
    + reflexivity.
  - apply connectLoop_cancelAt.
Qed.

(** Under a context that is never cancelled a run that returns has a
    connection and no error, and no run dereferences a nil connection. *)
Lemma connectLoop_live (fuel : nat) :
  forall ctx delay idx w s,
    never_cancelled ctx s ->
    match fst (Worker.connectLoop fuel ctx delay idx w s) with
    | Ret (w', e) => Worker.conn w' <> None /\ e = None
    | Panic NilConn => False
    | _ => True
    end.
Proof.
  induction fuel as [|fuel IH]; intros ctx delay idx w s Hlive; [exact I|].
  connect_cases ctx idx w s; cbv zeta.
  - cbn. split; [discriminate|reflexivity].
  - rewrite never_cancelled_done in Hc by exact Hlive. discriminate.
  - apply IH. destruct Hlive as [Hl|Hl]; [left|right]; assumption.
  - exact I.
Qed.

Lemma ConnectIfNeeded_live (fuel : nat) (ctx : Context) (w : Worker.t)
      (s : World) :
  never_cancelled ctx s ->
  match fst (Worker.ConnectIfNeeded fuel ctx w s) with
  | Ret (w', e) => Worker.conn w' <> None /\ e = None
  | Panic NilConn => False
  | _ => True
  end.
Proof.
  intros Hlive. unfold Worker.ConnectIfNeeded.
  destruct (Worker.conn w) as [c|] eqn:Hconn.
  - run. destruct (clock s - Worker.lastReconnect w >? 5 * Minute).
    + unfold Worker.Reconnect, Worker.Close. rewrite Hconn. run.
      apply connectLoop_live.
      destruct Hlive as [Hl|Hl]; [left|right]; assumption.
    + cbn. rewrite Hconn. split; [discriminate|reflexivity].
  - apply connectLoop_live. exact Hlive.
Qed.

(** One round of [WriteWithRetries], by the outcome of
    [ConnectIfNeeded] and of the write. *)
Lemma WriteWithRetries_round (fuel : nat) (ctx : Context) (b : list byte)
      (w : Worker.t) (s : World) :
  Worker.WriteWithRetries (S fuel) ctx b w s =
  match Worker.ConnectIfNeeded (S fuel) ctx w s with
  | (Ret (w1, _), s1) =>
      match Worker.conn w1 with
      | None => (Panic NilConn, s1)
      | Some c =>
          match hd (WriteFail 0 0) (writes s1) with
          | WriteOk dt =>
              (Ret (w1, (len b, None)),
               mkWorld (clock s1 + Z.max 0 dt) (cancelAt s1) (dials s1)
                       (tl (writes s1)) (rands s1)
                       (trace s1 ++ [EvWrite c b true]))
          | WriteFail n dt =>
              Worker.WriteWithRetries fuel ctx b (Worker.set_conn w1 None)
                (mkWorld (clock s1 + Z.max 0 dt) (cancelAt s1) (dials s1)
                         (tl (writes s1)) (rands s1)
                         ((trace s1 ++ [EvWrite c b false]) ++ [EvClose c]))
          end
      end
  | (Panic k, s1) => (Panic k, s1)
  | (OutOfFuel, s1) => (OutOfFuel, s1)
  | (Blocked, s1) => (Blocked, s1)
  end.
Proof.
  cbn [Worker.WriteWithRetries]. unfold bind at 1.
  destruct (Worker.ConnectIfNeeded (S fuel) ctx w s) as [[[w1 e]|k| |] s1];
    try reflexivity.
  unfold Worker.Write. destruct (Worker.conn w1) as [c|] eqn:Hconn;
    [|reflexivity].
  run. destruct (hd (WriteFail 0 0) (writes s1)) as [dt|n dt]; run;
    [reflexivity|].
  unfold Worker.Close. cbn [Worker.conn Worker.set_conn]. rewrite Hconn. run.
  reflexivity.
Qed.

Lemma WriteWithRetries_live (fuel : nat) :
  forall ctx b w s,
    never_cancelled ctx s ->
    fst (Worker.WriteWithRetries fuel ctx b w s) <> Panic NilConn.
Proof.
  induction fuel as [|fuel IH]; intros ctx b w s Hlive; [discriminate|].
  rewrite WriteWithRetries_round.
  pose proof (ConnectIfNeeded_live (S fuel) ctx w s Hlive) as H.
  pose proof (ConnectIfNeeded_cancelAt (S fuel) ctx w s) as Hat.
  destruct (Worker.ConnectIfNeeded (S fuel) ctx w s)
    as [[[w1 e]|k| |] s1]; cbn [fst snd] in H, Hat |- *; try discriminate.
  - destruct H as [Hconn _].
    destruct (Worker.conn w1) as [c|]; [|congruence].
    destruct (hd (WriteFail 0 0) (writes s1)) as [dt|n dt];
      [discriminate|].
    apply IH. destruct Hlive as [Hl|Hl]; [left; exact Hl|right].
    cbn [cancelAt]. rewrite Hat. exact Hl.
  - destruct k; try discriminate. contradiction.
Qed.

Lemma ConnectIfNeeded_extends (fuel : nat) (ctx : Context) (w : Worker.t)
      (s : World) :
  exists rest,
    trace (snd (Worker.ConnectIfNeeded fuel ctx w s)) = trace s ++ rest.
Proof.
  unfold Worker.ConnectIfNeeded.
  destruct (Worker.conn w) as [c|] eqn:Hconn.
  - run. destruct (clock s - Worker.lastReconnect w >? 5 * Minute).
    + unfold Worker.Reconnect, Worker.Close. rewrite Hconn. run.
      match goal with |- context [Worker.ConnectWithRetries _ _ ?w' ?s'] =>
        destruct (connectLoop_extends fuel ctx (2 * Second)
                    (Worker.targetIdx w') w' s') as [rest Hrest]
      end.
      unfold Worker.ConnectWithRetries. rewrite Hrest. cbn [trace].
      eexists. rewrite <- app_assoc. reflexivity.
    + exists []. cbn. rewrite app_nil_r. reflexivity.
  - apply connectLoop_extends.
Qed.

(** Whenever write-with-retry returns, its last effect was a successful
    write of the whole record on the connection the worker now holds. *)
Lemma WriteWithRetries_delivers (fuel : nat) :
  forall ctx b w s w' r s',
    Worker.WriteWithRetries fuel ctx b w s = (Ret (w', r), s') ->
    exists c tr,
      trace s' = (trace s ++ tr) ++ [EvWrite c b true] /\
      Worker.conn w' = Some c /\ r = (len b, None).
Proof.
  induction fuel as [|fuel IH]; intros ctx b w s w' r s' H; [discriminate|].
  rewrite WriteWithRetries_round in H.
  destruct (ConnectIfNeeded_extends (S fuel) ctx w s) as [rest Hrest].
  destruct (Worker.ConnectIfNeeded (S fuel) ctx w s)
    as [[[w1 e]|k| |] s1]; try discriminate.
  cbn [snd] in Hrest.
  destruct (Worker.conn w1) as [c|] eqn:Hconn; [|discriminate].
  destruct (hd (WriteFail 0 0) (writes s1)) as [dt|n dt].
  - inversion H; subst. exists c, rest. cbn [trace]. rewrite Hrest. auto.
  - destruct (IH _ _ _ _ _ _ _ H) as (c' & tr & Htr & Hc' & Hr).
    exists c', (rest ++ [EvWrite c b false; EvClose c] ++ tr).
    rewrite Htr. cbn [trace]. rewrite Hrest, <- !app_assoc.
    repeat split; assumption.
Qed.

Lemma ConnectIfNeeded_succeeds (fuel : nat) (ctx : Context) (w : Worker.t)
      (s : World) :
  dials_succeed s -> dials s <> [] ->
  0 <= Worker.targetIdx w < len (Worker.targets w) ->
  exists w1 s1,
    Worker.ConnectIfNeeded (S fuel) ctx w s = (Ret (w1, None), s1) /\
    Worker.conn w1 <> None /\
    Worker.targets w1 = Worker.targets w /\
    Worker.targetIdx w1 = Worker.targetIdx w /\
    writes s1 = writes s /\
    (dials s1 = dials s \/ dials s1 = tl (dials s)).
Proof.
  intros Hok Hne Hi.
  assert (Hhd : exists c dt, hd (DialFail 0) (dials s) = DialOk c dt).
  { unfold dials_succeed in Hok. destruct (dials s); [congruence|].
    inversion Hok; subst. assumption. }
  destruct Hhd as (c & dt & Hhd).
  unfold Worker.ConnectIfNeeded.
  destruct (Worker.conn w) as [c0|] eqn:Hconn.
  - run. destruct (clock s - Worker.lastReconnect w >? 5 * Minute).
    + unfold Worker.Reconnect, Worker.Close. rewrite Hconn. run.
      unfold Worker.ConnectWithRetries.
      erewrite connectLoop_success by (try exact Hi; exact Hhd).
      eexists. eexists. split; [reflexivity|]. cbn.
      repeat split; auto. discriminate.
    + exists w, s. rewrite Hconn. repeat split; auto. discriminate.
  - unfold Worker.ConnectWithRetries.
    erewrite connectLoop_success by (try exact Hi; exact Hhd).
    eexists. eexists. split; [reflexivity|]. cbn.
    repeat split; auto. discriminate.
Qed.

(** Write-with-retry returns: when the next [k] writes fail and the one
    after succeeds, and the targets accept every dial, [k + 1] rounds are
    enough. *)
Lemma WriteWithRetries_returns (fails : list (Z * Z)) :
  forall fuel ctx b w s dt wrest,
    (length fails < fuel)%nat ->
    writes s = map (fun f => WriteFail (fst f) (snd f)) fails
               ++ WriteOk dt :: wrest ->
    dials_succeed s ->
    (length fails < length (dials s))%nat ->
    0 <= Worker.targetIdx w < len (Worker.targets w) ->
    exists w' s',
      Worker.WriteWithRetries fuel ctx b w s
      = (Ret (w', (len b, None)), s').
Proof.
  induction fails as [|f fails IH];
    intros fuel ctx b w s dt wrest Hfuel Hw Hok Hlen Hi;
    (destruct fuel as [|fuel]; [simpl in Hfuel; lia|]);
    rewrite WriteWithRetries_round;
    (destruct (ConnectIfNeeded_succeeds fuel ctx w s Hok) as
        (w1 & s1 & -> & Hc1 & Hts & Hti & Hws & Hds);
     [intro E; rewrite E in Hlen; simpl in Hlen; lia|exact Hi|]);
    cbv beta iota;
    (destruct (Worker.conn w1) as [c|]; [|congruence]);
    rewrite Hws, Hw; cbn [map app hd].
  - eexists. eexists. reflexivity.
  - apply (IH fuel ctx b _ _ dt wrest).
    + simpl in Hfuel. lia.
    + reflexivity.
    + unfold dials_succeed in *. cbn [dials].
      destruct Hds as [->| ->]; [assumption|].
      destruct (dials s); [assumption|]. inversion Hok; assumption.
    + cbn [dials]. simpl in Hlen.
      destruct Hds as [->| ->]; [lia|].
      destruct (dials s); simpl in *; lia.
    + cbn. rewrite Hts, Hti. exact Hi.
Qed.

(** C10.  [WriteWithRetries] drops the error of [ConnectIfNeeded] and
    goes on to [Write], which dereferences the connection and panics when
    it is nil.  Under a context that is never cancelled, [context.TODO()]
    in particular, [ConnectIfNeeded] returns only with a connection in
    place, so no run of [WriteWithRetries] ends in the nil dereference.
    Under the cancelled pool context it does: the dropped error leaves the
    connection nil and [Write] panics. *)
Theorem write_never_dereferences_nil :
  (forall fuel ctx b w s,
      never_cancelled ctx s ->
      fst (Worker.WriteWithRetries fuel ctx b w s) <> Panic NilConn) /\
  (forall fuel b w s,
      fst (Worker.WriteWithRetries fuel CtxTODO b w s) <> Panic NilConn) /\
  (forall fuel ctx w s w' e s',
      never_cancelled ctx s ->
      Worker.ConnectIfNeeded fuel ctx w s = (Ret (w', e), s') ->
      Worker.conn w' <> None) /\
  (forall w b s,
      Worker.conn w = None -> Worker.Write w b s = (Panic NilConn, s)) /\
  (let w0 := Worker.mk 1 ["a:1"%string] EmptyString 0 None 0 in
   let s0 := mkWorld 10 (Some 5) [] [] [] [] in
   fst (Worker.ConnectIfNeeded 1 CtxPool w0 s0)
   = Ret (Worker.set_target w0 "a:1"%string, Some (DialError "a:1"%string)) /\
   fst (Worker.WriteWithRetries 1 CtxPool [x61] w0 s0) = Panic NilConn).
Proof.
  split; [intros fuel ctx b w s; apply WriteWithRetries_live|].
  split; [intros fuel b w s; apply WriteWithRetries_live; left; reflexivity|].
  split; [|split].
  - intros fuel ctx w s w' e s' Hlive H.
    pose proof (ConnectIfNeeded_live fuel ctx w s Hlive) as Hc.
    rewrite H in Hc. apply Hc.
  - intros w b s H. unfold Worker.Write. rewrite H. reflexivity.
  - vm_compute. split; reflexivity.
Qed.

Lemma write_never_dereferences_nil_witness :
  never_cancelled CtxPool (mkWorld 0 None [DialFail 0; DialOk 3%nat 0]
                                   [WriteFail 0 0] [] []) /\
  fst (Worker.WriteWithRetries 2 CtxPool [x61]
         (Worker.mk 1 ["a:1"%string] EmptyString 0 None 0)
         (mkWorld 0 None [DialFail 0; DialOk 3%nat 0] [WriteFail 0 0] [] []))
  <> Panic NilConn.
Proof.
  split; [right; reflexivity|].
  apply (proj1 write_never_dereferences_nil 2%nat CtxPool [x61]
           (Worker.mk 1 ["a:1"%string] EmptyString 0 None 0)
           (mkWorld 0 None [DialFail 0; DialOk 3%nat 0] [WriteFail 0 0] [] [])).
  right. reflexivity.
Defined.

(* ================================================================== *)
(** * Properties of the worker loop *)
(* ================================================================== *)

(** The tick case: count, and leave when draining and idle for 5 ticks. *)
Lemma select_tick (fuel : nat) (st : Transmit) (s : World) :
  0 <= idleCount st < maxInt ->
  select fuel CaseTick st s =
  if exit st && (idleCount st + 1 >=? 5) then
    (Ret (Return (mkTransmit (Worker.set_conn (w st) None) (exit st)
                             (doneChan st) (idleCount st + 1) (chanCap st)
                             (outputChan st) (bufPool st))),
     mkWorld (clock s) (cancelAt s) (dials s) (writes s) (rands s)
             (trace s ++ closing (Worker.conn (w st))))
  else
    (Ret (Continue (mkTransmit (w st) (exit st) (doneChan st)
                               (idleCount st + 1) (chanCap st)
                               (outputChan st) (bufPool st))), s).
Proof.
  intros H. unfold select, maxInt in *.
  rewrite wrap64_small by lia. cbn [exit w doneChan chanCap outputChan bufPool].
  destruct (exit st && (idleCount st + 1 >=? 5)); [|reflexivity].
  unfold Worker.Close.
  destruct (Worker.conn (w st)) as [c|] eqn:Hc; run.
  - reflexivity.
  - rewrite app_nil_r. destruct s, (w st); cbn in *. subst. reflexivity.
Qed.

(** The done case: taken only once, and only after the cancellation. *)
Lemma select_done (fuel : nat) (st : Transmit) (s : World) :
  select fuel CaseDone st s =
  if doneChan st && done_at CtxPool (cancelAt s) (clock s) then
    (Ret (Continue (mkTransmit (w st) true false (idleCount st) (chanCap st)
                               (outputChan st) (bufPool st))), s)
  else (Blocked, s).
Proof.
  unfold select, ctx_Err, bind, ret, fail.
  destruct (doneChan st && done_at CtxPool (cancelAt s) (clock s));
    reflexivity.
Qed.

(** The receive case: the oldest queued record is written with retries
    under [context.TODO()], then its buffer is released. *)
Lemma select_recv (fuel : nat) (st : Transmit) (s : World) :
  select fuel CaseRecv st s =
  match outputChan st with
  | [] => (Blocked, s)
  | b :: queued =>
      match Worker.WriteWithRetries fuel CtxTODO (Buffer.Bytes b) (w st) s with
      | (Ret (w', _), s') =>
          (Ret (Continue (mkTransmit w' (exit st) (doneChan st) 0 (chanCap st)
                                     queued (release (bufPool st) b))), s')
      | (Panic k, s') => (Panic k, s')
      | (OutOfFuel, s') => (OutOfFuel, s')
      | (Blocked, s') => (Blocked, s')
      end
  end.
Proof.
  unfold select. destruct (outputChan st) as [|b queued]; [reflexivity|].
  unfold bind.
  destruct (Worker.WriteWithRetries fuel CtxTODO (Buffer.Bytes b) (w st) s)
    as [[[w' r]|k| |] s']; reflexivity.
Qed.

(** Running a schedule in two parts. *)
Lemma transmit_loop_app (fuel : nat) (pre suf : list Step) :
  forall st s,
    transmit_loop fuel (pre ++ suf) st s =
    match transmit_loop fuel pre st s with
    | (Ret (Continue st1), s1) => transmit_loop fuel suf st1 s1
    | other => other
    end.
Proof.
  induction pre as [|x pre IH]; intros st s; [reflexivity|].
  destruct x as [dt|b|c]; cbn [app transmit_loop].
  - run. apply IH.
  - destruct (len (outputChan st) <? chanCap st); [apply IH|reflexivity].
  - unfold bind.
    destruct (select fuel c st s) as [[[st'|st']|k| |] s']; try reflexivity.
    apply IH.
Qed.

(** What the loop variables hold after a schedule, as long as the tick
    counter stays within [int]. *)
Lemma transmit_loop_vars (fuel : nat) (pre : list Step) :
  forall st s st1 s1,
    0 <= idleCount st -> idleCount st + len pre < maxInt ->
    transmit_loop fuel pre st s = (Ret (Continue st1), s1) ->
    exit st1 = done_seen pre (exit st) /\
    idleCount st1 = idle_ticks pre (idleCount st) /\
    0 <= idleCount st1 <= idleCount st + len pre.
Proof.
  unfold len.
  induction pre as [|x pre IH]; intros st s st1 s1 H0 Hmax Hrun.
  - inversion Hrun; subst. simpl. repeat split; lia.
  - destruct x as [dt|b|c];
      cbn [List.length transmit_loop done_seen idle_ticks] in *.
    + revert Hrun. run. intros Hrun.
      apply IH in Hrun; [|lia..].
      destruct Hrun as (He & Hi & Hr). repeat split; try assumption; lia.
    + destruct (len (outputChan st) <? chanCap st); [|discriminate].
      apply IH in Hrun; [|cbn [idleCount]; lia..].
      destruct Hrun as (He & Hi & Hr).
      cbn [exit idleCount] in He, Hi, Hr. repeat split; try assumption; lia.
    + unfold bind in Hrun. destruct c.
      * rewrite select_tick in Hrun by (unfold maxInt in *; lia).
        destruct (exit st && (idleCount st + 1 >=? 5)); [discriminate|].
        apply IH in Hrun; [|cbn [idleCount]; lia..].
        destruct Hrun as (He & Hi & Hr).
        cbn [exit idleCount] in He, Hi, Hr.
        repeat split; try assumption; lia.
      * rewrite select_done in Hrun.
        destruct (doneChan st && done_at CtxPool (cancelAt s) (clock s));
          [|discriminate].
        apply IH in Hrun; [|cbn [idleCount]; lia..].
        destruct Hrun as (He & Hi & Hr).
        cbn [exit idleCount] in He, Hi, Hr.
        repeat split; try assumption; lia.
      * rewrite select_recv in Hrun.
        destruct (outputChan st) as [|b queued]; [discriminate|].
        destruct (Worker.WriteWithRetries fuel CtxTODO (Buffer.Bytes b)
                                          (w st) s)
          as [[[w' r]|k| |] s']; try discriminate.
        apply IH in Hrun; [|cbn [idleCount]; lia..].
        destruct Hrun as (He & Hi & Hr).
        cbn [exit idleCount] in He, Hi, Hr.
        repeat split; try assumption; lia.
Qed.

Lemma transmit_loop_one (fuel : nat) (x : Step) (st : Transmit) (s : World) :
  transmit_loop fuel [x] st s =
  match x with
  | Wait dt =>
      (Ret (Continue st),
       mkWorld (clock s + Z.max 0 dt) (cancelAt s) (dials s) (writes s)
               (rands s) (trace s))
  | Enqueue b =>
      if len (outputChan st) <? chanCap st then
        (Ret (Continue (mkTransmit (w st) (exit st) (doneChan st)
                                   (idleCount st) (chanCap st)
                                   (outputChan st ++ [b]) (bufPool st))), s)
      else (Blocked, s)
  | Select c => select fuel c st s
  end.
Proof.
  destruct x as [dt|b|c]; cbn [transmit_loop].
  - reflexivity.
  - destruct (len (outputChan st) <? chanCap st); reflexivity.
  - unfold bind.
    destruct (select fuel c st s) as [[[st'|st']|k| |] s']; reflexivity.
Qed.

(** The receive case comes back to the [select]: when the next writes
    fail [length fails] times and then succeed, and the targets accept
    every dial, enough fuel lets the iteration finish with the record off
    the queue and the tick count back at zero. *)
Lemma select_recv_returns (fails : list (Z * Z)) (fuel : nat)
      (st : Transmit) (s : World) (b : Buf) (queued : list Buf)
      (dt : Z) (wrest : list WriteResult) :
  outputChan st = b :: queued ->
  (length fails < fuel)%nat ->
  writes s = map (fun f => WriteFail (fst f) (snd f)) fails
             ++ WriteOk dt :: wrest ->
  dials_succeed s ->
  (length fails < length (dials s))%nat ->
  0 <= Worker.targetIdx (w st) < len (Worker.targets (w st)) ->
  exists st' s',
    select fuel CaseRecv st s = (Ret (Continue st'), s') /\
    outputChan st' = queued /\ idleCount st' = 0.
Proof.
  intros Hq Hfuel Hw Hok Hlen Hi. rewrite select_recv, Hq.
  destruct (WriteWithRetries_returns fails fuel CtxTODO (Buffer.Bytes b)
              (w st) s dt wrest Hfuel Hw Hok Hlen Hi) as (w' & s' & ->).
  eexists. eexists. split; [reflexivity|]. split; reflexivity.
Qed.

(** C4 (as amended).  A worker leaves its loop only at a tick, and exactly
    at a tick that finds the cancellation seen and at least 5 ticks counted
    since the last record was taken, ticks before the cancellation
    included; it closes its connection when it leaves.  Seeing the
    cancellation does not end the loop by itself.  A record taken from the
    queue has been written successfully, by write-with-retry, before the
    loop comes back to its [select]. *)
Theorem drain_exit_rule (fuel : nat) (pre : list Step) (st : Transmit)
        (s : World) (st1 : Transmit) (s1 : World) :
  0 <= idleCount st -> idleCount st + len pre < maxInt ->
  transmit_loop fuel pre st s = (Ret (Continue st1), s1) ->
  exit st1 = done_seen pre (exit st) /\
  idleCount st1 = idle_ticks pre (idleCount st) /\
  (done_seen pre (exit st) = true ->
   5 <= idle_ticks pre (idleCount st) + 1 ->
   transmit_loop fuel (pre ++ [Select CaseTick]) st s
   = (Ret (Return (mkTransmit (Worker.set_conn (w st1) None) true
                              (doneChan st1) (idleCount st1 + 1)
                              (chanCap st1) (outputChan st1) (bufPool st1))),
      mkWorld (clock s1) (cancelAt s1) (dials s1) (writes s1) (rands s1)
              (trace s1 ++ closing (Worker.conn (w st1))))) /\
  (done_seen pre (exit st) = false \/ idle_ticks pre (idleCount st) + 1 < 5 ->
   transmit_loop fuel (pre ++ [Select CaseTick]) st s
   = (Ret (Continue (mkTransmit (w st1) (exit st1) (doneChan st1)
                                (idleCount st1 + 1) (chanCap st1)
                                (outputChan st1) (bufPool st1))), s1)) /\
  (forall x st2 s2,
      transmit_loop fuel (pre ++ [x]) st s = (Ret (Return st2), s2) ->
      x = Select CaseTick) /\
  (forall st2 s2,
      transmit_loop fuel (pre ++ [Select CaseRecv]) st s
      = (Ret (Continue st2), s2) ->
      exists b c tr,
        outputChan st1 = b :: outputChan st2 /\
        idleCount st2 = 0 /\
        Worker.conn (w st2) = Some c /\
        trace s2 = (trace s1 ++ tr) ++ [EvWrite c (Buffer.Bytes b) true]).
Proof.
  intros H0 Hmax Hrun.
  destruct (transmit_loop_vars fuel pre st s st1 s1 H0 Hmax Hrun)
    as (He & Hi & Hr).
  assert (Htick : 0 <= idleCount st1 < maxInt) by lia.
  split; [exact He|]. split; [exact Hi|].
  split; [|split; [|split]].
  - intros Hd H5. rewrite transmit_loop_app, Hrun, transmit_loop_one.
    rewrite select_tick by exact Htick.
    rewrite He, Hd, Hi.
    assert (E : (idle_ticks pre (idleCount st) + 1 >=? 5) = true) by lia.
    rewrite E. reflexivity.
  - intros Hor. rewrite transmit_loop_app, Hrun, transmit_loop_one.
    rewrite select_tick by exact Htick.
    assert (E : exit st1 && (idleCount st1 + 1 >=? 5) = false).
    { rewrite He, Hi. destruct Hor as [->|Hlt]; [reflexivity|].
      apply andb_false_intro2. lia. }
    rewrite E. reflexivity.
  - intros x st2 s2. rewrite transmit_loop_app, Hrun, transmit_loop_one.
    destruct x as [dt|b|[| |]]; try discriminate; try reflexivity.
    + destruct (len (outputChan st1) <? chanCap st1); discriminate.
    + rewrite select_done.
      destruct (doneChan st1 && done_at CtxPool (cancelAt s1) (clock s1));
        discriminate.
    + rewrite select_recv. destruct (outputChan st1); [discriminate|].
      destruct (Worker.WriteWithRetries fuel CtxTODO (Buffer.Bytes b)
                                        (w st1) s1)
        as [[[w' r]|k| |] s']; discriminate.
  - intros st2 s2. rewrite transmit_loop_app, Hrun, transmit_loop_one.
    rewrite select_recv. destruct (outputChan st1) as [|b queued];
      [discriminate|].
    destruct (Worker.WriteWithRetries fuel CtxTODO (Buffer.Bytes b)
                                      (w st1) s1)
      as [[[w' r]|k| |] s'] eqn:Hw; try discriminate.
    intros Hret. inversion Hret; subst. clear Hret.
    destruct (WriteWithRetries_delivers _ _ _ _ _ _ _ _ Hw)
      as (c & tr & Htr & Hc & _).
    exists b, c, tr. cbn. auto.
Qed.

Lemma drain_exit_rule_witness :
  transmit_loop 1
    ([Select CaseRecv; Select CaseDone; Select CaseTick; Select CaseTick;
      Select CaseTick; Select CaseTick] ++ [Select CaseTick])
    drain_worker drain_world
  = (Ret (Return (mkTransmit
                    (Worker.mk 1 ["a:1"%string] "a:1"%string 0 None 0)
                    true false (4 + 1) 2 []
                    [Buffer.mk [] 32768])),
     mkWorld 10 (Some 5) [] [] []
             ([EvWrite 3%nat [x61; x0a] true] ++ closing (Some 3%nat))).
Proof.
  apply (proj1 (proj2 (proj2
    (drain_exit_rule 1
       [Select CaseRecv; Select CaseDone; Select CaseTick; Select CaseTick;
        Select CaseTick; Select CaseTick]
       drain_worker drain_world
       (mkTransmit (Worker.mk 1 ["a:1"%string] "a:1"%string 0 (Some 3%nat) 0)
                   true false 4 2 [] [Buffer.mk [] 32768])
       (mkWorld 10 (Some 5) [] [] [] [EvWrite 3%nat [x61; x0a] true])
       ltac:(vm_compute; discriminate)
       ltac:(vm_compute; reflexivity)
       ltac:(vm_compute; reflexivity))))).
  - reflexivity.
  - vm_compute. discriminate.
Defined.

(** The worker of [drain_worker] after its record is sent and the
    cancellation is seen: nothing is queued, and it is still in its loop,
    also 4 ticks later. *)
Lemma drain_waits_for_ticks : ~ exits_at_once_when_idle.
Proof.
  intros H.
  apply (H 1%nat
           [Select CaseRecv; Select CaseDone; Select CaseTick;
            Select CaseTick; Select CaseTick; Select CaseTick]
           drain_worker drain_world
           (mkTransmit
              (Worker.mk 1 ["a:1"%string] "a:1"%string 0 (Some 3%nat) 0)
              true false 4 2 [] [Buffer.mk [] 32768])
           (mkWorld 10 (Some 5) [] [] [] [EvWrite 3%nat [x61; x0a] true]));
    vm_compute; reflexivity.
Qed.

(** C7 (as amended).  After a record is written, its buffer goes back to
    the pool exactly when its capacity is at most 1 MiB (1048576 bytes: a
    capacity of exactly 1 MiB is pooled), and it goes back reset to length
    zero with its capacity kept; a buffer whose capacity exceeds 1 MiB is
    never pooled. *)
Theorem release_rule (fuel : nat) (st : Transmit) (s : World)
        (st' : Transmit) (s' : World) (b : Buf) (queued : list Buf) :
  outputChan st = b :: queued ->
  select fuel CaseRecv st s = (Ret (Continue st'), s') ->
  bufPool st' = release (bufPool st) b /\
  (Buffer.Cap b <= 1024 * 1024 ->
   release (bufPool st) b = bufPool_Put (bufPool st) (Buffer.Reset b) /\
   Buffer.Len (Buffer.Reset b) = 0 /\
   Buffer.Cap (Buffer.Reset b) = Buffer.Cap b) /\
  (1024 * 1024 < Buffer.Cap b -> release (bufPool st) b = bufPool st) /\
  (pool_ok (bufPool st) -> pool_ok (bufPool st')) /\
  (exists c tr, trace s' = (trace s ++ tr) ++ [EvWrite c (Buffer.Bytes b) true]).
Proof.
  intros Hq. rewrite select_recv, Hq.
  destruct (Worker.WriteWithRetries fuel CtxTODO (Buffer.Bytes b) (w st) s)
    as [[[w' r]|k| |] s1] eqn:Hw; try discriminate.
  intros Hret. inversion Hret; subst. clear Hret. cbn [bufPool].
  split; [reflexivity|]. unfold release.
  split; [|split; [|split]].
  - intros Hle. assert (E : (Buffer.Cap b <=? 1024 * 1024) = true) by lia.
    rewrite E. repeat split; reflexivity.
  - intros Hgt. assert (E : (Buffer.Cap b <=? 1024 * 1024) = false) by lia.
    rewrite E. reflexivity.
  - intros Hp. destruct (Buffer.Cap b <=? 1024 * 1024); [|exact Hp].
    constructor; [reflexivity|exact Hp].
  - destruct (WriteWithRetries_delivers _ _ _ _ _ _ _ _ Hw)
      as (c & tr & Htr & _ & _).
    exists c, tr. exact Htr.
Qed.

Lemma release_rule_witness :
  bufPool (mkTransmit (Worker.mk 1 ["a:1"%string] "a:1"%string 0 (Some 3%nat) 0)
                      false true 0 2 [] [Buffer.mk [] 32768])
  = release (bufPool drain_worker) (Buffer.mk [x61; x0a] 32768).
Proof.
  apply (proj1 (release_rule 1 drain_worker drain_world
    (mkTransmit (Worker.mk 1 ["a:1"%string] "a:1"%string 0 (Some 3%nat) 0)
                false true 0 2 [] [Buffer.mk [] 32768])
    (mkWorld 10 (Some 5) [] [] [] [EvWrite 3%nat [x61; x0a] true])
    (Buffer.mk [x61; x0a] 32768) [] eq_refl
    ltac:(vm_compute; reflexivity))).
Defined.

(** A buffer of capacity exactly 1 MiB is pooled although its capacity is
    not below 1 MiB. *)
Lemma pooled_at_threshold : ~ pooled_iff_below_threshold.
Proof.
  intros H.
  destruct (H [] (Buffer.mk [x61; x0a] (1024 * 1024))) as [Hlt _].
  specialize (Hlt eq_refl). vm_compute in Hlt. discriminate.
Qed.

(* ================================================================== *)
(** * Runs of the model *)
(* ================================================================== *)

(** Three reads and a close: the first window ends a record in its
    middle, the second completes the next one, the last bytes are flushed
    without a newline. *)
Example receive_run :
  option_map records
    (receive [ReadOk [x61; x0a; x62]; ReadOk [x63; x0a]; ReadOk [x64];
              ReadErr []] [])
  = Some [[x61; x0a]; [x62; x63; x0a]; [x64]].
Proof. reflexivity. Qed.

(** Bytes that arrive together with the read error are not enqueued. *)
Example receive_run_error_bytes :
  option_map records (receive [ReadOk [x61; x0a]; ReadErr [x62]] [])
  = Some [[x61; x0a]].
Proof. reflexivity. Qed.

(** Six failed dials, then a success: the sleeps, and the targets dialled
    (the primary first, then the picks of the random source, which may
    repeat the target that has just failed). *)
Example connect_run :
  let w0 := newWorker 1 ["a:1"%string; "b:2"%string] 1 in
  let s0 := mkWorld 0 None
              [DialFail 0; DialFail 0; DialFail 0; DialFail 0; DialFail 0;
               DialFail 0; DialOk 9%nat 0]
              [] [1; 1; 0; 3; 2; 0] [] in
  let r := Worker.ConnectWithRetries 7 CtxPool w0 s0 in
  sleeps (trace (snd r))
  = [2 * Second; 4 * Second; 8 * Second; 16 * Second; 30 * Second;
     30 * Second] /\
  dialled (trace (snd r))
  = ["b:2"; "b:2"; "b:2"; "a:1"; "b:2"; "a:1"; "a:1"]%string /\
  clock (snd r) = 90 * Second.
Proof. vm_compute. repeat split; reflexivity. Qed.

(** A worker whose first dial fails after the cancellation leaves during
    startup, without sleeping. *)
Example transmit_cancelled_at_startup :
  let r := transmit 5 CtxPool 1 2 [] [] ["a:1"%string] 0 []
                    (mkWorld 10 (Some 5) [] [] [] []) in
  (exists st, fst r = Ret (Return st) /\ Worker.conn (w st) = None) /\
  trace (snd r) = [EvDial "a:1"%string].
Proof. vm_compute. split; [eexists; split; reflexivity|reflexivity]. Qed.

(** A worker connects, sends the queued record after one failed write and
    a redial, sees the cancellation and leaves at the fifth idle tick. *)
Example transmit_run :
  let r := transmit 5 CtxPool 1 2 [Buffer.mk [x61; x0a] 32768] []
                    ["a:1"%string] 0
                    [Select CaseRecv; Wait Second; Select CaseDone;
                     Select CaseTick; Select CaseTick; Select CaseTick;
                     Select CaseTick; Select CaseTick]
                    (mkWorld 0 (Some 1)
                             [DialOk 1%nat 0; DialOk 2%nat 0]
                             [WriteFail 1 0; WriteOk 0] [] []) in
  (exists st, fst r = Ret (Return st) /\ bufPool st = [Buffer.mk [] 32768]) /\
  trace (snd r)
  = [EvDial "a:1"%string; EvWrite 1%nat [x61; x0a] false; EvClose 1%nat;
     EvDial "a:1"%string; EvWrite 2%nat [x61; x0a] true; EvClose 2%nat].
Proof. vm_compute. split; [eexists; split; reflexivity|reflexivity]. Qed.


(* ================================================================== *)
(** * More on the framer *)
(* ================================================================== *)

Lemma receive_loop_first_error (ws : list (list byte)) (p : list byte)
      (rest : InConn) :
  forall f,
    receive_loop (map ReadOk ws ++ ReadErr p :: rest) f
    = receive_loop (clean_close ws) f.
Proof.
  unfold clean_close.
  induction ws as [|wd ws IH]; intros f; simpl; [reflexivity|apply IH].
Qed.

Lemma receive_start_ok (pool0 : Pool) :
  pool_ok pool0 ->
  pool_ok (pool (receive_start pool0)) /\
  residual (receive_start pool0) = [] /\
  records (receive_start pool0) = [].
Proof.
  intros Hp. destruct (bufPool_Get_ok pool0 Hp) as [Hsb Hrest].
  unfold receive_start, residual, Buffer.Bytes.
  destruct (bufPool_Get pool0); simpl in *. auto.
Qed.

Lemma receive_clean_records (ws : list (list byte)) (pool0 : Pool) :
  pool_ok pool0 ->
  exists f,
    receive (clean_close ws) pool0 = Some f /\
    concat (records f) = concat ws.
Proof.
  intros Hp. unfold receive.
  destruct (receive_start_ok pool0 Hp) as (Hp0 & Hd0 & Hr0).
  destruct (receive_loop_clean ws _ Hp0) as (g & Hg & _ & Hc).
  exists (flush g). rewrite Hg. split; [reflexivity|].
  unfold residual, Buffer.Bytes in Hd0.
  rewrite flush_records, Hc, Hr0, Hd0. reflexivity.
Qed.

(** X1.  [receive] stops at the first failing read: the bytes that come
    with the error are dropped and nothing after it is read.  Whatever
    the failing read carries and whatever would follow, the framer
    returns and the records it enqueued concatenate to the bytes of the
    successful reads before it. *)
Theorem receive_stops_at_first_error (ws : list (list byte))
        (p : list byte) (rest : InConn) (pool0 : Pool) :
  pool_ok pool0 ->
  receive (map ReadOk ws ++ ReadErr p :: rest) pool0
  = receive (clean_close ws) pool0 /\
  exists f,
    receive (map ReadOk ws ++ ReadErr p :: rest) pool0 = Some f /\
    concat (records f) = concat ws.
Proof.
  intros Hp. unfold receive. rewrite receive_loop_first_error.
  split; [reflexivity|].
  destruct (receive_start_ok pool0 Hp) as (Hp0 & Hd0 & Hr0).
  destruct (receive_loop_clean ws _ Hp0) as (g & Hg & _ & Hc).
  exists (flush g). rewrite Hg. split; [reflexivity|].
  unfold residual, Buffer.Bytes in Hd0.
  rewrite flush_records, Hc, Hr0, Hd0. reflexivity.
Qed.

Lemma receive_stops_at_first_error_witness :
  receive (map ReadOk [[x61; x0a; x62]] ++ ReadErr [x63] :: [ReadOk [x64]]) []
  = receive (clean_close [[x61; x0a; x62]]) [] /\
  exists f,
    receive (map ReadOk [[x61; x0a; x62]] ++ ReadErr [x63] :: [ReadOk [x64]])
            []
    = Some f /\
    concat (records f) = concat [[x61; x0a; x62]].
Proof.
  apply (receive_stops_at_first_error [[x61; x0a; x62]] [x63] [ReadOk [x64]]
                                      []).
  constructor.
Defined.

Lemma frame_same_contents (f g : Framer) (window : list byte) :
  pool_ok (pool f) -> pool_ok (pool g) -> same_contents f g ->
  same_contents (frame f window) (frame g window).
Proof.
  unfold same_contents, residual, records.
  intros Hf Hg [Hres Hrec].
  destruct (in_dec Byte.byte_eq_dec newline window) as [Hin|Hout].
  - destruct (last_occurrence newline window Hin) as (pre & post & -> & Hn).
    rewrite !frame_newline by assumption. cbn [stringbuf out].
    rewrite !records_snoc. unfold Buffer.Bytes in *.
    cbn [Buffer.Write Buffer.data].
    destruct (bufPool_Get_ok _ Hf) as [-> _].
    destruct (bufPool_Get_ok _ Hg) as [-> _].
    rewrite Hres, Hrec. auto.
  - rewrite !frame_no_newline by assumption. cbn [stringbuf out].
    unfold Buffer.Bytes in *. cbn [Buffer.Write Buffer.data].
    rewrite Hres. auto.
Qed.

Lemma frame_pool_ok (f : Framer) (window : list byte) :
  pool_ok (pool f) -> pool_ok (pool (frame f window)).
Proof. intros H. apply (frame_preserves f window H). Qed.

Lemma receive_loop_same_contents (conn : InConn) :
  forall f g,
    pool_ok (pool f) -> pool_ok (pool g) -> same_contents f g ->
    match receive_loop conn f, receive_loop conn g with
    | Some f', Some g' => same_contents f' g'
    | None, None => True
    | _, _ => False
    end.
Proof.
  induction conn as [|r conn IH]; intros f g Hf Hg Hs; [exact I|].
  destruct r as [window|window]; simpl.
  - apply IH; auto using frame_pool_ok, frame_same_contents.
  - exact Hs.
Qed.

Lemma flush_same_contents (f g : Framer) :
  same_contents f g -> records (flush f) = records (flush g).
Proof.
  unfold same_contents, residual, records, flush, Buffer.Len, len.
  intros [Hres Hrec]. unfold Buffer.Bytes in Hres. rewrite Hres.
  destruct (Buffer.data (stringbuf g)) as [|x l] eqn:E; simpl.
  - exact Hrec.
  - rewrite !records_snoc, Hrec, Hres, E. reflexivity.
Qed.

(** X2.  Buffer reuse is not observable: the records [receive] enqueues
    depend on the connection only, not on which recycled buffers the pool
    hands out nor on their capacities, as long as every pooled buffer was
    reset. *)
Theorem receive_ignores_pool (conn : InConn) (p q : Pool) :
  pool_ok p -> pool_ok q ->
  option_map records (receive conn p) = option_map records (receive conn q).
Proof.
  intros Hp Hq. unfold receive.
  destruct (receive_start_ok p Hp) as (Hp0 & Hdp & Hrp).
  destruct (receive_start_ok q Hq) as (Hq0 & Hdq & Hrq).
  assert (Hs : same_contents (receive_start p) (receive_start q))
    by (split; congruence).
  pose proof (receive_loop_same_contents conn _ _ Hp0 Hq0 Hs) as H.
  destruct (receive_loop conn (receive_start p)) as [f'|];
    destruct (receive_loop conn (receive_start q)) as [g'|];
    try contradiction; simpl; [|reflexivity].
  f_equal. apply flush_same_contents. exact H.
Qed.

Lemma receive_ignores_pool_witness :
  option_map records
    (receive [ReadOk [x61; x0a; x62]; ReadErr []]
             [Buffer.mk [] 7; Buffer.mk [] 1000000])
  = option_map records (receive [ReadOk [x61; x0a; x62]; ReadErr []] []).
Proof.
  apply (receive_ignores_pool [ReadOk [x61; x0a; x62]; ReadErr []]
                              [Buffer.mk [] 7; Buffer.mk [] 1000000] []).
  - repeat constructor.
  - constructor.
Defined.

Lemma frame_residual_no_newline (f : Framer) (window : list byte) :
  pool_ok (pool f) -> ~ In newline (residual f) ->
  ~ In newline (residual (frame f window)).
Proof.
  unfold residual, Buffer.Bytes. intros Hp Hr.
  destruct (in_dec Byte.byte_eq_dec newline window) as [Hin|Hout].
  - destruct (last_occurrence newline window Hin) as (pre & post & -> & Hn).
    rewrite frame_newline by assumption. simpl.
    destruct (bufPool_Get_ok _ Hp) as [-> _]. exact Hn.
  - rewrite frame_no_newline by assumption. simpl.
    intros H. apply in_app_or in H. tauto.
Qed.

Lemma receive_loop_residual (conn : InConn) :
  forall f g,
    receive_loop conn f = Some g ->
    pool_ok (pool f) -> ~ In newline (residual f) ->
    ~ In newline (residual g).
Proof.
  induction conn as [|r conn IH]; intros f g Hrun Hp Hr; [discriminate|].
  destruct r as [window|window]; simpl in Hrun.
  - apply (IH _ _ Hrun); auto using frame_pool_ok, frame_residual_no_newline.
  - inversion Hrun; subst. exact Hr.
Qed.

(** X3.  Every record [receive] enqueues ends with a newline, except
    possibly the last one; and a last record that was flushed without
    ending the loop on a newline contains no newline at all: it is the
    unterminated tail of the stream. *)
Theorem receive_only_tail_unterminated (conn : InConn) (pool0 : Pool)
        (f : Framer) :
  pool_ok pool0 ->
  receive conn pool0 = Some f ->
  exists rs tail,
    records f = rs ++ tail /\
    Forall ends_with_newline rs /\
    (tail = [] \/ exists t, tail = [t] /\ t <> [] /\ ~ In newline t).
Proof.
  intros Hp. unfold receive.
  destruct (receive_start_ok pool0 Hp) as (Hp0 & Hd0 & Hr0).
  destruct (receive_loop conn (receive_start pool0)) as [g|] eqn:Hg;
    [|discriminate].
  simpl. intros H. inversion H; subst f. clear H.
  assert (Hnl : Forall ends_with_newline (records g)).
  { apply (receive_loop_records conn _ _ Hg). rewrite Hr0. constructor. }
  assert (Hres : ~ In newline (residual g)).
  { apply (receive_loop_residual conn _ _ Hg Hp0). rewrite Hd0. intros []. }
  unfold flush, Buffer.Len, len.
  unfold residual, Buffer.Bytes in Hres.
  destruct (Buffer.data (stringbuf g)) as [|x l] eqn:E; simpl.
  - exists (records g), []. rewrite app_nil_r. auto.
  - exists (records g), [x :: l]. unfold records. simpl.
    rewrite records_snoc, E. split; [reflexivity|]. split; [exact Hnl|].
    right. exists (x :: l). split; [reflexivity|]. split; [discriminate|].
    exact Hres.
Qed.

Lemma receive_only_tail_unterminated_witness :
  exists rs tail,
    records (mkFramer (Buffer.mk [x62] 32768) []
                      [Buffer.mk [x61; x0a] 32768; Buffer.mk [x62] 32768])
    = rs ++ tail /\
    Forall ends_with_newline rs /\
    (tail = [] \/ exists t, tail = [t] /\ t <> [] /\ ~ In newline t).
Proof.
  apply (receive_only_tail_unterminated
           [ReadOk [x61; x0a; x62]; ReadErr []] []).
  - constructor.
  - vm_compute. reflexivity.
Defined.

Lemma frame_out_length (f : Framer) (window : list byte) :
  (length (out (frame f window)) <= S (length (out f)))%nat.
Proof.
  destruct (in_dec Byte.byte_eq_dec newline window) as [Hin|Hout].
  - destruct (last_occurrence newline window Hin) as (pre & post & -> & Hn).
    rewrite frame_newline by assumption. simpl. rewrite length_app. simpl. lia.
  - rewrite frame_no_newline by assumption. simpl. lia.
Qed.

Lemma receive_loop_out_length (conn : InConn) :
  forall f g,
    receive_loop conn f = Some g ->
    (S (length (out g)) <= length (out f) + length conn)%nat.
Proof.
  induction conn as [|r conn IH]; intros f g Hrun; [discriminate|].
  destruct r as [window|window]; simpl in Hrun.
  - apply IH in Hrun. pose proof (frame_out_length f window). simpl. lia.
  - inversion Hrun; subst. simpl. lia.
Qed.

(** X4.  [receive] enqueues at most one record per read: however many
    newlines the windows hold, a framer that has made n calls to [Read]
    (the failing one included) has enqueued at most n records, the final
    flush included. *)
Theorem receive_at_most_one_record_per_read (conn : InConn) (pool0 : Pool)
        (f : Framer) :
  receive conn pool0 = Some f ->
  (length (records f) <= length conn)%nat.
Proof.
  unfold receive.
  destruct (receive_loop conn (receive_start pool0)) as [g|] eqn:Hg;
    [|discriminate].
  simpl. intros H. inversion H; subst f. clear H.
  apply receive_loop_out_length in Hg.
  assert (H0 : out (receive_start pool0) = []).
  { unfold receive_start. destruct (bufPool_Get pool0). reflexivity. }
  rewrite H0 in Hg. simpl in Hg.
  unfold records. rewrite length_map. unfold flush.
  destruct (Buffer.Len (stringbuf g) >? 0); simpl;
    rewrite ?length_app; simpl; unfold Buf in *; lia.
Qed.

Lemma receive_at_most_one_record_per_read_witness :
  (length (records (mkFramer (Buffer.mk [x62] 32768) []
                      [Buffer.mk [x61; x0a] 32768; Buffer.mk [x62] 32768]))
   <= length [ReadOk [x61; x0a; x62]; ReadErr []])%nat.
Proof.
  apply (receive_at_most_one_record_per_read
           [ReadOk [x61; x0a; x62]; ReadErr []] []).
  vm_compute. reflexivity.
Defined.


(* ================================================================== *)
(** * More on the connection manager *)
(* ================================================================== *)

Lemma attempts_app (a b : list Event) :
  attempts (a ++ b) = attempts a ++ attempts b.
Proof.
  induction a as [|e a IH]; simpl; [reflexivity|].
  destruct e; simpl; rewrite IH; reflexivity.
Qed.

Lemma delivered_app (a b : list Event) :
  delivered (a ++ b) = delivered a ++ delivered b.
Proof.
  induction a as [|e a IH]; simpl; [reflexivity|].
  destruct e as [| | |c b0 [|]]; simpl; rewrite IH; reflexivity.
Qed.

Lemma closed_app (a b : list Event) :
  closed (a ++ b) = closed a ++ closed b.
Proof.
  induction a as [|e a IH]; simpl; [reflexivity|].
  destruct e; simpl; rewrite IH; reflexivity.
Qed.

Lemma closed_closing (o : option Conn) :
  closed match o with Some c0 => [EvClose c0] | None => [] end = held o.
Proof. destruct o; reflexivity. Qed.

Lemma attempts_closing (o : option Conn) :
  attempts match o with Some c0 => [EvClose c0] | None => [] end = [].
Proof. destruct o; reflexivity. Qed.

Lemma skipn_S_tl {A : Type} (n : nat) (l : list A) :
  skipn (S n) l = skipn n (tl l).
Proof. destruct l; [destruct n; reflexivity|reflexivity]. Qed.

Lemma conns_of_first_fail (n : nat) (l : list DialResult) (dt : Z) :
  hd (DialFail 0) l = DialFail dt ->
  conns_of (firstn (S n) l) = conns_of (firstn n (tl l)).
Proof.
  destruct l as [|r l]; simpl; [destruct n; reflexivity|].
  intros ->. reflexivity.
Qed.

Lemma conns_of_first_ok (l : list DialResult) (c : Conn) (dt : Z) :
  hd (DialFail 0) l = DialOk c dt -> conns_of (firstn 1 l) = [c].
Proof.
  destruct l as [|r l]; simpl; [discriminate|]. intros ->. reflexivity.
Qed.

Lemma same_identity_refl (w : Worker.t) : same_identity w w.
Proof. repeat split. Qed.

Lemma same_identity_trans (w1 w2 w3 : Worker.t) :
  same_identity w1 w2 -> same_identity w2 w3 -> same_identity w1 w3.
Proof.
  unfold same_identity. intros (A & B & C) (D & E & F).
  repeat split; congruence.
Qed.

(** What every returning run of the connect loop keeps and accounts for:
    the identity of the worker, the write attempts of the trace, and the
    connections (closed so far, then held) against the dials consumed. *)
Lemma connectLoop_accounts (fuel : nat) :
  forall ctx delay idx w s,
    match Worker.connectLoop fuel ctx delay idx w s with
    | (Ret (w', e), s') =>
        same_identity w w' /\
        attempts (trace s') = attempts (trace s) /\
        writes s' = writes s /\
        clock s <= clock s' /\
        (e <> None -> Worker.conn w' = Worker.conn w) /\
        exists n,
          dials s' = skipn n (dials s) /\
          closed (trace s') ++ held (Worker.conn w')
          = closed (trace s) ++ held (Worker.conn w)
            ++ conns_of (firstn n (dials s))
    | _ => True
    end.
Proof.
  induction fuel as [|fuel IH]; intros ctx delay idx w s; [exact I|].
  connect_cases ctx idx w s; cbv zeta.
  - cbn [trace dials writes clock Worker.conn].
    rewrite !attempts_app, !closed_app, attempts_closing, closed_closing.
    cbn [attempts closed]. rewrite !app_nil_r.
    split; [repeat split|]. split; [reflexivity|]. split; [reflexivity|].
    split; [lia|]. split; [congruence|].
    exists 1%nat. split; [reflexivity|].
    rewrite (conns_of_first_ok _ _ _ Hd), <- app_assoc. reflexivity.
  - cbn [trace dials writes clock Worker.conn Worker.set_target].
    rewrite !attempts_app, !closed_app. cbn [attempts closed].
    rewrite !app_nil_r.
    split; [repeat split|]. split; [reflexivity|]. split; [reflexivity|].
    split; [lia|]. split; [reflexivity|].
    exists 1%nat. split; [reflexivity|].
    rewrite (conns_of_first_fail 0 _ _ Hd). simpl. rewrite app_nil_r.
    reflexivity.
  - match goal with |- context [Worker.connectLoop fuel ctx ?d ?i ?w1 ?s1] =>
      specialize (IH ctx d i w1 s1);
      destruct (Worker.connectLoop fuel ctx d i w1 s1) as [[[w' e]|k| |] s']
    end; try exact I.
    destruct IH as (Hid & Hat & Hw & Hclk & Hconn & n & Hds & Hcl).
    cbn [trace dials writes clock Worker.conn Worker.set_target] in *.
    rewrite !attempts_app in Hat. rewrite !closed_app in Hcl.
    cbn [attempts closed] in Hat, Hcl. rewrite !app_nil_r in Hat, Hcl.
    split; [exact Hid|]. split; [exact Hat|]. split; [exact Hw|].
    split; [lia|]. split; [exact Hconn|].
    exists (S n). rewrite skipn_S_tl. split; [exact Hds|].
    rewrite (conns_of_first_fail n _ _ Hd). exact Hcl.
  - exact I.
Qed.

Lemma ConnectIfNeeded_accounts (fuel : nat) (ctx : Context) (w : Worker.t)
      (s : World) :
  match Worker.ConnectIfNeeded fuel ctx w s with
  | (Ret (w', e), s') =>
      same_identity w w' /\
      attempts (trace s') = attempts (trace s) /\
      writes s' = writes s /\
      clock s <= clock s' /\
      exists n,
        dials s' = skipn n (dials s) /\
        closed (trace s') ++ held (Worker.conn w')
        = closed (trace s) ++ held (Worker.conn w)
          ++ conns_of (firstn n (dials s))
  | _ => True
  end.
Proof.
  unfold Worker.ConnectIfNeeded.
  destruct (Worker.conn w) as [c|] eqn:Hconn.
  - run. destruct (clock s - Worker.lastReconnect w >? 5 * Minute).
    + unfold Worker.Reconnect, Worker.Close. rewrite Hconn. run.
      unfold Worker.ConnectWithRetries.
      match goal with |- context [Worker.connectLoop fuel ctx ?d ?i ?w1 ?s1] =>
        pose proof (connectLoop_accounts fuel ctx d i w1 s1) as H;
        destruct (Worker.connectLoop fuel ctx d i w1 s1) as [[[w' e]|k| |] s']
      end; try exact I.
      destruct H as (Hid & Hat & Hw & Hclk & _ & n & Hds & Hcl).
      cbn [trace dials writes clock Worker.conn Worker.set_conn] in *.
      rewrite attempts_app in Hat. rewrite closed_app in Hcl.
      cbn [attempts closed held] in Hat, Hcl. rewrite app_nil_r in Hat.
      split; [exact Hid|]. split; [exact Hat|]. split; [exact Hw|].
      split; [exact Hclk|]. exists n. split; [exact Hds|].
      rewrite Hcl, <- app_assoc. reflexivity.
    + cbn. split; [apply same_identity_refl|].
      split; [reflexivity|]. split; [reflexivity|]. split; [lia|].
      exists 0%nat. rewrite Hconn. simpl. rewrite ?app_nil_r.
      split; reflexivity.
  - unfold Worker.ConnectWithRetries.
    pose proof (connectLoop_accounts fuel ctx (2 * Second)
                  (Worker.targetIdx w) w s) as H.
    destruct (Worker.connectLoop fuel ctx (2 * Second) (Worker.targetIdx w)
                                 w s) as [[[w' e]|k| |] s']; try exact I.
    destruct H as (Hid & Hat & Hw & Hclk & _ & n & Hds & Hcl).
    rewrite Hconn in Hcl.
    split; [exact Hid|]. split; [exact Hat|]. split; [exact Hw|].
    split; [exact Hclk|]. exists n. split; [exact Hds|exact Hcl].
Qed.

Lemma firstn_plus {A : Type} (n m : nat) (l : list A) :
  firstn (n + m) l = firstn n l ++ firstn m (skipn n l).
Proof.
  revert l. induction n as [|n IH]; intros l; [reflexivity|].
  destruct l as [|x l]; simpl.
  - destruct m; reflexivity.
  - rewrite IH. reflexivity.
Qed.

Lemma conns_of_app (a b : list DialResult) :
  conns_of (a ++ b) = conns_of a ++ conns_of b.
Proof.
  induction a as [|r a IH]; simpl; [reflexivity|].
  destruct r; simpl; rewrite IH; reflexivity.
Qed.

(** What every returning run of write-with-retry has done: [k] failed
    attempts and one successful attempt, each with the whole record, the
    writes and dials it consumed, and the connections it closed. *)
Lemma WriteWithRetries_accounts (fuel : nat) :
  forall ctx b w s,
    match Worker.WriteWithRetries fuel ctx b w s with
    | (Ret (w', r), s') =>
        same_identity w w' /\
        r = (len b, None) /\
        clock s <= clock s' /\
        (exists k,
            attempts (trace s')
            = attempts (trace s) ++ repeat (b, false) k ++ [(b, true)] /\
            writes s' = skipn (S k) (writes s)) /\
        exists n,
          dials s' = skipn n (dials s) /\
          closed (trace s') ++ held (Worker.conn w')
          = closed (trace s) ++ held (Worker.conn w)
            ++ conns_of (firstn n (dials s))
    | _ => True
    end.
Proof.
  induction fuel as [|fuel IH]; intros ctx b w s; [exact I|].
  rewrite WriteWithRetries_round.
  pose proof (ConnectIfNeeded_accounts (S fuel) ctx w s) as H.
  destruct (Worker.ConnectIfNeeded (S fuel) ctx w s)
    as [[[w1 e]|k| |] s1]; try exact I.
  destruct H as (Hid & Hat & Hw & Hclk & n1 & Hds & Hcl).
  destruct (Worker.conn w1) as [c|] eqn:Hc1; [|exact I].
  destruct (hd (WriteFail 0 0) (writes s1)) as [dt|n dt].
  - cbn [trace dials writes clock].
    rewrite attempts_app, closed_app. cbn [attempts closed].
    rewrite app_nil_r, Hc1.
    split; [exact Hid|]. split; [reflexivity|]. split; [lia|]. split.
    + exists 0%nat. rewrite Hat, Hw. split; [reflexivity|].
      destruct (writes s); reflexivity.
    + exists n1. split; [exact Hds|exact Hcl].
  - match goal with
    | |- context [Worker.WriteWithRetries fuel ctx b ?w2 ?s2] =>
        specialize (IH ctx b w2 s2);
        destruct (Worker.WriteWithRetries fuel ctx b w2 s2)
          as [[[w' r]|k| |] s']
    end; try exact I.
    destruct IH as (Hid2 & Hr & Hclk2 & (k & Hat2 & Hw2) & n2 & Hds2 & Hcl2).
    cbn [trace dials writes clock Worker.conn Worker.set_conn] in *.
    rewrite !attempts_app in Hat2. rewrite !closed_app in Hcl2.
    cbn [attempts closed held] in Hat2, Hcl2.
    rewrite !app_nil_r in Hat2. rewrite !app_nil_r in Hcl2.
    cbn [app] in Hcl2.
    split.
    { apply (same_identity_trans _ _ _ Hid). exact Hid2. }
    split; [exact Hr|]. split; [lia|]. split.
    + exists (S k). rewrite Hat2, Hat, Hw2, Hw, <- !app_assoc.
      split; [reflexivity|]. rewrite <- skipn_S_tl. reflexivity.
    + exists (n1 + n2)%nat. rewrite Hds2, Hds, skipn_skipn.
      split; [f_equal; lia|].
      rewrite firstn_plus, conns_of_app, <- Hds.
      cbn [held] in Hcl.
      rewrite Hcl2, Hcl, <- !app_assoc. reflexivity.
Qed.

(** X5.  A worker keeps its identity: whatever [ConnectWithRetries],
    [ConnectIfNeeded] or [WriteWithRetries] does to its connection and
    current target, a run that returns leaves [id], the target list and
    the primary target index as they were. *)
Theorem worker_identity_is_kept :
  (forall fuel ctx w s w' e s',
      Worker.ConnectWithRetries fuel ctx w s = (Ret (w', e), s') ->
      same_identity w w') /\
  (forall fuel ctx w s w' e s',
      Worker.ConnectIfNeeded fuel ctx w s = (Ret (w', e), s') ->
      same_identity w w') /\
  (forall fuel ctx b w s w' r s',
      Worker.WriteWithRetries fuel ctx b w s = (Ret (w', r), s') ->
      same_identity w w').
Proof.
  split; [|split].
  - intros fuel ctx w s w' e s' H.
    pose proof (connectLoop_accounts fuel ctx (2 * Second)
                  (Worker.targetIdx w) w s) as Hacc.
    unfold Worker.ConnectWithRetries in H. rewrite H in Hacc. apply Hacc.
  - intros fuel ctx w s w' e s' H.
    pose proof (ConnectIfNeeded_accounts fuel ctx w s) as Hacc.
    rewrite H in Hacc. apply Hacc.
  - intros fuel ctx b w s w' r s' H.
    pose proof (WriteWithRetries_accounts fuel ctx b w s) as Hacc.
    rewrite H in Hacc. apply Hacc.
Qed.

Lemma worker_identity_is_kept_witness :
  same_identity
    (Worker.mk 7 ["a:1"%string; "b:2"%string] EmptyString 1 None 0)
    (Worker.mk 7 ["a:1"%string; "b:2"%string] "a:1"%string 1 (Some 4%nat)
               2000000001).
Proof.
  apply (proj1 worker_identity_is_kept 2%nat CtxPool
           (Worker.mk 7 ["a:1"%string; "b:2"%string] EmptyString 1 None 0)
           (mkWorld 0 None [DialFail 1; DialOk 4%nat 0] [] [2] [])
           _ None
           (mkWorld 2000000001 None [] [] []
                    [EvDial "b:2"%string; EvSleep 2000000000;
                     EvDial "a:1"%string])).
  vm_compute. reflexivity.
Defined.

Lemma delivered_of_attempts (tr : list Event) :
  delivered tr = map fst (filter snd (attempts tr)).
Proof.
  induction tr as [|e tr IH]; [reflexivity|].
  destruct e as [| | |c b [|]]; simpl; rewrite ?IH; reflexivity.
Qed.

Lemma filter_failed (b : list byte) (k : nat) :
  filter snd (repeat (b, false) k) = [].
Proof. induction k as [|k IH]; [reflexivity|exact IH]. Qed.

(** X6.  Write-with-retry never fails and never sends part of a record:
    a run that returns reports the full length and a nil error, every
    [conn.Write] it made was handed the whole record, all attempts but the
    last failed and the last succeeded; so the record was delivered
    exactly once in full, after any number of failed (possibly partial)
    attempts on connections that were then closed. *)
Theorem write_attempts_whole_record (fuel : nat) (ctx : Context)
        (b : list byte) (w : Worker.t) (s : World)
        (w' : Worker.t) (r : Z * error) (s' : World) :
  Worker.WriteWithRetries fuel ctx b w s = (Ret (w', r), s') ->
  r = (len b, None) /\
  (exists k,
      attempts (trace s')
      = attempts (trace s) ++ repeat (b, false) k ++ [(b, true)]) /\
  delivered (trace s') = delivered (trace s) ++ [b].
Proof.
  intros H. pose proof (WriteWithRetries_accounts fuel ctx b w s) as Hacc.
  rewrite H in Hacc.
  destruct Hacc as (_ & Hr & _ & (k & Hat & _) & _).
  split; [exact Hr|]. split; [exists k; exact Hat|].
  rewrite !delivered_of_attempts, Hat, !filter_app, filter_failed, !map_app.
  reflexivity.
Qed.

Lemma write_attempts_whole_record_witness :
  (len [x61; x0a], @None GoError) = (len [x61; x0a], None) /\
  (exists k,
      attempts [EvDial "a:1"%string; EvWrite 1%nat [x61; x0a] false;
                EvClose 1%nat; EvDial "a:1"%string;
                EvWrite 2%nat [x61; x0a] true]
      = attempts [] ++ repeat ([x61; x0a], false) k ++ [([x61; x0a], true)]) /\
  delivered [EvDial "a:1"%string; EvWrite 1%nat [x61; x0a] false;
             EvClose 1%nat; EvDial "a:1"%string;
             EvWrite 2%nat [x61; x0a] true]
  = delivered [] ++ [[x61; x0a]].
Proof.
  apply (write_attempts_whole_record 2 CtxTODO [x61; x0a]
           (Worker.mk 1 ["a:1"%string] EmptyString 0 None 0)
           (mkWorld 0 None [DialOk 1%nat 0; DialOk 2%nat 0]
                    [WriteFail 1 0; WriteOk 0] [] [])
           (Worker.mk 1 ["a:1"%string] "a:1"%string 0 (Some 2%nat) 0)
           (len [x61; x0a], None)
           (mkWorld 0 None [] [] []
                    [EvDial "a:1"%string; EvWrite 1%nat [x61; x0a] false;
                     EvClose 1%nat; EvDial "a:1"%string;
                     EvWrite 2%nat [x61; x0a] true])).
  vm_compute. reflexivity.
Defined.

(** X7.  No connection is leaked and none is closed twice: over a run of
    connect-with-retry or of write-with-retry that returns, the
    connections closed so far followed by the one the worker holds are
    the ones closed and held before, followed by the connections the
    consumed dials established, in that order. *)
Theorem connections_are_accounted_for :
  (forall fuel ctx w s w' e s',
      Worker.ConnectWithRetries fuel ctx w s = (Ret (w', e), s') ->
      exists n,
        dials s' = skipn n (dials s) /\
        closed (trace s') ++ held (Worker.conn w')
        = closed (trace s) ++ held (Worker.conn w)
          ++ conns_of (firstn n (dials s))) /\
  (forall fuel ctx b w s w' r s',
      Worker.WriteWithRetries fuel ctx b w s = (Ret (w', r), s') ->
      exists n,
        dials s' = skipn n (dials s) /\
        closed (trace s') ++ held (Worker.conn w')
        = closed (trace s) ++ held (Worker.conn w)
          ++ conns_of (firstn n (dials s))).
Proof.
  split.
  - intros fuel ctx w s w' e s' H.
    pose proof (connectLoop_accounts fuel ctx (2 * Second)
                  (Worker.targetIdx w) w s) as Hacc.
    unfold Worker.ConnectWithRetries in H. rewrite H in Hacc.
    destruct Hacc as (_ & _ & _ & _ & _ & Hn). exact Hn.
  - intros fuel ctx b w s w' r s' H.
    pose proof (WriteWithRetries_accounts fuel ctx b w s) as Hacc.
    rewrite H in Hacc.
    destruct Hacc as (_ & _ & _ & _ & Hn). exact Hn.
Qed.

Lemma connections_are_accounted_for_witness :
  exists n,
    dials (mkWorld 0 None [DialOk 3%nat 0] [] []
                   [EvClose 9%nat; EvDial "a:1"%string;
                    EvWrite 1%nat [x61; x0a] false;
                    EvClose 1%nat; EvDial "a:1"%string;
                    EvWrite 2%nat [x61; x0a] true])
    = skipn n [DialOk 1%nat 0; DialOk 2%nat 0; DialOk 3%nat 0] /\
    closed [EvClose 9%nat; EvDial "a:1"%string;
            EvWrite 1%nat [x61; x0a] false;
            EvClose 1%nat; EvDial "a:1"%string;
            EvWrite 2%nat [x61; x0a] true]
    ++ held (Some 2%nat)
    = closed [EvClose 9%nat] ++ held None
      ++ conns_of (firstn n [DialOk 1%nat 0; DialOk 2%nat 0; DialOk 3%nat 0]).
Proof.
  apply (proj2 connections_are_accounted_for 2%nat CtxTODO [x61; x0a]
           (Worker.mk 1 ["a:1"%string] EmptyString 0 None 0)
           (mkWorld 0 None [DialOk 1%nat 0; DialOk 2%nat 0; DialOk 3%nat 0]
                    [WriteFail 1 0; WriteOk 0] [] [EvClose 9%nat])
           (Worker.mk 1 ["a:1"%string] "a:1"%string 0 (Some 2%nat) 0)
           (len [x61; x0a], None)
           (mkWorld 0 None [DialOk 3%nat 0] [] []
                    [EvClose 9%nat; EvDial "a:1"%string;
                     EvWrite 1%nat [x61; x0a] false;
                     EvClose 1%nat; EvDial "a:1"%string;
                     EvWrite 2%nat [x61; x0a] true])).
  vm_compute. reflexivity.
Defined.

(** X8.  Write-with-retry stops at the first write that succeeds: when
    the next writes fail k times and the one after succeeds, while the
    targets accept every dial, a run with more than k units of fuel
    returns after exactly k failed attempts and one successful attempt,
    and leaves the rest of the write script untouched. *)
Theorem write_retries_until_success (fails : list (Z * Z)) :
  forall fuel ctx b w s dt wrest,
    (length fails < fuel)%nat ->
    writes s = map (fun f => WriteFail (fst f) (snd f)) fails
               ++ WriteOk dt :: wrest ->
    dials_succeed s ->
    (length fails < length (dials s))%nat ->
    valid_primary w ->
    exists w' s',
      Worker.WriteWithRetries fuel ctx b w s
      = (Ret (w', (len b, None)), s') /\
      attempts (trace s')
      = attempts (trace s) ++ repeat (b, false) (length fails) ++ [(b, true)] /\
      writes s' = wrest.
Proof.
  unfold valid_primary.
  induction fails as [|f fails IH];
    intros fuel ctx b w s dt wrest Hfuel Hw Hok Hlen Hi;
    (destruct fuel as [|fuel]; [simpl in Hfuel; lia|]);
    rewrite WriteWithRetries_round;
    pose proof (ConnectIfNeeded_accounts (S fuel) ctx w s) as Hacc;
    (destruct (ConnectIfNeeded_succeeds fuel ctx w s Hok) as
        (w1 & s1 & Heq & Hc1 & Hts & Hti & Hws & Hds);
     [intro E; rewrite E in Hlen; simpl in Hlen; lia|exact Hi|]);
    rewrite Heq in Hacc; destruct Hacc as (_ & Hat & _);
    rewrite Heq; cbv beta iota;
    (destruct (Worker.conn w1) as [c|]; [|congruence]);
    rewrite Hws, Hw; cbn [map app hd tl].
  - eexists. eexists. split; [reflexivity|]. cbn [trace writes].
    rewrite attempts_app, Hat. split; reflexivity.
  - edestruct (IH fuel ctx b (Worker.set_conn w1 None)) as
        (w' & s' & Hrun & Hat' & Hw');
      [ | | | | | exists w', s'; split; [exact Hrun|] ].
    + simpl in Hfuel. lia.
    + cbn [writes]. reflexivity.
    + unfold dials_succeed in *. cbn [dials].
      destruct Hds as [->| ->]; [assumption|].
      destruct (dials s); [assumption|]. inversion Hok; assumption.
    + cbn [dials]. simpl in Hlen.
      destruct Hds as [->| ->]; [lia|].
      destruct (dials s); simpl in *; lia.
    + cbn. rewrite Hts, Hti. exact Hi.
    + rewrite Hat', Hw'. cbn [trace]. rewrite !attempts_app, Hat.
      cbn [attempts repeat List.length]. rewrite app_nil_r, <- !app_assoc.
      split; reflexivity.
Qed.

Lemma write_retries_until_success_witness :
  exists w' s',
    Worker.WriteWithRetries 3 CtxTODO [x61; x0a]
      (Worker.mk 1 ["a:1"%string] EmptyString 0 None 0)
      (mkWorld 0 None [DialOk 1%nat 0; DialOk 2%nat 0; DialOk 3%nat 0]
               (map (fun f => WriteFail (fst f) (snd f)) [(1, 0); (0, 0)]
                ++ WriteOk 0 :: [WriteFail 0 0]) [] [])
    = (Ret (w', (len [x61; x0a], None)), s') /\
    attempts (trace s')
    = attempts [] ++ repeat ([x61; x0a], false) (length [(1, 0); (0, 0)])
      ++ [([x61; x0a], true)] /\
    writes s' = [WriteFail 0 0].
Proof.
  apply (write_retries_until_success [(1, 0); (0, 0)] 3 CtxTODO [x61; x0a]
           (Worker.mk 1 ["a:1"%string] EmptyString 0 None 0)
           (mkWorld 0 None [DialOk 1%nat 0; DialOk 2%nat 0; DialOk 3%nat 0]
                    (map (fun f => WriteFail (fst f) (snd f)) [(1, 0); (0, 0)]
                     ++ WriteOk 0 :: [WriteFail 0 0]) [] [])
           0 [WriteFail 0 0]).
  - simpl. lia.
  - reflexivity.
  - repeat constructor; eexists; eexists; reflexivity.
  - simpl. lia.
  - unfold valid_primary, len. simpl. lia.
Defined.

Lemma done_at_later (t now dt : Z) :
  t <= now -> done_at CtxPool (Some t) (now + Z.max 0 dt) = true.
Proof. intros H. unfold done_at. apply Z.leb_le. lia. Qed.

(** X9.  Once the pool context is cancelled, connect-with-retry makes
    exactly one dial, to the primary target, and never sleeps: it returns
    the new connection if the dial succeeds, and otherwise returns the
    dial error at once, leaving the connection handle as it was and
    closing nothing. *)
Theorem connect_gives_up_once_cancelled (fuel : nat) (w : Worker.t)
        (s : World) (t : Z) :
  cancelAt s = Some t -> t <= clock s -> valid_primary w ->
  exists w' e s',
    Worker.ConnectWithRetries (S fuel) CtxPool w s = (Ret (w', e), s') /\
    dialled (trace s')
    = dialled (trace s)
      ++ [nth (Z.to_nat (Worker.targetIdx w)) (Worker.targets w) EmptyString] /\
    sleeps (trace s') = sleeps (trace s) /\
    rands s' = rands s /\
    ((e = None /\ exists c, Worker.conn w' = Some c) \/
     (e <> None /\ Worker.conn w' = Worker.conn w /\
      closed (trace s') = closed (trace s))).
Proof.
  unfold valid_primary. intros Hat Ht Hi. unfold Worker.ConnectWithRetries.
  destruct (hd (DialFail 0) (dials s)) as [c dt|dt] eqn:Hd.
  - rewrite (connectLoop_success fuel CtxPool _ _ w s c dt Hi Hd). cbv zeta.
    eexists. eexists. eexists. split; [reflexivity|].
    cbn [trace rands Worker.conn].
    rewrite !dialled_app, !sleeps_app, dialled_closing, sleeps_closing.
    cbn [dialled sleeps]. rewrite !app_nil_r.
    repeat split. left. split; [reflexivity|]. exists c. reflexivity.
  - rewrite (connectLoop_cancelled fuel CtxPool _ _ w s dt Hi Hd)
      by (rewrite Hat; apply done_at_later; exact Ht).
    cbv zeta. eexists. eexists. eexists. split; [reflexivity|].
    cbn [trace rands Worker.conn Worker.set_target].
    rewrite !dialled_app, !sleeps_app, !closed_app.
    cbn [dialled sleeps closed]. rewrite !app_nil_r.
    repeat split. right. repeat split. discriminate.
Qed.

Lemma connect_gives_up_once_cancelled_witness :
  exists w' e s',
    Worker.ConnectWithRetries 1 CtxPool
      (Worker.mk 1 ["a:1"%string; "b:2"%string] EmptyString 1 None 0)
      (mkWorld 10 (Some 5) [DialFail 1; DialOk 2%nat 0] [] [0] [])
    = (Ret (w', e), s') /\
    dialled (trace s') = dialled [] ++ ["b:2"%string] /\
    sleeps (trace s') = sleeps [] /\
    rands s' = [0] /\
    ((e = None /\ exists c, Worker.conn w' = Some c) \/
     (e <> None /\ Worker.conn w' = None /\ closed (trace s') = closed [])).
Proof.
  apply (connect_gives_up_once_cancelled 0
           (Worker.mk 1 ["a:1"%string; "b:2"%string] EmptyString 1 None 0)
           (mkWorld 10 (Some 5) [DialFail 1; DialOk 2%nat 0] [] [0] []) 5).
  - reflexivity.
  - simpl. lia.
  - unfold valid_primary, len. simpl. lia.
Defined.

(** What a returning run of the connect loop leaves in the worker: the
    current target is the address of the last dial, and a run without
    error holds a connection made at the time it returned. *)
Lemma connectLoop_target (fuel : nat) :
  forall ctx delay idx w s,
    match Worker.connectLoop fuel ctx delay idx w s with
    | (Ret (w', e), s') =>
        (exists pre,
            dialled (trace s')
            = dialled (trace s) ++ pre ++ [Worker.target w']) /\
        (e = None ->
         Worker.conn w' <> None /\ Worker.lastReconnect w' = clock s')
    | _ => True
    end.
Proof.
  induction fuel as [|fuel IH]; intros ctx delay idx w s; [exact I|].
  connect_cases ctx idx w s; cbv zeta.
  - cbn [trace clock Worker.conn Worker.target Worker.lastReconnect].
    rewrite !dialled_app, dialled_closing. cbn [dialled].
    rewrite !app_nil_r. split; [exists []; reflexivity|].
    intros _. split; [discriminate|reflexivity].
  - cbn [trace Worker.target Worker.set_target].
    rewrite !dialled_app. cbn [dialled].
    split; [exists []; reflexivity|discriminate].
  - match goal with |- context [Worker.connectLoop fuel ctx ?d ?i ?w1 ?s1] =>
      specialize (IH ctx d i w1 s1);
      destruct (Worker.connectLoop fuel ctx d i w1 s1) as [[[w' e]|k| |] s']
    end; try exact I.
    destruct IH as ((pre & Hpre) & Hfresh).
    cbn [trace] in Hpre. rewrite !dialled_app in Hpre.
    cbn [dialled] in Hpre. rewrite app_nil_r in Hpre.
    split; [|exact Hfresh].
    match type of Hpre with
    | _ = (_ ++ ?first) ++ _ => exists (first ++ pre)
    end.
    rewrite Hpre, <- !app_assoc. reflexivity.
  - exact I.
Qed.

(** X10.  After connect-with-retry returns, with or without error, the
    worker's [target] names the address of the last dial it made; when it
    returns without error the worker holds a connection and its reconnect
    timer starts at the time of return. *)
Theorem target_names_last_dial (fuel : nat) (ctx : Context) (w : Worker.t)
        (s : World) (w' : Worker.t) (e : error) (s' : World) :
  Worker.ConnectWithRetries fuel ctx w s = (Ret (w', e), s') ->
  (exists pre,
      dialled (trace s') = dialled (trace s) ++ pre ++ [Worker.target w']) /\
  (e = None ->
   Worker.conn w' <> None /\ Worker.lastReconnect w' = clock s').
Proof.
  intros H.
  pose proof (connectLoop_target fuel ctx (2 * Second) (Worker.targetIdx w)
                                 w s) as Ht.
  unfold Worker.ConnectWithRetries in H. rewrite H in Ht. exact Ht.
Qed.

Lemma target_names_last_dial_witness :
  (exists pre,
      dialled [EvDial "b:2"%string; EvSleep 2000000000; EvDial "a:1"%string]
      = dialled [] ++ pre ++ ["a:1"%string]) /\
  (@None GoError = None ->
   Some 4%nat <> None /\ 2000000001 = 2000000001).
Proof.
  apply (target_names_last_dial 2%nat CtxPool
           (Worker.mk 7 ["a:1"%string; "b:2"%string] EmptyString 1 None 0)
           (mkWorld 0 None [DialFail 1; DialOk 4%nat 0] [] [2] [])
           (Worker.mk 7 ["a:1"%string; "b:2"%string] "a:1"%string 1
                      (Some 4%nat) 2000000001)
           None
           (mkWorld 2000000001 None [] [] []
                    [EvDial "b:2"%string; EvSleep 2000000000;
                     EvDial "a:1"%string])).
  vm_compute. reflexivity.
Defined.

(** X11.  A worker whose dial succeeds at the first attempt is connected
    to its primary target: this holds when it connects from scratch and
    when [ConnectIfNeeded] reconnects after 5 minutes (the failback), so
    [isConnectedToPrimary] then answers true. *)
Theorem first_dial_success_is_primary (fuel : nat) (ctx : Context)
        (w : Worker.t) (s : World) (c : Conn) (dt : Z) :
  valid_primary w ->
  hd (DialFail 0) (dials s) = DialOk c dt ->
  Worker.conn w = None \/ 5 * Minute < clock s - Worker.lastReconnect w ->
  exists w' s',
    Worker.ConnectIfNeeded (S fuel) ctx w s = (Ret (w', None), s') /\
    Worker.conn w' = Some c /\
    isConnectedToPrimary w' = Ret true.
Proof.
  unfold valid_primary. intros Hi Hd Hwhen.
  assert (Hprim : forall o now,
             isConnectedToPrimary
               (Worker.mk (Worker.id w) (Worker.targets w)
                  (nth (Z.to_nat (Worker.targetIdx w)) (Worker.targets w)
                       EmptyString)
                  (Worker.targetIdx w) o now) = Ret true).
  { intros o now. unfold isConnectedToPrimary. cbn.
    rewrite (in_range _ _ Hi), String.eqb_refl. reflexivity. }
  unfold Worker.ConnectIfNeeded.
  destruct (Worker.conn w) as [c0|] eqn:Hconn.
  - destruct Hwhen as [Hn|Hexp]; [discriminate|]. run.
    assert (E : (clock s - Worker.lastReconnect w >? 5 * Minute) = true)
      by lia.
    rewrite E. unfold Worker.Reconnect, Worker.Close. rewrite Hconn. run.
    unfold Worker.ConnectWithRetries.
    erewrite connectLoop_success by (try exact Hi; exact Hd). cbv zeta.
    eexists. eexists. split; [reflexivity|]. split; [reflexivity|].
    apply Hprim.
  - unfold Worker.ConnectWithRetries.
    erewrite connectLoop_success by (try exact Hi; exact Hd). cbv zeta.
    eexists. eexists. split; [reflexivity|]. split; [reflexivity|].
    apply Hprim.
Qed.

Lemma first_dial_success_is_primary_witness :
  exists w' s',
    Worker.ConnectIfNeeded 1 CtxPool
      (Worker.mk 1 ["a:1"%string; "b:2"%string] "b:2"%string 0 (Some 4%nat) 0)
      (mkWorld (6 * Minute) None [DialOk 5%nat 0] [] [] [])
    = (Ret (w', None), s') /\
    Worker.conn w' = Some 5%nat /\
    isConnectedToPrimary w' = Ret true.
Proof.
  apply (first_dial_success_is_primary 0 CtxPool
           (Worker.mk 1 ["a:1"%string; "b:2"%string] "b:2"%string 0
                      (Some 4%nat) 0)
           (mkWorld (6 * Minute) None [DialOk 5%nat 0] [] [] []) 5%nat 0).
  - unfold valid_primary, len. simpl. lia.
  - reflexivity.
  - right. vm_compute. reflexivity.
Defined.

(** X12.  [ConnectIfNeeded] is idempotent on success: called again at
    the time a call returned without error, with whatever context, it
    changes neither the worker nor the world and dials nothing. *)
Theorem ConnectIfNeeded_twice (fuel fuel' : nat) (ctx ctx' : Context)
        (w : Worker.t) (s : World) (w' : Worker.t) (s' : World) :
  Worker.ConnectIfNeeded fuel ctx w s = (Ret (w', None), s') ->
  Worker.ConnectIfNeeded fuel' ctx' w' s' = (Ret (w', None), s').
Proof.
  assert (Hnoop : forall w1 s1,
             Worker.conn w1 <> None ->
             clock s1 - Worker.lastReconnect w1 <= 5 * Minute ->
             Worker.ConnectIfNeeded fuel' ctx' w1 s1 = (Ret (w1, None), s1)).
  { intros w1 s1 Hc Hle. unfold Worker.ConnectIfNeeded.
    destruct (Worker.conn w1); [|congruence]. run.
    assert (E : (clock s1 - Worker.lastReconnect w1 >? 5 * Minute) = false)
      by lia.
    rewrite E. reflexivity. }
  assert (Hfresh : forall w1 s1,
             Worker.ConnectWithRetries fuel ctx w1 s1 = (Ret (w', None), s') ->
             Worker.ConnectIfNeeded fuel' ctx' w' s' = (Ret (w', None), s')).
  { intros w1 s1 H.
    pose proof (connectLoop_target fuel ctx (2 * Second)
                  (Worker.targetIdx w1) w1 s1) as Ht.
    unfold Worker.ConnectWithRetries in H. rewrite H in Ht.
    destruct Ht as (_ & Hf). destruct (Hf eq_refl) as (Hc & Hl).
    apply Hnoop; [exact Hc|]. rewrite Hl. unfold Minute, Second. lia. }
  unfold Worker.ConnectIfNeeded at 1.
  destruct (Worker.conn w) as [c|] eqn:Hconn.
  - run. destruct (clock s - Worker.lastReconnect w >? 5 * Minute) eqn:E.
    + unfold Worker.Reconnect, Worker.Close. rewrite Hconn. run.
      apply Hfresh.
    + intros H. inversion H; subst. apply Hnoop; [congruence|lia].
  - apply Hfresh.
Qed.

Lemma ConnectIfNeeded_twice_witness :
  Worker.ConnectIfNeeded 5 CtxTODO
    (Worker.mk 1 ["a:1"%string] "a:1"%string 0 (Some 3%nat) 7)
    (mkWorld 7 None [DialOk 4%nat 0] [] [] [EvDial "a:1"%string])
  = (Ret (Worker.mk 1 ["a:1"%string] "a:1"%string 0 (Some 3%nat) 7, None),
     mkWorld 7 None [DialOk 4%nat 0] [] [] [EvDial "a:1"%string]).
Proof.
  apply (ConnectIfNeeded_twice 1 5 CtxPool CtxTODO
           (Worker.mk 1 ["a:1"%string] EmptyString 0 None 0)
           (mkWorld 0 None [DialOk 3%nat 7; DialOk 4%nat 0] [] [] [])).
  vm_compute. reflexivity.
Defined.

Lemma connectLoop_no_panic (fuel : nat) :
  forall ctx delay idx w s,
    0 <= idx < len (Worker.targets w) ->
    is_panic (fst (Worker.connectLoop fuel ctx delay idx w s)) = false.
Proof.
  induction fuel as [|fuel IH]; intros ctx delay idx w s Hi0; [reflexivity|].
  connect_cases ctx idx w s; cbv zeta; try reflexivity.
  - apply IH. cbn. apply Z.mod_pos_bound. lia.
  - lia.
Qed.

Lemma ConnectIfNeeded_no_panic (fuel : nat) (ctx : Context) (w : Worker.t)
      (s : World) :
  valid_primary w ->
  is_panic (fst (Worker.ConnectIfNeeded fuel ctx w s)) = false.
Proof.
  unfold valid_primary. intros Hi. unfold Worker.ConnectIfNeeded.
  destruct (Worker.conn w) as [c|] eqn:Hconn.
  - run. destruct (clock s - Worker.lastReconnect w >? 5 * Minute).
    + unfold Worker.Reconnect, Worker.Close. rewrite Hconn. run.
      apply connectLoop_no_panic. exact Hi.
    + reflexivity.
  - apply connectLoop_no_panic. exact Hi.
Qed.

Lemma WriteWithRetries_no_panic (fuel : nat) :
  forall ctx b w s,
    valid_primary w -> never_cancelled ctx s ->
    is_panic (fst (Worker.WriteWithRetries fuel ctx b w s)) = false.
Proof.
  induction fuel as [|fuel IH]; intros ctx b w s Hi Hlive; [reflexivity|].
  rewrite WriteWithRetries_round.
  pose proof (ConnectIfNeeded_no_panic (S fuel) ctx w s Hi) as Hnp.
  pose proof (ConnectIfNeeded_live (S fuel) ctx w s Hlive) as Hl.
  pose proof (ConnectIfNeeded_cancelAt (S fuel) ctx w s) as Hat.
  pose proof (ConnectIfNeeded_accounts (S fuel) ctx w s) as Hacc.
  destruct (Worker.ConnectIfNeeded (S fuel) ctx w s)
    as [[[w1 e]|k| |] s1]; cbn [fst snd] in *; try reflexivity;
    [|discriminate].
  destruct Hl as [Hconn _]. destruct Hacc as ((_ & Hts & Hti) & _).
  destruct (Worker.conn w1) as [c|]; [|congruence].
  destruct (hd (WriteFail 0 0) (writes s1)) as [dt|n dt]; [reflexivity|].
  apply IH.
  - unfold valid_primary in *. cbn. rewrite Hts, Hti. exact Hi.
  - destruct Hlive as [Hl|Hl]; [left; exact Hl|right].
    cbn [cancelAt]. rewrite Hat. exact Hl.
Qed.

(** X13.  The only panic of connect-with-retry is the index check on the
    primary target: with a primary index inside the target list no run
    panics (the random picks stay inside the list and [rand.Intn] gets a
    positive bound), and with one outside it the first iteration panics
    before anything is dialled.  With a primary index inside the list and
    a context that is never cancelled, write-with-retry does not panic at
    all. *)
Theorem panics_only_on_bad_primary :
  (forall fuel ctx w s,
      valid_primary w ->
      is_panic (fst (Worker.ConnectWithRetries fuel ctx w s)) = false) /\
  (forall fuel ctx w s,
      ~ valid_primary w ->
      Worker.ConnectWithRetries (S fuel) ctx w s
      = (Panic IndexOutOfRange, s)) /\
  (forall fuel ctx b w s,
      valid_primary w -> never_cancelled ctx s ->
      is_panic (fst (Worker.WriteWithRetries fuel ctx b w s)) = false).
Proof.
  split; [|split].
  - intros fuel ctx w s Hi. apply connectLoop_no_panic. exact Hi.
  - intros fuel ctx w s Hi. unfold Worker.ConnectWithRetries.
    apply connectLoop_oob. unfold valid_primary in Hi.
    apply andb_false_iff.
    destruct (Z.leb_spec 0 (Worker.targetIdx w)); [right|left; reflexivity].
    apply Z.ltb_ge. lia.
  - intros fuel ctx b w s. apply WriteWithRetries_no_panic.
Qed.

Lemma panics_only_on_bad_primary_witness :
  is_panic (fst (Worker.ConnectWithRetries 3 CtxPool
                   (Worker.mk 1 ["a:1"%string; "b:2"%string] EmptyString 1
                              None 0)
                   (mkWorld 0 None [] [] [5; -3] []))) = false /\
  Worker.ConnectWithRetries 1 CtxPool
    (Worker.mk 1 [] EmptyString 0 None 0) (mkWorld 0 None [] [] [] [])
  = (Panic IndexOutOfRange, mkWorld 0 None [] [] [] []).
Proof.
  split.
  - apply (proj1 panics_only_on_bad_primary).
    unfold valid_primary, len. simpl. lia.
  - apply (proj1 (proj2 panics_only_on_bad_primary)).
    unfold valid_primary, len. simpl. lia.
Defined.


(* ================================================================== *)
(** * More on the worker loop *)
(* ================================================================== *)

Lemma WriteWithRetries_cancelAt (fuel : nat) :
  forall ctx b w s,
    cancelAt (snd (Worker.WriteWithRetries fuel ctx b w s)) = cancelAt s.
Proof.
  induction fuel as [|fuel IH]; intros ctx b w s; [reflexivity|].
  rewrite WriteWithRetries_round.
  pose proof (ConnectIfNeeded_cancelAt (S fuel) ctx w s) as Hat.
  destruct (Worker.ConnectIfNeeded (S fuel) ctx w s)
    as [[[w1 e]|k| |] s1]; cbn [snd] in *; try exact Hat.
  destruct (Worker.conn w1) as [c|]; [|exact Hat].
  destruct (hd (WriteFail 0 0) (writes s1)) as [dt|n dt].
  - exact Hat.
  - rewrite IH. exact Hat.
Qed.

(** The tick case, whatever the counter holds. *)
Lemma select_tick_any (fuel : nat) (st : Transmit) (s : World) :
  select fuel CaseTick st s =
  if exit st && (wrap64 (idleCount st + 1) >=? 5) then
    (Ret (Return (mkTransmit (Worker.set_conn (w st) None) (exit st)
                             (doneChan st) (wrap64 (idleCount st + 1))
                             (chanCap st) (outputChan st) (bufPool st))),
     mkWorld (clock s) (cancelAt s) (dials s) (writes s) (rands s)
             (trace s ++ closing (Worker.conn (w st))))
  else
    (Ret (Continue (mkTransmit (w st) (exit st) (doneChan st)
                               (wrap64 (idleCount st + 1)) (chanCap st)
                               (outputChan st) (bufPool st))), s).
Proof.
  unfold select. cbn [exit w doneChan chanCap outputChan bufPool].
  destruct (exit st && (wrap64 (idleCount st + 1) >=? 5)); [|reflexivity].
  unfold Worker.Close.
  destruct (Worker.conn (w st)) as [c|] eqn:Hc; run.
  - reflexivity.
  - rewrite app_nil_r. destruct s, (w st); cbn in *. subst. reflexivity.
Qed.

Section LoopInvariant.

Variable fuel : nat.
Variable P : Transmit -> World -> Prop.

Hypothesis P_wait : forall st s dt, P st s -> P st (after_wait s dt).
Hypothesis P_enqueue :
  forall st s b,
    len (outputChan st) < chanCap st -> P st s -> P (after_enqueue st b) s.
Hypothesis P_select :
  forall c st s r s',
    select fuel c st s = (Ret r, s') -> P st s -> P (loop_state r) s'.

(** A property kept by every step holds of the state in which a schedule
    leaves the loop. *)
Lemma transmit_loop_invariant (sched : list Step) :
  forall st s r s',
    transmit_loop fuel sched st s = (Ret r, s') ->
    P st s -> P (loop_state r) s'.
Proof.
  induction sched as [|x sched IH]; intros st s r s' Hrun HP.
  - inversion Hrun; subst. exact HP.
  - destruct x as [dt|b|c]; cbn [transmit_loop] in Hrun.
    + revert Hrun. run. intros Hrun.
      apply (IH _ _ _ _ Hrun). apply P_wait. exact HP.
    + destruct (len (outputChan st) <? chanCap st) eqn:E; [|discriminate].
      apply (IH _ _ _ _ Hrun). apply P_enqueue; [lia|exact HP].
    + unfold bind in Hrun.
      destruct (select fuel c st s) as [[[st1|st1]|k| |] s1] eqn:Hsel;
        try discriminate.
      * apply (IH _ _ _ _ Hrun).
        apply (P_select c st s (Continue st1) s1 Hsel HP).
      * inversion Hrun; subst.
        apply (P_select c st s (Return st1) s' Hsel HP).
Qed.

End LoopInvariant.

(** What one [select] does to the loop variables, the world and the
    connections, whichever case it takes. *)
Lemma select_facts (fuel : nat) (c : SelectCase) (st : Transmit) (s : World)
      (r : Loop) (s' : World) :
  select fuel c st s = (Ret r, s') ->
  let st' := loop_state r in
  same_identity (w st) (w st') /\
  chanCap st' = chanCap st /\
  (outputChan st' = outputChan st \/
   exists b, outputChan st = b :: outputChan st') /\
  (bufPool st' = bufPool st \/
   exists b, In b (outputChan st) /\ bufPool st' = release (bufPool st) b) /\
  cancelAt s' = cancelAt s /\ clock s <= clock s' /\
  ((exit st' = exit st /\ doneChan st' = doneChan st) \/
   (doneChan st = true /\ exit st' = true /\ doneChan st' = false /\
    done_at CtxPool (cancelAt s) (clock s) = true)) /\
  (exists n,
      dials s' = skipn n (dials s) /\
      closed (trace s') ++ held (Worker.conn (w st'))
      = closed (trace s) ++ held (Worker.conn (w st))
        ++ conns_of (firstn n (dials s))) /\
  (forall st1, r = Return st1 ->
               exit st' = true /\ Worker.conn (w st') = None).
Proof.
  destruct c.
  - rewrite select_tick_any.
    destruct (exit st && (wrap64 (idleCount st + 1) >=? 5)) eqn:E;
      intros H; inversion H; subst; clear H; cbn.
    + apply andb_prop in E. destruct E as [Hex _].
      split; [repeat split|]. split; [reflexivity|].
      split; [left; reflexivity|]. split; [left; reflexivity|].
      split; [reflexivity|]. split; [lia|].
      split; [left; split; reflexivity|]. split.
      * exists 0%nat. split; [reflexivity|].
        rewrite closed_app. unfold closing.
        rewrite closed_closing. cbn. rewrite !app_nil_r. reflexivity.
      * intros st1 _. split; [exact Hex|reflexivity].
    + split; [apply same_identity_refl|]. split; [reflexivity|].
      split; [left; reflexivity|]. split; [left; reflexivity|].
      split; [reflexivity|]. split; [lia|].
      split; [left; split; reflexivity|]. split.
      * exists 0%nat. cbn. rewrite app_nil_r. split; reflexivity.
      * intros st1 H. discriminate.
  - rewrite select_done.
    destruct (doneChan st && done_at CtxPool (cancelAt s) (clock s)) eqn:E;
      intros H; inversion H; subst; clear H; cbn.
    apply andb_prop in E. destruct E as [Hd Hc].
    split; [apply same_identity_refl|]. split; [reflexivity|].
    split; [left; reflexivity|]. split; [left; reflexivity|].
    split; [reflexivity|]. split; [lia|].
    split; [right; auto|]. split.
    + exists 0%nat. cbn. rewrite app_nil_r. split; reflexivity.
    + intros st1 H. discriminate.
  - rewrite select_recv.
    destruct (outputChan st) as [|b queued] eqn:Hq; [discriminate|].
    pose proof (WriteWithRetries_accounts fuel CtxTODO (Buffer.Bytes b)
                                          (w st) s) as Hacc.
    pose proof (WriteWithRetries_cancelAt fuel CtxTODO (Buffer.Bytes b)
                                          (w st) s) as Hat.
    destruct (Worker.WriteWithRetries fuel CtxTODO (Buffer.Bytes b) (w st) s)
      as [[[w' r0]|k| |] s1]; try discriminate.
    intros H. inversion H; subst; clear H. cbn.
    destruct Hacc as (Hid & _ & Hclk & _ & Hn). cbn [snd] in Hat.
    split; [exact Hid|]. split; [reflexivity|].
    split; [right; exists b; reflexivity|].
    split; [right; exists b; split; [left; reflexivity|reflexivity]|].
    split; [exact Hat|]. split; [exact Hclk|].
    split; [left; split; reflexivity|]. split; [exact Hn|].
    intros st1 H. discriminate.
Qed.

Lemma release_keeps_pool (pool : Pool) (b : Buf) :
  pool_ok pool /\ pool_small pool ->
  pool_ok (release pool b) /\ pool_small (release pool b).
Proof.
  unfold release, pool_ok, pool_small, bufPool_Put. intros [Hok Hsm].
  destruct (Buffer.Cap b <=? 1024 * 1024) eqn:E; [|split; assumption].
  split; constructor; try assumption; [reflexivity|].
  unfold Buffer.Cap, Buffer.Reset in *. cbn. lia.
Qed.

(** X14.  The pool only ever holds buffers that were reset and are at
    most 1 MiB large: if that is so when a worker enters its loop, it is
    so in whatever state a schedule leaves the loop, whatever records
    (of whatever capacity) the worker sent in between. *)
Theorem loop_keeps_pool_clean (fuel : nat) (sched : list Step)
        (st : Transmit) (s : World) (r : Loop) (s' : World) :
  transmit_loop fuel sched st s = (Ret r, s') ->
  pool_ok (bufPool st) /\ pool_small (bufPool st) ->
  pool_ok (bufPool (loop_state r)) /\ pool_small (bufPool (loop_state r)).
Proof.
  apply (transmit_loop_invariant fuel
           (fun st _ => pool_ok (bufPool st) /\ pool_small (bufPool st))).
  - auto.
  - auto.
  - intros c st0 s0 r0 s0' Hsel HP.
    destruct (select_facts fuel c st0 s0 r0 s0' Hsel)
      as (_ & _ & _ & [->|(b & _ & ->)] & _); [exact HP|].
    apply release_keeps_pool. exact HP.
Qed.

Lemma loop_keeps_pool_clean_witness :
  pool_ok (bufPool (loop_state (Return (mkTransmit
     (Worker.mk 1 ["a:1"%string] "a:1"%string 0 None 0)
     true false 5 2 [] [Buffer.mk [] 32768])))) /\
  pool_small (bufPool (loop_state (Return (mkTransmit
     (Worker.mk 1 ["a:1"%string] "a:1"%string 0 None 0)
     true false 5 2 [] [Buffer.mk [] 32768])))).
Proof.
  apply (loop_keeps_pool_clean 1
           [Select CaseRecv; Select CaseDone; Select CaseTick;
            Select CaseTick; Select CaseTick; Select CaseTick;
            Select CaseTick]
           drain_worker drain_world _
           (mkWorld 10 (Some 5) [] [] []
                    [EvWrite 3%nat [x61; x0a] true; EvClose 3%nat])).
  - vm_compute. reflexivity.
  - split; constructor.
Defined.

Lemma done_at_monotone (ctx : Context) (a : option Z) (now now' : Z) :
  now <= now' -> done_at ctx a now = true -> done_at ctx a now' = true.
Proof.
  unfold done_at. destruct ctx; [|discriminate].
  destruct a as [t|]; [|discriminate]. intros Hle H.
  apply Z.leb_le in H. apply Z.leb_le. lia.
Qed.

(** A run of the connect loop returns an error only once the context is
    cancelled. *)
Lemma connectLoop_error_after_cancel (fuel : nat) :
  forall ctx delay idx w s,
    match Worker.connectLoop fuel ctx delay idx w s with
    | (Ret (w', Some e), s') =>
        done_at ctx (cancelAt s') (clock s') = true
    | _ => True
    end.
Proof.
  induction fuel as [|fuel IH]; intros ctx delay idx w s; [exact I|].
  connect_cases ctx idx w s; cbv zeta; try exact I.
  - exact Hc.
  - match goal with |- context [Worker.connectLoop fuel ctx ?d ?i ?w1 ?s1] =>
      specialize (IH ctx d i w1 s1);
      destruct (Worker.connectLoop fuel ctx d i w1 s1) as [[[w' [e|]]|k| |] s']
    end; try exact I. exact IH.
Qed.

Lemma transmit_loop_return (fuel : nat) (sched : list Step) :
  forall st s st' s',
    transmit_loop fuel sched st s = (Ret (Return st'), s') ->
    exit st' = true /\ Worker.conn (w st') = None.
Proof.
  induction sched as [|x sched IH]; intros st s st' s' Hrun;
    [discriminate|].
  destruct x as [dt|b|c]; cbn [transmit_loop] in Hrun.
  - revert Hrun. run. apply IH.
  - destruct (len (outputChan st) <? chanCap st); [|discriminate].
    apply (IH _ _ _ _ Hrun).
  - unfold bind in Hrun.
    destruct (select fuel c st s) as [[[st1|st1]|k| |] s1] eqn:Hsel;
      try discriminate.
    + apply (IH _ _ _ _ Hrun).
    + inversion Hrun; subst.
      destruct (select_facts fuel c st s _ _ Hsel)
        as (_ & _ & _ & _ & _ & _ & _ & _ & Hret).
      apply (Hret st'). reflexivity.
Qed.

(** X15.  A worker started with the pool context returns only after the
    context was cancelled, and it returns holding no connection: whether
    it gives up during startup or leaves its loop, the cancellation time
    has passed when [transmit] returns. *)
Theorem worker_returns_only_after_cancellation
        (fuel : nat) (worker cap : Z) (queued : list Buf) (pool0 : Pool)
        (targets : list string) (target : Z) (sched : list Step)
        (s : World) (st : Transmit) (s' : World) :
  transmit fuel CtxPool worker cap queued pool0 targets target sched s
  = (Ret (Return st), s') ->
  done_at CtxPool (cancelAt s) (clock s') = true /\
  Worker.conn (w st) = None.
Proof.
  unfold transmit, Worker.ConnectWithRetries, bind.
  pose proof (connectLoop_error_after_cancel fuel CtxPool (2 * Second)
                (Worker.targetIdx (newWorker worker targets target))
                (newWorker worker targets target) s) as Herr.
  pose proof (connectLoop_accounts fuel CtxPool (2 * Second)
                (Worker.targetIdx (newWorker worker targets target))
                (newWorker worker targets target) s) as Hacc.
  pose proof (connectLoop_cancelAt fuel CtxPool (2 * Second)
                (Worker.targetIdx (newWorker worker targets target))
                (newWorker worker targets target) s) as Hat.
  destruct (Worker.connectLoop fuel CtxPool (2 * Second)
              (Worker.targetIdx (newWorker worker targets target))
              (newWorker worker targets target) s)
    as [[[w1 [e|]]|k| |] s1]; try discriminate; cbn [snd] in Hat.
  - intros H. inversion H; subst. clear H. cbn [w].
    destruct Hacc as (_ & _ & _ & _ & Hconn & _).
    rewrite <- Hat. split; [exact Herr|]. apply Hconn. discriminate.
  - intros Hrun.
    split; [|apply (transmit_loop_return _ _ _ _ _ _ Hrun)].
    destruct (transmit_loop_return _ _ _ _ _ _ Hrun) as [Hex _].
    pose proof (transmit_loop_invariant fuel
      (fun st0 s0 =>
         cancelAt s0 = cancelAt s /\
         (exit st0 = true ->
          done_at CtxPool (cancelAt s) (clock s0) = true))) as Hinv.
    destruct (Hinv) with (sched := sched)
      (st := mkTransmit w1 false true 0 cap queued pool0) (s := s1)
      (r := Return st) (s' := s') as [_ Hdone]; try assumption.
    + intros st0 s0 dt [Hc Hd]. split; [exact Hc|]. intros He.
      apply (done_at_monotone _ _ (clock s0)); [cbn; lia|auto].
    + intros st0 s0 b _ HP. exact HP.
    + intros c st0 s0 r0 s0' Hsel [Hc Hd].
      destruct (select_facts fuel c st0 s0 r0 s0' Hsel)
        as (_ & _ & _ & _ & Hc' & Hclk & Hflag & _).
      split; [congruence|]. intros He.
      apply (done_at_monotone _ _ (clock s0)); [exact Hclk|].
      destruct Hflag as [[Hsame _]|(_ & _ & _ & Hnow)].
      * apply Hd. congruence.
      * rewrite <- Hc. exact Hnow.
    + split; [exact Hat|]. discriminate.
    + apply Hdone. exact Hex.
Qed.

Lemma worker_returns_only_after_cancellation_witness :
  done_at CtxPool (cancelAt (mkWorld 0 (Some 1)
                               [DialOk 1%nat 0; DialOk 2%nat 0]
                               [WriteFail 1 0; WriteOk 0] [] []))
          (clock (mkWorld 1000000000 (Some 1) [] [] []
                    [EvDial "a:1"%string; EvWrite 1%nat [x61; x0a] false;
                     EvClose 1%nat; EvDial "a:1"%string;
                     EvWrite 2%nat [x61; x0a] true; EvClose 2%nat]))
  = true /\
  Worker.conn (w (mkTransmit
                    (Worker.mk 1 ["a:1"%string] "a:1"%string 0 None 0)
                    true false 5 2 [] [Buffer.mk [] 32768])) = None.
Proof.
  apply (worker_returns_only_after_cancellation 5 1 2
           [Buffer.mk [x61; x0a] 32768] [] ["a:1"%string] 0
           [Select CaseRecv; Wait Second; Select CaseDone;
            Select CaseTick; Select CaseTick; Select CaseTick;
            Select CaseTick; Select CaseTick]).
  vm_compute. reflexivity.
Defined.

Lemma delivered_closing (o : option Conn) : delivered (closing o) = [].
Proof. destruct o; reflexivity. Qed.

(** What one [select] takes from the queue and delivers. *)
Lemma select_delivers (fuel : nat) (c : SelectCase) (st : Transmit)
      (s : World) (r : Loop) (s' : World) :
  select fuel c st s = (Ret r, s') ->
  exists taken,
    outputChan st = taken ++ outputChan (loop_state r) /\
    delivered (trace s') = delivered (trace s) ++ map Buffer.Bytes taken.
Proof.
  destruct c.
  - rewrite select_tick_any.
    destruct (exit st && (wrap64 (idleCount st + 1) >=? 5));
      intros H; inversion H; subst; clear H; exists []; cbn;
      rewrite ?delivered_app, ?delivered_closing, ?app_nil_r; auto.
  - rewrite select_done.
    destruct (doneChan st && done_at CtxPool (cancelAt s) (clock s));
      intros H; inversion H; subst; clear H.
    exists []. cbn. rewrite app_nil_r. auto.
  - rewrite select_recv.
    destruct (outputChan st) as [|b queued] eqn:Hq; [discriminate|].
    pose proof (WriteWithRetries_accounts fuel CtxTODO (Buffer.Bytes b)
                                          (w st) s) as Hacc.
    destruct (Worker.WriteWithRetries fuel CtxTODO (Buffer.Bytes b) (w st) s)
      as [[[w' r0]|k| |] s1]; try discriminate.
    intros H. inversion H; subst; clear H.
    destruct Hacc as (_ & _ & _ & (k & Hat & _) & _).
    exists [b]. cbn. split; [reflexivity|].
    rewrite !delivered_of_attempts, Hat, !filter_app, filter_failed,
      !map_app.
    reflexivity.
Qed.

(** The channel accounting of a worker while no other worker receives. *)
Lemma transmit_loop_delivers (fuel : nat) (sched : list Step) :
  forall st s r s',
    transmit_loop fuel sched st s = (Ret r, s') ->
    exists ran rest taken,
      sched = ran ++ rest /\
      (forall st1, r = Continue st1 -> rest = []) /\
      outputChan st ++ enqueued ran = taken ++ outputChan (loop_state r) /\
      delivered (trace s') = delivered (trace s) ++ map Buffer.Bytes taken.
Proof.
  induction sched as [|x sched IH]; intros st s r s' Hrun.
  - inversion Hrun; subst. exists [], [], []. cbn.
    rewrite !app_nil_r. auto.
  - destruct x as [dt|b|c]; cbn [transmit_loop] in Hrun.
    + revert Hrun. run. intros Hrun.
      destruct (IH _ _ _ _ Hrun) as (ran & rest & taken & -> & Hc & Hq & Hd).
      exists (Wait dt :: ran), rest, taken. cbn in *. auto.
    + destruct (len (outputChan st) <? chanCap st); [|discriminate].
      destruct (IH _ _ _ _ Hrun) as (ran & rest & taken & -> & Hc & Hq & Hd).
      exists (Enqueue b :: ran), rest, taken. cbn in *.
      rewrite <- app_assoc in Hq. auto.
    + unfold bind in Hrun.
      destruct (select fuel c st s) as [[[st1|st1]|k| |] s1] eqn:Hsel;
        try discriminate.
      * destruct (select_delivers fuel c st s _ _ Hsel) as (t1 & Hq1 & Hd1).
        destruct (IH _ _ _ _ Hrun)
          as (ran & rest & taken & -> & Hc & Hq & Hd).
        exists (Select c :: ran), rest, (t1 ++ taken). cbn in *.
        split; [reflexivity|]. split; [exact Hc|]. split.
        -- rewrite Hq1, <- !app_assoc, Hq. reflexivity.
        -- rewrite Hd, Hd1, map_app, <- !app_assoc. reflexivity.
      * inversion Hrun; subst.
        destruct (select_delivers fuel c st s _ _ Hsel) as (t1 & Hq1 & Hd1).
        exists [Select c], sched, t1. cbn in *.
        rewrite app_nil_r. split; [reflexivity|].
        split; [discriminate|]. auto.
Qed.

Lemma accounting_compose (D0 : list DialResult) (K0 : list Conn)
      (d1 d2 : list DialResult) (k1 k2 : list Conn) (n1 n2 : nat) :
  d1 = skipn n1 D0 ->
  k1 = K0 ++ conns_of (firstn n1 D0) ->
  d2 = skipn n2 d1 ->
  k2 = k1 ++ conns_of (firstn n2 d1) ->
  d2 = skipn (n1 + n2) D0 /\ k2 = K0 ++ conns_of (firstn (n1 + n2) D0).
Proof.
  intros -> -> -> ->. rewrite skipn_skipn. split; [f_equal; lia|].
  rewrite firstn_plus, conns_of_app, <- app_assoc. reflexivity.
Qed.

(** X17.  A worker that returns has closed every connection it opened,
    each once and in the order it opened them, and holds none: the
    connections closed along the trace of [transmit] are exactly those
    its consumed dials established. *)
Theorem worker_closes_every_connection
        (fuel : nat) (ctx : Context) (worker cap : Z) (queued : list Buf)
        (pool0 : Pool) (targets : list string) (target : Z)
        (sched : list Step) (s : World) (st : Transmit) (s' : World) :
  transmit fuel ctx worker cap queued pool0 targets target sched s
  = (Ret (Return st), s') ->
  Worker.conn (w st) = None /\
  exists n,
    dials s' = skipn n (dials s) /\
    closed (trace s') = closed (trace s) ++ conns_of (firstn n (dials s)).
Proof.
  unfold transmit, Worker.ConnectWithRetries, bind.
  pose proof (connectLoop_accounts fuel ctx (2 * Second)
                (Worker.targetIdx (newWorker worker targets target))
                (newWorker worker targets target) s) as Hacc.
  destruct (Worker.connectLoop fuel ctx (2 * Second)
              (Worker.targetIdx (newWorker worker targets target))
              (newWorker worker targets target) s)
    as [[[w1 e]|k| |] s1]; try discriminate.
  destruct Hacc as (_ & _ & _ & _ & Hconn & n1 & Hds & Hcl).
  cbn [Worker.conn newWorker held app] in Hcl, Hconn.
  destruct e as [e|].
  - intros H. inversion H; subst. clear H. cbn [w].
    assert (Hnone : Worker.conn w1 = None) by (apply Hconn; discriminate).
    rewrite Hnone in Hcl. cbn [held] in Hcl. rewrite app_nil_r in Hcl.
    split; [exact Hnone|]. exists n1. split; assumption.
  - intros Hrun.
    destruct (transmit_loop_return _ _ _ _ _ _ Hrun) as [_ Hnone].
    split; [exact Hnone|].
    pose proof (transmit_loop_invariant fuel
      (fun st0 s0 =>
         exists n,
           dials s0 = skipn n (dials s) /\
           closed (trace s0) ++ held (Worker.conn (w st0))
           = closed (trace s) ++ conns_of (firstn n (dials s)))) as Hinv.
    destruct (Hinv) with (sched := sched)
      (st := mkTransmit w1 false true 0 cap queued pool0) (s := s1)
      (r := Return st) (s' := s') as (n & Hn & Hk); try assumption.
    + intros st0 s0 dt HP. exact HP.
    + intros st0 s0 b _ HP. exact HP.
    + intros c st0 s0 r0 s0' Hsel (n & Hn & Hk).
      destruct (select_facts fuel c st0 s0 r0 s0' Hsel)
        as (_ & _ & _ & _ & _ & _ & _ & (n2 & Hn2 & Hk2) & _).
      exists (n + n2)%nat. rewrite app_assoc in Hk2.
      apply (accounting_compose _ _ _ _ _ _ _ _ Hn Hk Hn2 Hk2).
    + exists n1. cbn [w]. split; assumption.
    + exists n. cbn [loop_state] in Hk. rewrite Hnone in Hk.
      cbn [held] in Hk. rewrite app_nil_r in Hk. split; assumption.
Qed.

Lemma worker_closes_every_connection_witness :
  Worker.conn (w (mkTransmit
                    (Worker.mk 1 ["a:1"%string] "a:1"%string 0 None 0)
                    true false 5 2 [] [Buffer.mk [] 32768])) = None /\
  exists n,
    dials (mkWorld 1000000000 (Some 1) [DialOk 3%nat 0] [] []
             [EvDial "a:1"%string; EvWrite 1%nat [x61; x0a] false;
              EvClose 1%nat; EvDial "a:1"%string;
              EvWrite 2%nat [x61; x0a] true; EvClose 2%nat])
    = skipn n [DialOk 1%nat 0; DialOk 2%nat 0; DialOk 3%nat 0] /\
    closed [EvDial "a:1"%string; EvWrite 1%nat [x61; x0a] false;
            EvClose 1%nat; EvDial "a:1"%string;
            EvWrite 2%nat [x61; x0a] true; EvClose 2%nat]
    = closed []
      ++ conns_of (firstn n [DialOk 1%nat 0; DialOk 2%nat 0; DialOk 3%nat 0]).
Proof.
  apply (worker_closes_every_connection 5 CtxPool 1 2
           [Buffer.mk [x61; x0a] 32768] [] ["a:1"%string] 0
           [Select CaseRecv; Wait Second; Select CaseDone;
            Select CaseTick; Select CaseTick; Select CaseTick;
            Select CaseTick; Select CaseTick]
           (mkWorld 0 (Some 1) [DialOk 1%nat 0; DialOk 2%nat 0; DialOk 3%nat 0]
                    [WriteFail 1 0; WriteOk 0] [] [])).
  vm_compute. reflexivity.
Defined.

Lemma select_no_panic (fuel : nat) (c : SelectCase) (st : Transmit)
      (s : World) :
  valid_primary (w st) -> is_panic (fst (select fuel c st s)) = false.
Proof.
  intros Hv. destruct c.
  - rewrite select_tick_any.
    destruct (exit st && (wrap64 (idleCount st + 1) >=? 5)); reflexivity.
  - rewrite select_done.
    destruct (doneChan st && done_at CtxPool (cancelAt s) (clock s));
      reflexivity.
  - rewrite select_recv. destruct (outputChan st) as [|b q]; [reflexivity|].
    pose proof (WriteWithRetries_no_panic fuel CtxTODO (Buffer.Bytes b)
                  (w st) s Hv (or_introl eq_refl)) as Hnp.
    destruct (Worker.WriteWithRetries fuel CtxTODO (Buffer.Bytes b) (w st) s)
      as [[[w' r0]|k| |] s1]; try reflexivity. discriminate.
Qed.

Lemma transmit_loop_no_panic (fuel : nat) (sched : list Step) :
  forall st s,
    valid_primary (w st) ->
    is_panic (fst (transmit_loop fuel sched st s)) = false.
Proof.
  induction sched as [|x sched IH]; intros st s Hv; [reflexivity|].
  destruct x as [dt|b|c]; cbn [transmit_loop].
  - run. apply IH. exact Hv.
  - destruct (len (outputChan st) <? chanCap st); [|reflexivity].
    apply IH. exact Hv.
  - unfold bind.
    pose proof (select_no_panic fuel c st s Hv) as Hnp.
    destruct (select fuel c st s) as [[[st1|st1]|k| |] s1] eqn:Hsel;
      try reflexivity; [|discriminate].
    apply IH.
    destruct (select_facts fuel c st s _ _ Hsel) as ((_ & Hts & Hti) & _).
    unfold valid_primary in *. cbn [loop_state] in Hts, Hti.
    rewrite Hts, Hti. exact Hv.
Qed.

Lemma transmit_no_panic
      (fuel : nat) (ctx : Context) (worker cap : Z) (queued : list Buf)
      (pool0 : Pool) (targets : list string) (target : Z)
      (sched : list Step) (s : World) :
  0 <= target < len targets ->
  is_panic (fst (transmit fuel ctx worker cap queued pool0 targets target
                          sched s)) = false.
Proof.
  intros Hv. unfold transmit, Worker.ConnectWithRetries, bind.
  pose proof (connectLoop_no_panic fuel ctx (2 * Second)
                (Worker.targetIdx (newWorker worker targets target))
                (newWorker worker targets target) s Hv) as Hnp.
  pose proof (connectLoop_accounts fuel ctx (2 * Second)
                (Worker.targetIdx (newWorker worker targets target))
                (newWorker worker targets target) s) as Hacc.
  destruct (Worker.connectLoop fuel ctx (2 * Second)
              (Worker.targetIdx (newWorker worker targets target))
              (newWorker worker targets target) s)
    as [[[w1 [e|]]|k| |] s1]; try reflexivity; [|discriminate].
  apply transmit_loop_no_panic.
  destruct Hacc as ((_ & Hts & Hti) & _).
  unfold valid_primary. cbn [w]. rewrite Hts, Hti. exact Hv.
Qed.

(** X18.  A worker whose primary target index lies inside the target
    list never panics, whatever the network, the clock, the random source
    and the schedule do: not on a target index, not in [rand.Intn], and
    not on a nil connection when it writes. *)
Theorem worker_never_panics
        (fuel : nat) (ctx : Context) (worker cap : Z) (queued : list Buf)
        (pool0 : Pool) (targets : list string) (target : Z)
        (sched : list Step) (s : World) :
  0 <= target < len targets ->
  is_panic (fst (transmit fuel ctx worker cap queued pool0 targets target
                          sched s)) = false.
Proof. apply transmit_no_panic. Qed.

Lemma worker_never_panics_witness :
  is_panic (fst (transmit 4 CtxPool 1 2 [Buffer.mk [x61; x0a] 32768] []
                          ["a:1"%string; "b:2"%string] 1
                          [Select CaseRecv; Select CaseTick]
                          (mkWorld 0 None [DialFail 0; DialOk 1%nat 0]
                                   [WriteFail 0 0] [7] [])))
  = false.
Proof.
  apply worker_never_panics. unfold len. simpl. lia.
Defined.


(* ================================================================== *)
(** * Properties of the coordinator *)
(* ================================================================== *)

Lemma chan_size_small (targets : list string) (connections : Z) :
  - maxInt <= connections * len targets * 2 <= maxInt ->
  wrap64 (connections * len targets) = connections * len targets /\
  chan_size targets connections = connections * len targets * 2.
Proof.
  intros H. unfold chan_size, maxInt in *.
  rewrite (wrap64_small (connections * len targets)) by lia.
  rewrite wrap64_small by lia. auto.
Qed.

(** [proxy] by the answer of [make]. *)
Lemma proxy_cases (maxChan : N) (accepts : list AcceptResult)
      (workers_exit : bool) (targets : list string) (connections : Z) :
  proxy maxChan accepts workers_exit targets connections =
  if (chan_size targets connections <? 0)
     || (Z.of_N maxChan <? chan_size targets connections)
  then mkProxyRun (chan_size targets connections) [] [] (Panic MakeChanSize)
  else mkProxyRun (chan_size targets connections)
                  (spawn_all targets (wrap64 (connections * len targets)))
                  (fst (accept_loop accepts []))
                  (if snd (accept_loop accepts []) && workers_exit
                   then Ret None else Blocked).
Proof.
  unfold proxy, make_chan. fold (chan_size targets connections).
  destruct ((chan_size targets connections <? 0)
            || (Z.of_N maxChan <? chan_size targets connections));
    [reflexivity|].
  destruct (accept_loop accepts []). reflexivity.
Qed.

(** [proxy] when [make] grants the size. *)
Lemma proxy_unfold (maxChan : N) (accepts : list AcceptResult)
      (workers_exit : bool) (targets : list string) (connections : Z) :
  0 <= connections -> connections * len targets * 2 <= maxInt ->
  connections * len targets * 2 <= Z.of_N maxChan ->
  proxy maxChan accepts workers_exit targets connections =
  mkProxyRun (connections * len targets * 2)
             (spawn_all targets (connections * len targets))
             (fst (accept_loop accepts []))
             (if snd (accept_loop accepts []) && workers_exit
              then Ret None else Blocked).
Proof.
  intros Hc Hmax Hlim. rewrite proxy_cases.
  assert (Hlen : 0 <= len targets) by (unfold len; lia).
  assert (Hprod : 0 <= connections * len targets) by lia.
  destruct (chan_size_small targets connections) as [-> ->];
    [unfold maxInt in *; lia|].
  assert (E : (connections * len targets * 2 <? 0)
              || (Z.of_N maxChan <? connections * len targets * 2) = false).
  { apply orb_false_intro; lia. }
  rewrite E. reflexivity.
Qed.





Lemma accept_loop_breaks (pre : list nat) (e : GoError)
      (post : list AcceptResult) :
  forall started,
    accept_loop (map AcceptOk pre ++ AcceptFail e :: post) started
    = (started ++ pre, true).
Proof.
  induction pre as [|c pre IH]; intros started; simpl.
  - rewrite app_nil_r. reflexivity.
  - rewrite IH, <- app_assoc. reflexivity.
Qed.

Lemma proxy_returns_nil (maxChan : N) (accepts : list AcceptResult)
      (workers_exit : bool) (targets : list string) (connections : Z)
      (e : GoError) :
  result (proxy maxChan accepts workers_exit targets connections)
  <> Ret (Some e).
Proof.
  rewrite proxy_cases.
  destruct ((chan_size targets connections <? 0)
            || (Z.of_N maxChan <? chan_size targets connections));
    [discriminate|].
  cbn [result].
  destruct (snd (accept_loop accepts []) && workers_exit); discriminate.
Qed.

Lemma in_spawn_all (targets : list string) (n : Z) (w0 : Worker.t) :
  In w0 (spawn_all targets n) ->
  exists i, 0 <= i < n /\ w0 = spawn targets i.
Proof.
  unfold spawn_all. intros H. apply in_map_iff in H.
  destruct H as (k & <- & Hk). apply in_seq in Hk.
  exists (Z.of_nat k). split; [lia|reflexivity].
Qed.

(** Every worker [proxy] starts has its primary index inside the target
    list, whatever the flags: with no target there is no worker. *)
Lemma spawned_primary_valid (maxChan : N) (accepts : list AcceptResult)
      (workers_exit : bool) (targets : list string) (connections : Z)
      (w0 : Worker.t) :
  In w0 (workers (proxy maxChan accepts workers_exit targets connections)) ->
  Worker.targets w0 = targets /\ valid_primary w0 /\ Worker.conn w0 = None.
Proof.
  rewrite proxy_cases.
  destruct ((chan_size targets connections <? 0)
            || (Z.of_N maxChan <? chan_size targets connections));
    cbn [workers]; [intros []|].
  intros Hin. apply in_spawn_all in Hin. destruct Hin as (i & Hi & ->).
  assert (Hpos : 0 < len targets).
  { destruct targets as [|t ts]; [|unfold len; simpl; lia].
    assert (E : wrap64 (connections * len (@nil string)) = 0).
    { unfold len. simpl. rewrite Z.mul_0_r. reflexivity. }
    rewrite E in Hi. lia. }
  split; [reflexivity|]. split; [|reflexivity].
  unfold valid_primary, spawn. cbn.
  rewrite Z.rem_mod_nonneg by lia. apply Z.mod_pos_bound. exact Hpos.
Qed.

(** C9 (as amended).  [listenAndProxy] returns a non-nil error exactly
    when binding the listen address fails, and the error is the one
    [net.Listen] gave; [proxy] never returns a non-nil error, whatever
    [Accept] returns.  Failure to bind is not the only thing that ends the
    process: with the bind done, [make] panics when the size
    connections * targets * 2 is negative or more than it grants, before
    any worker or framer is started.  That is the only panic: a size that
    [make] grants never panics, the workers started cannot panic, and
    when the accept loop ends on an error and the workers have left,
    [listenAndProxy] returns nil.  So [listenAndProxy] ends the process
    exactly when the bind fails or, the bind done, [make] refuses the
    size. *)
Theorem listenAndProxy_fails_iff_bind_fails :
  (forall maxChan listen accepts workers_exit targets connections e,
      listenAndProxy maxChan listen accepts workers_exit targets connections
      = Ret (Some e)
      <-> listen = ListenFail e) /\
  (forall maxChan accepts workers_exit targets connections e,
      result (proxy maxChan accepts workers_exit targets connections)
      <> Ret (Some e)) /\
  (forall maxChan listen accepts workers_exit targets connections k,
      listenAndProxy maxChan listen accepts workers_exit targets connections
      = Panic k
      <-> listen = ListenOk /\ k = MakeChanSize /\
          (chan_size targets connections < 0 \/
           Z.of_N maxChan < chan_size targets connections)) /\
  (forall maxChan accepts workers_exit targets connections,
      chan_size targets connections < 0 \/
      Z.of_N maxChan < chan_size targets connections ->
      workers (proxy maxChan accepts workers_exit targets connections) = [] /\
      framers (proxy maxChan accepts workers_exit targets connections) = []) /\
  (forall maxChan accepts workers_exit targets connections w0
          fuel cap queued pool0 sched s,
      In w0 (workers (proxy maxChan accepts workers_exit targets
                            connections)) ->
      is_panic (fst (transmit fuel CtxPool (Worker.id w0) cap queued pool0
                              (Worker.targets w0) (Worker.targetIdx w0)
                              sched s)) = false) /\
  (forall maxChan pre e post targets connections,
      0 <= chan_size targets connections <= Z.of_N maxChan ->
      listenAndProxy maxChan ListenOk
                     (map AcceptOk pre ++ AcceptFail e :: post) true
                     targets connections
      = Ret None) /\
  (forall maxChan listen accepts workers_exit targets connections,
      aborts (listenAndProxy maxChan listen accepts workers_exit targets
                             connections) = true
      <-> (exists e, listen = ListenFail e) \/
          (listen = ListenOk /\
           (chan_size targets connections < 0 \/
            Z.of_N maxChan < chan_size targets connections))).
Proof.
  split; [|split; [|split; [|split; [|split; [|split]]]]].
  - intros maxChan listen accepts workers_exit targets connections e.
    destruct listen as [|e0]; cbn [listenAndProxy].
    + split; [|discriminate]. intros H. exfalso.
      exact (proxy_returns_nil _ _ _ _ _ _ H).
    + split; intros H; inversion H; reflexivity.
  - exact proxy_returns_nil.
  - intros maxChan listen accepts workers_exit targets connections k.
    destruct listen as [|e0]; cbn [listenAndProxy].
    + rewrite proxy_cases.
      destruct ((chan_size targets connections <? 0)
                || (Z.of_N maxChan <? chan_size targets connections)) eqn:E;
        cbn [result].
      * apply orb_prop in E. split.
        -- intros H. inversion H; subst.
           split; [reflexivity|]. split; [reflexivity|].
           destruct E as [E|E]; [left|right]; lia.
        -- intros (_ & -> & _). reflexivity.
      * apply orb_false_elim in E. destruct E as [E1 E2]. split.
        -- destruct (snd (accept_loop accepts []) && workers_exit);
             discriminate.
        -- intros (_ & _ & [H|H]); lia.
    + split; [discriminate|]. intros (H & _). discriminate.
  - intros maxChan accepts workers_exit targets connections Hbad.
    rewrite proxy_cases.
    assert (E : (chan_size targets connections <? 0)
                || (Z.of_N maxChan <? chan_size targets connections) = true).
    { apply orb_true_intro. destruct Hbad; [left|right]; lia. }
    rewrite E. auto.
  - intros maxChan accepts workers_exit targets connections w0
           fuel cap queued pool0 sched s Hin.
    apply transmit_no_panic.
    apply (spawned_primary_valid _ _ _ _ _ _ Hin).
  - intros maxChan pre e post targets connections Hsize.
    cbn [listenAndProxy]. rewrite proxy_cases.
    assert (E : (chan_size targets connections <? 0)
                || (Z.of_N maxChan <? chan_size targets connections) = false).
    { apply orb_false_intro; lia. }
    rewrite E. cbn [result]. rewrite accept_loop_breaks. reflexivity.
  - intros maxChan listen accepts workers_exit targets connections.
    destruct listen as [|e0]; cbn [listenAndProxy].
    + rewrite proxy_cases.
      destruct ((chan_size targets connections <? 0)
                || (Z.of_N maxChan <? chan_size targets connections)) eqn:E;
        cbn [result aborts].
      * apply orb_prop in E. split; [|reflexivity].
        intros _. right. split; [reflexivity|].
        destruct E as [E|E]; [left|right]; lia.
      * apply orb_false_elim in E. destruct E as [E1 E2].
        assert (Hno : aborts (if snd (accept_loop accepts []) && workers_exit
                              then Ret None else Blocked) = false).
        { destruct (snd (accept_loop accepts []) && workers_exit);
            reflexivity. }
        rewrite Hno. split; [discriminate|].
        intros [[e He]|[_ [H|H]]]; [discriminate|lia|lia].
    + cbn [aborts]. split; [|reflexivity].
      intros _. left. exists e0. reflexivity.
Qed.

Lemma listenAndProxy_fails_iff_bind_fails_witness :
  listenAndProxy 1000 ListenOk
                 (map AcceptOk [1%nat; 2%nat] ++ AcceptFail AcceptError :: [])
                 true ["a:1"%string; "b:2"%string] 4
  = Ret None /\
  (workers (proxy 1000 [] true ["a:1"%string] (-1)) = [] /\
   framers (proxy 1000 [] true ["a:1"%string] (-1)) = []).
Proof.
  split.
  - apply (proj1 (proj2 (proj2 (proj2 (proj2 (proj2
             listenAndProxy_fails_iff_bind_fails)))))).
    vm_compute. split; discriminate.
  - apply (proj1 (proj2 (proj2 (proj2 listenAndProxy_fails_iff_bind_fails)))).
    left. vm_compute. reflexivity.
Defined.

(** With the bind done and a negative number of connections the process
    ends in the panic of [make]. *)
Lemma make_panic_aborts_after_bind : ~ bind_failure_is_the_only_abort.
Proof.
  intros H.
  destruct (H (2 ^ 45)%N ListenOk [] true ["a:1"%string] (-1) eq_refl)
    as [e He].
  discriminate.
Qed.

(* ================================================================== *)
(** * More on the coordinator *)
(* ================================================================== *)

Lemma accept_loop_all (pre : list nat) :
  forall started,
    accept_loop (map AcceptOk pre) started = (started ++ pre, false).
Proof.
  induction pre as [|c pre IH]; intros started; simpl.
  - rewrite app_nil_r. reflexivity.
  - rewrite IH, <- app_assoc. reflexivity.
Qed.

Lemma accept_loop_left (accepts : list AcceptResult) :
  forall started fr,
    accept_loop accepts started = (fr, true) ->
    exists pre err post,
      accepts = map AcceptOk pre ++ AcceptFail err :: post /\
      fr = started ++ pre.
Proof.
  induction accepts as [|a accepts IH]; intros started fr H;
    [discriminate|].
  destruct a as [c|err]; simpl in H.
  - destruct (IH _ _ H) as (pre & err & post & -> & ->).
    exists (c :: pre), err, post. rewrite <- app_assoc. auto.
  - inversion H; subst. exists [], err, accepts.
    rewrite app_nil_r. auto.
Qed.

(** X19.  [proxy] returns only after an [Accept] has failed and every
    worker has returned, and it then returns nil; until then it starts
    one framer for each accepted connection, in order, and none for
    whatever would be accepted after the failure. *)
Theorem proxy_returns_after_accept_fails_and_workers_exit
        (maxChan : N) (accepts : list AcceptResult) (workers_exit : bool)
        (targets : list string) (connections : Z) (e : error) :
  result (proxy maxChan accepts workers_exit targets connections) = Ret e ->
  e = None /\ workers_exit = true /\
  exists pre err post,
    accepts = map AcceptOk pre ++ AcceptFail err :: post /\
    framers (proxy maxChan accepts workers_exit targets connections) = pre.
Proof.
  unfold proxy. destruct (make_chan _ _); [|discriminate].
  destruct (accept_loop accepts []) as [started left] eqn:Hacc.
  cbn [result framers].
  destruct left; [|discriminate].
  destruct workers_exit; [|discriminate].
  intros H. inversion H; subst.
  split; [reflexivity|]. split; [reflexivity|].
  destruct (accept_loop_left _ _ _ Hacc) as (pre & err & post & Ha & Hf).
  exists pre, err, post. auto.
Qed.

Lemma proxy_returns_after_accept_fails_and_workers_exit_witness :
  @None GoError = None /\ true = true /\
  exists pre err post,
    [AcceptOk 1%nat; AcceptOk 2%nat; AcceptFail AcceptError; AcceptOk 3%nat]
    = map AcceptOk pre ++ AcceptFail err :: post /\
    framers (proxy 1000 [AcceptOk 1%nat; AcceptOk 2%nat;
                         AcceptFail AcceptError; AcceptOk 3%nat]
                   true ["a:1"%string] 2)
    = pre.
Proof.
  apply (proxy_returns_after_accept_fails_and_workers_exit 1000
           [AcceptOk 1%nat; AcceptOk 2%nat; AcceptFail AcceptError;
            AcceptOk 3%nat] true ["a:1"%string] 2 None).
  vm_compute. reflexivity.
Defined.



Lemma NoDup_map_injective {A B : Type} (f : A -> B) (l : list A) :
  (forall a b, f a = f b -> a = b) -> NoDup l -> NoDup (map f l).
Proof.
  intros Hinj H. induction H as [|a l Hnin Hnd IH]; simpl; constructor.
  - intros Hin. apply in_map_iff in Hin. destruct Hin as (b & Hb & Hin).
    apply Hinj in Hb. subst b. contradiction.
  - exact IH.
Qed.

(** X21.  Every worker [proxy] starts is well formed: it has the whole
    target list, a primary index inside it, no connection yet and an id
    between 1 and the pool size; no two workers share an id; and so no
    worker of the pool can panic, whatever happens to it. *)
Theorem spawned_workers_are_valid
        (maxChan : N) (accepts : list AcceptResult) (workers_exit : bool)
        (targets : list string) (connections : Z) :
  0 <= connections -> connections * len targets * 2 <= maxInt ->
  (forall w0,
      In w0 (workers (proxy maxChan accepts workers_exit targets
                            connections)) ->
      Worker.targets w0 = targets /\ valid_primary w0 /\
      Worker.conn w0 = None /\
      1 <= Worker.id w0 <= connections * len targets /\
      forall fuel cap queued pool0 sched s,
        is_panic (fst (transmit fuel CtxPool (Worker.id w0) cap queued pool0
                                (Worker.targets w0) (Worker.targetIdx w0)
                                sched s)) = false) /\
  NoDup (map Worker.id
             (workers (proxy maxChan accepts workers_exit targets
                             connections))).
Proof.
  intros Hc Hmax.
  assert (Hlen : 0 <= len targets) by (unfold len; lia).
  split.
  - intros w0 Hin.
    destruct (spawned_primary_valid _ _ _ _ _ _ Hin) as (Hts & Hv & Hconn).
    split; [exact Hts|]. split; [exact Hv|]. split; [exact Hconn|].
    split; [|intros; apply transmit_no_panic; exact Hv].
    revert Hin. rewrite proxy_cases.
    destruct ((chan_size targets connections <? 0)
              || (Z.of_N maxChan <? chan_size targets connections));
      cbn [workers]; [intros []|].
    destruct (chan_size_small targets connections) as [-> _];
      [unfold maxInt in *; lia|].
    intros Hin. apply in_spawn_all in Hin. destruct Hin as (i & Hi & ->).
    cbn. lia.
  - rewrite proxy_cases.
    destruct ((chan_size targets connections <? 0)
              || (Z.of_N maxChan <? chan_size targets connections));
      cbn [workers]; [constructor|].
    unfold spawn_all. rewrite map_map. cbn.
    apply NoDup_map_injective; [|apply seq_NoDup].
    intros a b H. lia.
Qed.

Lemma spawned_workers_are_valid_witness :
  NoDup (map Worker.id
             (workers (proxy 1000 [] true ["a:1"%string; "b:2"%string] 2))).
Proof.
  apply (proj2 (spawned_workers_are_valid 1000 [] true
                  ["a:1"%string; "b:2"%string] 2 ltac:(lia)
                  ltac:(vm_compute; discriminate))).
Defined.

Lemma filter_map_comm {A B : Type} (f : B -> bool) (g : A -> B)
      (l : list A) :
  filter f (map g l) = map g (filter (fun a => f (g a)) l).
Proof.
  induction l as [|a l IH]; simpl; [reflexivity|].
  destruct (f (g a)); simpl; rewrite IH; reflexivity.
Qed.

Lemma count_one (j : nat) (n : nat) :
  forall a,
    length (filter (fun k => Nat.eqb k j) (seq a n))
    = if (Nat.leb a j) && (Nat.ltb j (a + n)) then 1%nat else 0%nat.
Proof.
  induction n as [|n IH]; intros a.
  - simpl. destruct (Nat.leb a j) eqn:E1; simpl; [|reflexivity].
    destruct (Nat.ltb j (a + 0)) eqn:E2; [|reflexivity].
    apply Nat.leb_le in E1. apply Nat.ltb_lt in E2. lia.
  - simpl seq. simpl filter. rewrite Nat.add_succ_r, <- Nat.add_succ_l.
    destruct (Nat.eqb a j) eqn:E.
    + apply Nat.eqb_eq in E. subst a. simpl length. rewrite IH.
      assert (E1 : Nat.leb (S j) j = false) by (apply Nat.leb_gt; lia).
      assert (E2 : Nat.leb j j = true) by (apply Nat.leb_le; lia).
      assert (E3 : Nat.ltb j (S j + n) = true) by (apply Nat.ltb_lt; lia).
      rewrite E1, E2, E3. reflexivity.
    + apply Nat.eqb_neq in E. rewrite IH.
      destruct (Nat.leb (S a) j) eqn:E1, (Nat.leb a j) eqn:E2;
        try reflexivity.
      * apply Nat.leb_le in E1. apply Nat.leb_gt in E2. lia.
      * apply Nat.leb_gt in E1. apply Nat.leb_le in E2. lia.
Qed.

Lemma seq_shifted (b n : nat) :
  forall a, seq (a + b) n = map (fun k => (k + b)%nat) (seq a n).
Proof.
  induction n as [|n IH]; intros a; [reflexivity|].
  simpl. f_equal. apply (IH (S a)).
Qed.

(** Among [c * t] consecutive indices from 0, exactly [c] are congruent
    to [j] modulo [t]. *)
Lemma count_residue (t j : nat) :
  (j < t)%nat ->
  forall c,
    length (filter (fun i => Nat.eqb (i mod t) j) (seq 0 (c * t))) = c.
Proof.
  intros Hj. induction c as [|c IH]; [reflexivity|].
  replace (S c * t)%nat with (c * t + t)%nat by lia.
  rewrite seq_app, filter_app, length_app, IH.
  rewrite (seq_shifted (c * t) t 0), filter_map_comm, length_map.
  rewrite (filter_ext_in _ (fun k => Nat.eqb k j)).
  - rewrite count_one. simpl.
    assert (E : Nat.ltb j t = true) by (apply Nat.ltb_lt; exact Hj).
    rewrite E. lia.
  - intros k Hk. apply in_seq in Hk.
    rewrite Nat.Div0.mod_add, Nat.mod_small by lia. reflexivity.
Qed.

(** X22.  The pool is balanced: when the number of connections is not
    negative and the size connections * targets * 2 fits an [int] and is
    one [make] grants, every target is the primary target of exactly as
    many workers as the configured number of connections per target. *)
Theorem primaries_are_balanced
        (maxChan : N) (accepts : list AcceptResult) (workers_exit : bool)
        (targets : list string) (connections : Z) (j : Z) :
  0 <= connections -> connections * len targets * 2 <= maxInt ->
  connections * len targets * 2 <= Z.of_N maxChan ->
  0 <= j < len targets ->
  len (primaries j (workers (proxy maxChan accepts workers_exit targets
                                   connections)))
  = connections.
Proof.
  intros Hc Hmax Hlim Hj. rewrite proxy_unfold by assumption. cbn [workers].
  unfold primaries, spawn_all, len in *.
  rewrite filter_map_comm, length_map.
  set (t := length targets) in *.
  replace (Z.to_nat (connections * Z.of_nat t))
    with (Z.to_nat connections * t)%nat by nia.
  rewrite (filter_ext_in _ (fun i => Nat.eqb (i mod t) (Z.to_nat j))).
  - rewrite count_residue by lia. lia.
  - intros i _. unfold spawn, newWorker, len. cbn. fold t.
    rewrite Z.rem_mod_nonneg by lia.
    rewrite <- Nat2Z.inj_mod.
    destruct (Nat.eqb_spec (i mod t) (Z.to_nat j)) as [E|E].
    + apply Z.eqb_eq. lia.
    + apply Z.eqb_neq. lia.
Qed.

Lemma primaries_are_balanced_witness :
  len (primaries 1 (workers (proxy 1000 [] true
                               ["a:1"%string; "b:2"%string; "c:3"%string] 4)))
  = 4.
Proof.
  apply (primaries_are_balanced 1000 [] true
           ["a:1"%string; "b:2"%string; "c:3"%string] 4 1).
  - lia.
  - vm_compute. discriminate.
  - vm_compute. discriminate.
  - unfold len. simpl. lia.
Defined.


(* ================================================================== *)
(** * Recovery after a failed write, and the path from framer to target *)
(* ================================================================== *)

Lemma WriteWithRetries_extends (fuel : nat) :
  forall ctx b w s,
    exists rest,
      trace (snd (Worker.WriteWithRetries fuel ctx b w s)) = trace s ++ rest.
Proof.
  induction fuel as [|fuel IH]; intros ctx b w s.
  - exists []. simpl. rewrite app_nil_r. reflexivity.
  - rewrite WriteWithRetries_round.
    destruct (ConnectIfNeeded_extends (S fuel) ctx w s) as [r1 Hr1].
    destruct (Worker.ConnectIfNeeded (S fuel) ctx w s)
      as [[[w1 e]|k| |] s1]; cbn [snd] in *; try (exists r1; exact Hr1).
    destruct (Worker.conn w1) as [c|]; [|exists r1; exact Hr1].
    destruct (hd (WriteFail 0 0) (writes s1)) as [dt|n dt].
    + cbn [snd trace]. rewrite Hr1, <- app_assoc. eexists. reflexivity.
    + match goal with
      | |- context [Worker.WriteWithRetries fuel ctx b ?w2 ?s2] =>
          destruct (IH ctx b w2 s2) as [r2 Hr2]
      end.
      rewrite Hr2. cbn [trace]. rewrite Hr1, <- !app_assoc.
      eexists. reflexivity.
Qed.

(** X23.  After a failed write the worker closes the connection and
    starts over at its primary target: whatever target it was connected
    to, the next thing it does after the failed attempt is to close that
    connection and dial [targets[targetIdx]]. *)
Theorem write_failure_redials_primary
        (fuel : nat) (ctx : Context) (b : list byte) (w : Worker.t)
        (s : World) (c : Conn) (n dt : Z) :
  Worker.conn w = Some c ->
  clock s - Worker.lastReconnect w <= 5 * Minute ->
  hd (WriteFail 0 0) (writes s) = WriteFail n dt ->
  valid_primary w ->
  exists rest,
    trace (snd (Worker.WriteWithRetries (S (S fuel)) ctx b w s))
    = trace s
      ++ [EvWrite c b false; EvClose c;
          EvDial (nth (Z.to_nat (Worker.targetIdx w)) (Worker.targets w)
                      EmptyString)]
      ++ rest.
Proof.
  unfold valid_primary. intros Hconn Hfresh Hw Hi.
  rewrite WriteWithRetries_round.
  assert (Hnoop : Worker.ConnectIfNeeded (S (S fuel)) ctx w s
                  = (Ret (w, None), s)).
  { unfold Worker.ConnectIfNeeded. rewrite Hconn. run.
    assert (E : (clock s - Worker.lastReconnect w >? 5 * Minute) = false)
      by lia.
    rewrite E. reflexivity. }
  rewrite Hnoop, Hconn, Hw.
  match goal with
  | |- context [Worker.WriteWithRetries (S fuel) ctx b ?w2 ?s2] =>
      set (w2' := w2); set (s2' := s2)
  end.
  rewrite WriteWithRetries_round.
  assert (Hdial : exists r1,
             trace (snd (Worker.ConnectIfNeeded (S fuel) ctx w2' s2'))
             = trace s2'
               ++ EvDial (nth (Z.to_nat (Worker.targetIdx w))
                              (Worker.targets w) EmptyString) :: r1).
  { unfold Worker.ConnectIfNeeded, Worker.ConnectWithRetries. cbn [Worker.conn w2' Worker.set_conn].
    apply (connectLoop_first_dial fuel ctx (2 * Second)
             (Worker.targetIdx w2') w2' s2'). exact Hi. }
  destruct Hdial as [r1 Hr1].
  assert (Hs2 : trace s2' = trace s ++ [EvWrite c b false; EvClose c]).
  { unfold s2'. cbn [trace]. rewrite <- app_assoc. reflexivity. }
  destruct (Worker.ConnectIfNeeded (S fuel) ctx w2' s2')
    as [[[w1 e]|k| |] s1]; cbn [snd] in *;
    try (exists r1; rewrite Hr1, Hs2, <- !app_assoc; reflexivity).
  destruct (Worker.conn w1) as [c1|];
    [|exists r1; cbn [snd]; rewrite Hr1, Hs2, <- !app_assoc; reflexivity].
  destruct (hd (WriteFail 0 0) (writes s1)) as [dt1|n1 dt1].
  - cbn [snd trace]. rewrite Hr1, Hs2, <- !app_assoc.
    eexists. cbn [app]. reflexivity.
  - match goal with
    | |- context [Worker.WriteWithRetries fuel ctx b ?w3 ?s3] =>
        destruct (WriteWithRetries_extends fuel ctx b w3 s3) as [r3 Hr3]
    end.
    rewrite Hr3. cbn [trace]. rewrite Hr1, Hs2, <- !app_assoc.
    eexists. cbn [app]. reflexivity.
Qed.

Lemma write_failure_redials_primary_witness :
  exists rest,
    trace (snd (Worker.WriteWithRetries 2 CtxTODO [x61; x0a]
                  (Worker.mk 1 ["a:1"%string; "b:2"%string] "b:2"%string 0
                             (Some 4%nat) 0)
                  (mkWorld 0 None [DialOk 5%nat 0] [WriteFail 1 0; WriteOk 0]
                           [] [])))
    = [] ++ [EvWrite 4%nat [x61; x0a] false; EvClose 4%nat;
             EvDial "a:1"%string] ++ rest.
Proof.
  apply (write_failure_redials_primary 0 CtxTODO [x61; x0a]
           (Worker.mk 1 ["a:1"%string; "b:2"%string] "b:2"%string 0
                      (Some 4%nat) 0)
           (mkWorld 0 None [DialOk 5%nat 0] [WriteFail 1 0; WriteOk 0] [] [])
           4%nat 1 0).
  - reflexivity.
  - vm_compute. discriminate.
  - reflexivity.
  - unfold valid_primary, len. simpl. lia.
Defined.

(** X24.  From framer to target through one worker: when the records a
    framer enqueues for a stream that ends in a clean close are exactly
    what is sent on the channel during a schedule, and the worker has
    emptied the channel at the end of it, the payloads of its successful
    writes concatenate to the bytes of the stream, in order. *)
Theorem single_worker_end_to_end
        (ws : list (list byte)) (pool0 : Pool) (f : Framer)
        (fuel : nat) (sched : list Step) (st : Transmit) (s : World)
        (st1 : Transmit) (s1 : World) :
  pool_ok pool0 ->
  receive (clean_close ws) pool0 = Some f ->
  outputChan st = [] ->
  enqueued sched = out f ->
  transmit_loop fuel sched st s = (Ret (Continue st1), s1) ->
  outputChan st1 = [] ->
  concat (delivered (trace s1)) = concat (delivered (trace s)) ++ concat ws.
Proof.
  intros Hp Hrecv Hq0 Henq Hrun Hq1.
  destruct (receive_clean_records ws pool0 Hp) as (f' & Hf' & Hcat).
  rewrite Hrecv in Hf'. inversion Hf'; subst f'. clear Hf'.
  destruct (transmit_loop_delivers fuel sched st s _ _ Hrun)
    as (ran & rest & taken & Hsched & Hrest & Hq & Hd).
  rewrite (Hrest st1 eq_refl), app_nil_r in Hsched. subst ran.
  cbn [loop_state] in Hq. rewrite Hq0, Hq1, Henq, app_nil_r in Hq.
  cbn [app] in Hq. subst taken.
  rewrite Hd, concat_app. unfold records in Hcat. rewrite Hcat.
  reflexivity.
Qed.

Lemma single_worker_end_to_end_witness :
  concat (delivered [EvWrite 3%nat [x61; x0a] true;
                     EvWrite 3%nat [x62] true])
  = concat (delivered []) ++ concat [[x61; x0a; x62]].
Proof.
  apply (single_worker_end_to_end [[x61; x0a; x62]] []
           (mkFramer (Buffer.mk [x62] 32768) []
                     [Buffer.mk [x61; x0a] 32768; Buffer.mk [x62] 32768])
           1
           [Enqueue (Buffer.mk [x61; x0a] 32768); Select CaseRecv;
            Enqueue (Buffer.mk [x62] 32768); Select CaseRecv]
           (mkTransmit
              (Worker.mk 1 ["a:1"%string] "a:1"%string 0 (Some 3%nat) 0)
              false true 0 1 [] [])
           (mkWorld 0 None [] [WriteOk 0; WriteOk 0] [] [])
           (mkTransmit
              (Worker.mk 1 ["a:1"%string] "a:1"%string 0 (Some 3%nat) 0)
              false true 0 1 [] [Buffer.mk [] 32768; Buffer.mk [] 32768])
           (mkWorld 0 None [] [] []
                    [EvWrite 3%nat [x61; x0a] true;
                     EvWrite 3%nat [x62] true])).
  - constructor.
  - vm_compute. reflexivity.
  - reflexivity.
  - reflexivity.
  - vm_compute. reflexivity.
  - reflexivity.
Defined.

(* ================================================================== *)
(** * The worker among the others of the pool *)
(* ================================================================== *)

Lemma Subseq_refl {A : Type} (l : list A) : Subseq l l.
Proof. induction l; constructor; assumption. Qed.

Lemma Subseq_app {A : Type} (a b c d : list A) :
  Subseq a b -> Subseq c d -> Subseq (a ++ c) (b ++ d).
Proof.
  intros Hab Hcd. induction Hab; simpl; try constructor; assumption.
Qed.

Lemma Subseq_length {A : Type} (a b : list A) :
  Subseq a b -> (length a <= length b)%nat.
Proof. intros H. induction H; simpl; lia. Qed.

Lemma Subseq_all {A : Type} (a b : list A) :
  Subseq a b -> length a = length b -> a = b.
Proof.
  intros H. induction H as [|x l1 l2 H IH|x l1 l2 H IH]; simpl; intros Hl.
  - reflexivity.
  - f_equal. apply IH. lia.
  - apply Subseq_length in H. lia.
Qed.

(** With no other receiver the shared loop is the loop of the worker. *)
Lemma transmit_shared_alone (fuel : nat) (sched : list Step) :
  forall st s,
    transmit_shared fuel (map Own sched) st s = transmit_loop fuel sched st s.
Proof.
  induction sched as [|x sched IH]; intros st s; [reflexivity|].
  cbn [map transmit_shared]. unfold bind.
  change (x :: sched) with ([x] ++ sched). rewrite transmit_loop_app.
  destruct (transmit_loop fuel [x] st s) as [[[st1|st1]|k| |] s1];
    try reflexivity.
  apply IH.
Qed.

(** What one [select] takes from the queue and delivers, with the number
    of records taken. *)
Lemma select_takes (fuel : nat) (c : SelectCase) (st : Transmit)
      (s : World) (r : Loop) (s' : World) :
  select fuel c st s = (Ret r, s') ->
  exists taken,
    outputChan st = taken ++ outputChan (loop_state r) /\
    length taken = receives [Select c] /\
    delivered (trace s') = delivered (trace s) ++ map Buffer.Bytes taken.
Proof.
  destruct c.
  - rewrite select_tick_any.
    destruct (exit st && (wrap64 (idleCount st + 1) >=? 5));
      intros H; inversion H; subst; clear H; exists []; cbn;
      rewrite ?delivered_app, ?delivered_closing, ?app_nil_r; auto.
  - rewrite select_done.
    destruct (doneChan st && done_at CtxPool (cancelAt s) (clock s));
      intros H; inversion H; subst; clear H.
    exists []. cbn. rewrite app_nil_r. auto.
  - rewrite select_recv.
    destruct (outputChan st) as [|b queued] eqn:Hq; [discriminate|].
    pose proof (WriteWithRetries_accounts fuel CtxTODO (Buffer.Bytes b)
                                          (w st) s) as Hacc.
    destruct (Worker.WriteWithRetries fuel CtxTODO (Buffer.Bytes b) (w st) s)
      as [[[w' r0]|k| |] s1]; try discriminate.
    intros H. inversion H; subst; clear H.
    destruct Hacc as (_ & _ & _ & (k & Hat & _) & _).
    exists [b]. cbn. split; [reflexivity|]. split; [reflexivity|].
    rewrite !delivered_of_attempts, Hat, !filter_app, filter_failed,
      !map_app.
    reflexivity.
Qed.

(** The channel accounting of a worker that shares the channel. *)
Lemma transmit_shared_delivers (fuel : nat) (sched : list SharedStep) :
  forall st s r s',
    transmit_shared fuel sched st s = (Ret r, s') ->
    exists ran rest removed taken,
      sched = ran ++ rest /\
      (forall st1, r = Continue st1 -> rest = []) /\
      outputChan st ++ enqueued (own_steps ran)
      = removed ++ outputChan (loop_state r) /\
      Subseq taken removed /\
      length removed = (length taken + others ran)%nat /\
      length taken = receives (own_steps ran) /\
      delivered (trace s') = delivered (trace s) ++ map Buffer.Bytes taken.
Proof.
  induction sched as [|x sched IH]; intros st s r s' Hrun.
  - inversion Hrun; subst. exists [], [], [], []. cbn.
    rewrite !app_nil_r. repeat split; auto. constructor.
  - destruct x as [x|]; cbn [transmit_shared] in Hrun.
    + unfold bind in Hrun. rewrite transmit_loop_one in Hrun.
      destruct x as [dt|b|c].
      * destruct (IH _ _ _ _ Hrun)
          as (ran & rest & removed & taken & -> & Hc & Hq & Hs & Hl & Hn
              & Hd).
        exists (Own (Wait dt) :: ran), rest, removed, taken. cbn in *.
        repeat split; auto.
      * destruct (len (outputChan st) <? chanCap st); [|discriminate].
        destruct (IH _ _ _ _ Hrun)
          as (ran & rest & removed & taken & -> & Hc & Hq & Hs & Hl & Hn
              & Hd).
        exists (Own (Enqueue b) :: ran), rest, removed, taken. cbn in *.
        rewrite <- app_assoc in Hq. repeat split; auto.
      * destruct (select fuel c st s) as [[[st1|st1]|k| |] s1] eqn:Hsel;
          try discriminate.
        -- destruct (select_takes fuel c st s _ _ Hsel)
             as (t1 & Hq1 & Hn1 & Hd1).
           destruct (IH _ _ _ _ Hrun)
             as (ran & rest & removed & taken & -> & Hc & Hq & Hs & Hl & Hn
                 & Hd).
           exists (Own (Select c) :: ran), rest, (t1 ++ removed),
             (t1 ++ taken).
           cbn [loop_state] in Hq1.
           split; [reflexivity|]. split; [exact Hc|]. split.
           { cbn [own_steps enqueued].
             rewrite Hq1, <- !app_assoc, Hq. reflexivity. }
           split; [apply Subseq_app; [apply Subseq_refl|exact Hs]|].
           split; [rewrite !length_app; cbn [others]; lia|].
           split.
           { rewrite length_app, Hn1, Hn. destruct c; reflexivity. }
           rewrite Hd, Hd1, map_app, <- !app_assoc. reflexivity.
        -- inversion Hrun; subst.
           destruct (select_takes fuel c st s _ _ Hsel)
             as (t1 & Hq1 & Hn1 & Hd1).
           exists [Own (Select c)], sched, t1, t1. cbn [loop_state] in *.
           split; [reflexivity|]. split; [discriminate|].
           split; [cbn; rewrite app_nil_r; exact Hq1|].
           split; [apply Subseq_refl|].
           split; [cbn; lia|]. split; [exact Hn1|exact Hd1].
    + destruct (outputChan st) as [|b queued] eqn:Hq0; [discriminate|].
      destruct (IH _ _ _ _ Hrun)
        as (ran & rest & removed & taken & -> & Hc & Hq & Hs & Hl & Hn & Hd).
      cbn [outputChan] in Hq.
      exists (OtherRecv :: ran), rest, (b :: removed), taken.
      split; [reflexivity|]. split; [exact Hc|]. split.
      { cbn [own_steps]. cbn [app]. rewrite Hq. reflexivity. }
      split; [apply Subseq_skip; exact Hs|].
      split; [cbn [others length]; lia|]. split; [exact Hn|exact Hd].
Qed.

(** X16.  A worker delivers in queue order, each record at most once,
    also when the other workers of the pool receive from the same
    channel.  Over the part of a schedule that is run, what was queued or
    sent on the channel is what has been removed from it followed by what
    is still queued; the records this worker has written successfully
    are, in order, the buffers it took itself, one for each receive case,
    and these are the removed ones less those the other workers took, in
    the same order.  When no other worker receives, the worker has taken
    all that was removed. *)
Theorem worker_delivers_in_queue_order (fuel : nat)
        (sched : list SharedStep) :
  forall st s r s',
    transmit_shared fuel sched st s = (Ret r, s') ->
    exists ran rest removed taken,
      sched = ran ++ rest /\
      (forall st1, r = Continue st1 -> rest = []) /\
      outputChan st ++ enqueued (own_steps ran)
      = removed ++ outputChan (loop_state r) /\
      Subseq taken removed /\
      length removed = (length taken + others ran)%nat /\
      length taken = receives (own_steps ran) /\
      delivered (trace s') = delivered (trace s) ++ map Buffer.Bytes taken /\
      (others ran = 0%nat -> taken = removed).
Proof.
  intros st s r s' Hrun.
  destruct (transmit_shared_delivers fuel sched st s r s' Hrun)
    as (ran & rest & removed & taken & Hsched & Hc & Hq & Hs & Hl & Hn & Hd).
  exists ran, rest, removed, taken.
  split; [exact Hsched|]. split; [exact Hc|]. split; [exact Hq|].
  split; [exact Hs|]. split; [exact Hl|]. split; [exact Hn|].
  split; [exact Hd|].
  intros H0. apply Subseq_all; [exact Hs|]. lia.
Qed.

Lemma worker_delivers_in_queue_order_witness :
  exists ran rest removed taken,
    [Own (Enqueue (Buffer.mk [x62; x0a] 64)); OtherRecv;
     Own (Select CaseRecv); Own (Select CaseTick)]
    = ran ++ rest /\
    (forall st1,
        Continue (mkTransmit
                    (Worker.mk 1 ["a:1"%string] "a:1"%string 0 (Some 3%nat) 0)
                    false true 1 2 [] [Buffer.mk [] 64]) = Continue st1 ->
        rest = []) /\
    outputChan drain_worker ++ enqueued (own_steps ran)
    = removed ++ outputChan (loop_state (Continue (mkTransmit
                    (Worker.mk 1 ["a:1"%string] "a:1"%string 0 (Some 3%nat) 0)
                    false true 1 2 [] [Buffer.mk [] 64]))) /\
    Subseq taken removed /\
    length removed = (length taken + others ran)%nat /\
    length taken = receives (own_steps ran) /\
    delivered [EvWrite 3%nat [x62; x0a] true]
    = delivered [] ++ map Buffer.Bytes taken /\
    (others ran = 0%nat -> taken = removed).
Proof.
  apply (worker_delivers_in_queue_order 1
           [Own (Enqueue (Buffer.mk [x62; x0a] 64)); OtherRecv;
            Own (Select CaseRecv); Own (Select CaseTick)]
           drain_worker
           (mkWorld 10 (Some 5) [] [WriteOk 0; WriteOk 0] [] [])
           _
           (mkWorld 10 (Some 5) [] [WriteOk 0] []
                    [EvWrite 3%nat [x62; x0a] true])).
  vm_compute. reflexivity.
Defined.
